(** * abl-tokens: the token-to-stylesheet generator of
      [src/scripts/generateTokens.mjs] (class [FigmaTokenParser])

    A shallow embedding of the transformation core: name normalisation,
    reference rewriting, value conversion, the recursive flattening of the
    token tree into categories, theme partitioning and the emitted
    stylesheet documents.

    Modelling conventions.
    - A JavaScript string is a [string]: a sequence of 8-bit code units,
      read as ASCII.  [toLowerCase]/[toUpperCase] act on [A-Z]/[a-z], the
      class [\s] and [trim] use the ASCII white space (tab, line feed,
      vertical tab, form feed, carriage return, space).
    - Every regular expression of the source is embedded as the scanner it
      denotes (leftmost match, greedy classes, global replacement moving
      left to right over non-overlapping matches).
    - A thrown [TypeError] is the [Throw] result; the retrieval of the
      document and the file system are outside: [generateSCSS] returns the
      written files as a list of (relative path, content). *)

From Stdlib Require Import Bool Arith Lia List Ascii String NArith.
From Stdlib Require Import DecimalString.
Import ListNotations.
Local Open Scope string_scope.
Local Open Scope bool_scope.

Set Implicit Arguments.

(* ===================================================================== *)
(** ** JavaScript strings *)
(* ===================================================================== *)

Module JsStr.

Definition code (c : ascii) : nat := nat_of_ascii c.

Definition between (lo hi : nat) (c : ascii) : bool :=
  Nat.leb lo (code c) && Nat.leb (code c) hi.

(** [[a-z]], [[A-Z]], [\d], [\s] *)
Definition isLower : ascii -> bool := between 97 122.
Definition isUpper : ascii -> bool := between 65 90.
Definition isDigit : ascii -> bool := between 48 57.
Definition isSpace (c : ascii) : bool := between 9 13 c || Nat.eqb (code c) 32.

Definition toLowerChar (c : ascii) : ascii :=
  if isUpper c then ascii_of_nat (code c + 32) else c.
Definition toUpperChar (c : ascii) : ascii :=
  if isLower c then ascii_of_nat (code c - 32) else c.

Fixpoint mapChars (f : ascii -> ascii) (s : string) : string :=
  match s with
  | EmptyString => EmptyString
  | String c s' => String (f c) (mapChars f s')
  end.

Definition toLowerCase : string -> string := mapChars toLowerChar.
Definition toUpperCase : string -> string := mapChars toUpperChar.

Fixpoint allChars (p : ascii -> bool) (s : string) : bool :=
  match s with
  | EmptyString => true
  | String c s' => p c && allChars p s'
  end.

Fixpoint anyChar (p : ascii -> bool) (s : string) : bool :=
  match s with
  | EmptyString => false
  | String c s' => p c || anyChar p s'
  end.

Definition isEmpty (s : string) : bool :=
  match s with EmptyString => true | _ => false end.

(** [s.startsWith(p)] *)
Fixpoint startsWith (p s : string) : bool :=
  match p, s with
  | EmptyString, _ => true
  | String a p', String b s' => Ascii.eqb a b && startsWith p' s'
  | String _ _, EmptyString => false
  end.

(** [s.includes(p)] *)
Fixpoint includes (p s : string) : bool :=
  startsWith p s ||
  match s with
  | EmptyString => false
  | String _ s' => includes p s'
  end.

(** [s.slice(n)] for [0 <= n] *)
Fixpoint drop (n : nat) (s : string) : string :=
  match n, s with
  | O, _ => s
  | S _, EmptyString => EmptyString
  | S k, String _ s' => drop k s'
  end.

(** [s.charAt(0).toUpperCase() + s.slice(1)] *)
Definition capitalize (s : string) : string :=
  match s with
  | EmptyString => EmptyString
  | String c s' => String (toUpperChar c) s'
  end.

(** Removal of a leading run, and of a trailing run, of characters
    satisfying [p]. *)
Fixpoint dropLeading (p : ascii -> bool) (s : string) : string :=
  match s with
  | EmptyString => EmptyString
  | String c s' => if p c then dropLeading p s' else s
  end.

Fixpoint dropTrailing (p : ascii -> bool) (s : string) : string :=
  match s with
  | EmptyString => EmptyString
  | String c s' =>
      let r := dropTrailing p s' in
      if p c && isEmpty r then EmptyString else String c r
  end.

(** [s.trim()] *)
Definition trim (s : string) : string :=
  dropTrailing isSpace (dropLeading isSpace s).

(** [s.split(sep)] for a one-character separator: never the empty list. *)
Fixpoint split (sep : ascii) (s : string) : list string :=
  match s with
  | EmptyString => [EmptyString]
  | String c s' =>
      if Ascii.eqb c sep then EmptyString :: split sep s'
      else match split sep s' with
           | [] => [String c EmptyString]
           | h :: t => String c h :: t
           end
  end.

(** [parts.join(sep)] *)
Fixpoint join (sep : string) (parts : list string) : string :=
  match parts with
  | [] => EmptyString
  | [p] => p
  | p :: rest => p ++ sep ++ join sep rest
  end.

(** [s.replace(pat, rep)] for a string pattern: first occurrence only. *)
Fixpoint replaceFirst (pat rep s : string) : string :=
  if startsWith pat s then rep ++ drop (String.length pat) s
  else match s with
       | EmptyString => EmptyString
       | String c s' => String c (replaceFirst pat rep s')
       end.

(** The text built by appending [f x] for every [x] of a list in turn, as a
    loop with [+=] does. *)
Fixpoint concatMap {A : Type} (f : A -> string) (l : list A) : string :=
  match l with
  | [] => EmptyString
  | x :: rest => f x ++ concatMap f rest
  end.

Definition lf : ascii := ascii_of_nat 10.
Definition nl : string := String lf EmptyString.

End JsStr.
Import JsStr.

(* ===================================================================== *)
(** ** Name Normalizer *)
(* ===================================================================== *)

Definition hyphen : ascii := "-"%char.
Definition isHyphen (c : ascii) : bool := Ascii.eqb c hyphen.

(** [.replace(/([a-z])([A-Z])/g, "$1-$2")] *)
Fixpoint camelBoundaries (s : string) : string :=
  match s with
  | EmptyString => EmptyString
  | String c1 tl =>
      match tl with
      | String c2 rest =>
          if isLower c1 && isUpper c2
          then String c1 (String hyphen (String c2 (camelBoundaries rest)))
          else String c1 (camelBoundaries tl)
      | EmptyString => String c1 EmptyString
      end
  end.

(** [.replace(/[A-Z]/g, (letter) => `-${letter.toLowerCase()}`)] *)
Fixpoint hyphenateUpper (s : string) : string :=
  match s with
  | EmptyString => EmptyString
  | String c s' =>
      if isUpper c then String hyphen (String (toLowerChar c) (hyphenateUpper s'))
      else String c (hyphenateUpper s')
  end.

(** [.replace(/\s+/g, "-")]: every maximal run of white space becomes one
    hyphen.  [inRun] tells that the previous character was white space, so
    that the run it belongs to has been replaced already. *)
Fixpoint hyphenateSpacesFrom (inRun : bool) (s : string) : string :=
  match s with
  | EmptyString => EmptyString
  | String c s' =>
      if isSpace c
      then if inRun then hyphenateSpacesFrom true s'
           else String hyphen (hyphenateSpacesFrom true s')
      else String c (hyphenateSpacesFrom false s')
  end.

Definition hyphenateSpaces : string -> string := hyphenateSpacesFrom false.

(** [[a-z0-9-]] *)
Definition isNameChar (c : ascii) : bool :=
  isLower c || isDigit c || isHyphen c.

(** [.replace(/[^a-z0-9-]/g, <empty>)] *)
Fixpoint stripInvalid (s : string) : string :=
  match s with
  | EmptyString => EmptyString
  | String c s' =>
      if isNameChar c then String c (stripInvalid s') else stripInvalid s'
  end.

(** [.replace(/^-+|-+$/g, <empty>)]: the leading run of hyphens, then the
    trailing one. *)
Definition trimHyphens (s : string) : string :=
  dropTrailing isHyphen (dropLeading isHyphen s).

Definition normalizeTokenName (name : string) : string :=
  toLowerCase
    (trimHyphens
       (stripInvalid
          (hyphenateSpaces
             (hyphenateUpper
                (camelBoundaries name))))).

(* ===================================================================== *)
(** ** JavaScript values *)
(* ===================================================================== *)

(** A value of the parsed token document.  A number is kept as its decimal
    rendering ([Number::toString], ["0"] for both zeros): the generator only
    prints numbers and tests them for truthiness.  [JObj es] lists the own
    properties in the order of [Object.entries].  [undefined] is the [None]
    of [option json]. *)
#[local] Unset Elimination Schemes.
Inductive json : Type :=
| JNull
| JBool (b : bool)
| JNum (repr : string)
| JStr (s : string)
| JArr (items : list json)
| JObj (es : list (string * json)).
#[local] Set Elimination Schemes.

(** Induction on a value, with the property at hand for every element of an
    array and every property value of an object. *)
Section JsonInduction.
Variable P : json -> Prop.
Hypothesis Hnull : P JNull.
Hypothesis Hbool : forall b, P (JBool b).
Hypothesis Hnum : forall r, P (JNum r).
Hypothesis Hstr : forall s, P (JStr s).
Hypothesis Harr : forall items, Forall P items -> P (JArr items).
Hypothesis Hobj : forall es, Forall (fun kv => P (snd kv)) es -> P (JObj es).

Fixpoint json_ind (v : json) : P v :=
  match v with
  | JNull => Hnull
  | JBool b => Hbool b
  | JNum r => Hnum r
  | JStr s => Hstr s
  | JArr items =>
      Harr
        ((fix all (l : list json) : Forall P l :=
            match l with
            | [] => Forall_nil P
            | x :: rest => Forall_cons x (json_ind x) (all rest)
            end) items)
  | JObj es =>
      Hobj
        ((fix all (l : list (string * json)) : Forall (fun kv => P (snd kv)) l :=
            match l with
            | [] => Forall_nil _
            | kv :: rest =>
                Forall_cons (P := fun kv => P (snd kv)) kv (json_ind (snd kv)) (all rest)
            end) es)
  end.
End JsonInduction.

(** The outcome of a call that may throw a [TypeError]. *)
Inductive result (A : Type) : Type :=
| Ok (a : A)
| Throw.
Arguments Ok {A} a.
Arguments Throw {A}.

Definition bind {A B : Type} (r : result A) (k : A -> result B) : result B :=
  match r with
  | Ok a => k a
  | Throw => Throw
  end.

Notation "x <- r ;; k" := (bind r (fun x => k))
  (at level 61, r at next level, right associativity).

Fixpoint mapM {A B : Type} (f : A -> result B) (l : list A) : result (list B) :=
  match l with
  | [] => Ok []
  | a :: rest => b <- f a ;; bs <- mapM f rest ;; Ok (b :: bs)
  end.

Module JsVal.

(** [ToBoolean] *)
Definition truthy (v : json) : bool :=
  match v with
  | JNull => false
  | JBool b => b
  | JNum r => negb (r =? "0")
  | JStr s => negb (isEmpty s)
  | JArr _ | JObj _ => true
  end.

Definition truthyOpt (v : option json) : bool :=
  match v with Some x => truthy x | None => false end.

(** [typeof v === "object"], which holds of [null] too *)
Definition isObjectType (v : json) : bool :=
  match v with JNull | JArr _ | JObj _ => true | _ => false end.

(** [a || b] on possibly undefined operands *)
Definition orElse (a b : option json) : option json :=
  if truthyOpt a then a else b.

(** [a || d] with a defined default *)
Definition orDefault (a : option json) (d : json) : json :=
  match a with
  | Some x => if truthy x then x else d
  | None => d
  end.

(** [v === "lit"] *)
Definition isString (lit : string) (v : option json) : bool :=
  match v with Some (JStr s) => s =? lit | _ => false end.

Fixpoint assoc {A : Type} (k : string) (es : list (string * A)) : option A :=
  match es with
  | [] => None
  | (k', v) :: rest => if k' =? k then Some v else assoc k rest
  end.

(** [v.name] for the names this program reads ([type], [value], [$type],
    [$value], [x], [y], [blur], [spread], [color], [width], [style],
    [fontFamily], ...): an own property of an object, [undefined] on an
    array or a primitive.  The receiver is never [null] where it is used,
    except in [convertShadowObject], which tests for it. *)
Definition prop (name : string) (v : json) : option json :=
  match v with
  | JObj es => assoc name es
  | _ => None
  end.

Definition natToString (n : nat) : string :=
  NilEmpty.string_of_uint (Nat.to_uint n).

Fixpoint indexedFrom {A : Type} (i : nat) (l : list A) : list (string * A) :=
  match l with
  | [] => []
  | a :: rest => (natToString i, a) :: indexedFrom (S i) rest
  end.

Fixpoint chars (s : string) : list json :=
  match s with
  | EmptyString => []
  | String c s' => JStr (String c EmptyString) :: chars s'
  end.

(** [Object.entries(v)]: the own enumerable properties; the elements of an
    array and the characters of a string under their indices, nothing for a
    number or a boolean, a [TypeError] for [null]. *)
Definition entries (v : json) : result (list (string * json)) :=
  match v with
  | JObj es => Ok es
  | JArr l => Ok (indexedFrom 0 l)
  | JStr s => Ok (indexedFrom 0 (chars s))
  | JNum _ | JBool _ => Ok []
  | JNull => Throw
  end.

(** [ToString], as a template literal applies it.  An object of the parsed
    document answers through [Object.prototype.toString], unless it has a
    property [toString] of its own: that property is no function, the
    inherited [valueOf] returns the object itself, and the conversion
    throws.  An array joins the texts of its elements with commas, the
    empty text standing for [null]; an element that throws makes the whole
    conversion throw. *)
Fixpoint toStr (v : json) : result string :=
  match v with
  | JNull => Ok "null"
  | JBool true => Ok "true"
  | JBool false => Ok "false"
  | JNum r => Ok r
  | JStr s => Ok s
  | JArr l =>
      parts <- mapM (fun x => match x with
                              | JNull => Ok EmptyString
                              | _ => toStr x
                              end) l ;;
      Ok (join "," parts)
  | JObj es =>
      match assoc "toString" es with
      | Some _ => Throw
      | None => Ok "[object Object]"
      end
  end.

Definition dquote : ascii := ascii_of_nat 34.
Definition backslash : ascii := ascii_of_nat 92.

Definition hexDigit (n : nat) : ascii :=
  if Nat.ltb n 10 then ascii_of_nat (48 + n) else ascii_of_nat (87 + n).

(** The escape of one character inside a JSON string literal *)
Definition escapeChar (c : ascii) : string :=
  let n := code c in
  if Nat.eqb n 34 then String backslash (String dquote EmptyString)
  else if Nat.eqb n 92 then "\\"
  else if Nat.eqb n 8 then "\b"
  else if Nat.eqb n 12 then "\f"
  else if Nat.eqb n 10 then "\n"
  else if Nat.eqb n 13 then "\r"
  else if Nat.eqb n 9 then "\t"
  else if Nat.ltb n 32
       then "\u00" ++ String (hexDigit (n / 16))
                        (String (hexDigit (n mod 16)) EmptyString)
       else String c EmptyString.

Fixpoint escape (s : string) : string :=
  match s with
  | EmptyString => EmptyString
  | String c s' => escapeChar c ++ escape s'
  end.

Definition quote (s : string) : string :=
  String dquote (escape s ++ String dquote EmptyString).

(** [JSON.stringify(v)] (no indentation) of a parsed value *)
Fixpoint stringify (v : json) : string :=
  match v with
  | JNull => "null"
  | JBool true => "true"
  | JBool false => "false"
  | JNum r => r
  | JStr s => quote s
  | JArr l => "[" ++ join "," (map stringify l) ++ "]"
  | JObj es =>
      "{" ++ join "," (map (fun kv => quote (fst kv) ++ ":" ++ stringify (snd kv)) es)
          ++ "}"
  end.

End JsVal.
Import JsVal.

(* ===================================================================== *)
(** ** Objects used as insertion-ordered maps *)
(* ===================================================================== *)

(** An object built by the generator ([categories], the theme buckets),
    kept as the list of its own properties in enumeration order: the keys
    that are array indices first, in ascending numeric order, then the other
    keys in the order of their creation. *)
Module JsObj.

Fixpoint digitsValue (acc : N) (s : string) : N :=
  match s with
  | EmptyString => acc
  | String c s' => digitsValue (acc * 10 + N.of_nat (code c - 48)) s'
  end.

(** The array index a key denotes, if it is the canonical decimal
    rendering of an integer below 2^32 - 1. *)
Definition arrayIndex (k : string) : option N :=
  match k with
  | EmptyString => None
  | String c rest =>
      if allChars isDigit k && (negb (Ascii.eqb c "0") || isEmpty rest)
      then let n := digitsValue 0 k in
           if N.ltb n 4294967295 then Some n else None
      else None
  end.

Section Obj.
Variable A : Type.

Definition get (k : string) (o : list (string * A)) : option A := assoc k o.

Definition has (k : string) (o : list (string * A)) : bool :=
  match get k o with Some _ => true | None => false end.

(** assignment to an existing own property: the position is kept *)
Fixpoint update (k : string) (v : A) (o : list (string * A)) : list (string * A) :=
  match o with
  | [] => []
  | (k', v') :: rest =>
      if k' =? k then (k', v) :: rest else (k', v') :: update k v rest
  end.

(** creation of the index property [k] = [n]: after the smaller indices *)
Fixpoint insertIndex (n : N) (k : string) (v : A) (o : list (string * A))
  : list (string * A) :=
  match o with
  | [] => [(k, v)]
  | (k', v') :: rest =>
      match arrayIndex k' with
      | Some m => if N.ltb m n then (k', v') :: insertIndex n k v rest
                  else (k, v) :: o
      | None => (k, v) :: o
      end
  end.

(** [o[k] = v] *)
Definition set (k : string) (v : A) (o : list (string * A)) : list (string * A) :=
  if has k o then update k v o
  else match arrayIndex k with
       | Some n => insertIndex n k v o
       | None => o ++ [(k, v)]
       end.

(** [Object.keys(o)] *)
Definition keys (o : list (string * A)) : list string := map fst o.
End Obj.

End JsObj.

(* ===================================================================== *)
(** ** Reference Resolver *)
(* ===================================================================== *)

Definition openBrace : ascii := "{"%char.
Definition closeBrace : ascii := "}"%char.
Definition dot : ascii := "."%char.

(** [refPath.split(".").map(normalizeTokenName).join("-")] *)
Definition normalizeReferencePath (refPath : string) : string :=
  join "-" (map normalizeTokenName (split dot refPath)).

(** The text up to the first closing brace, and the text after it. *)
Fixpoint untilClose (s : string) : option (string * string) :=
  match s with
  | EmptyString => None
  | String c s' =>
      if Ascii.eqb c closeBrace then Some (EmptyString, s')
      else match untilClose s' with
           | Some (inner, after) => Some (String c inner, after)
           | None => None
           end
  end.

(** The callback of both reference rewrites *)
Definition referenceToVar (refPath : string) : string :=
  "var(--" ++ normalizeReferencePath (trim refPath) ++ ")".

(** [.replace(/\{([^}]+)\}/g, (match, refPath) => ...)]: an opening brace
    followed by at least one character other than a closing brace and then
    a closing brace is a placeholder.  [skip] counts the characters of the
    placeholder just rewritten that are still to be passed over. *)
Fixpoint replaceReferencesFrom (skip : nat) (s : string) : string :=
  match s with
  | EmptyString => EmptyString
  | String c s' =>
      match skip with
      | S k => replaceReferencesFrom k s'
      | O =>
          if Ascii.eqb c openBrace
          then match untilClose s' with
               | Some (String i inner, _) =>
                   referenceToVar (String i inner)
                     ++ replaceReferencesFrom (S (String.length (String i inner))) s'
               | _ => String c (replaceReferencesFrom O s')
               end
          else String c (replaceReferencesFrom O s')
      end
  end.

Definition replaceReferences : string -> string := replaceReferencesFrom O.

Definition isMathChar (c : ascii) : bool :=
  Ascii.eqb c "+" || Ascii.eqb c "-" || Ascii.eqb c "*" || Ascii.eqb c "/".

Definition needsCalc (str : string) (type : option json) : bool :=
  let hasMath := anyChar isMathChar str in
  let hasVar := includes "var(--" str in
  if hasMath && hasVar
  then if negb (startsWith "calc(" str) then true else false
  else false.

Definition processStringReferences (str : string) (type : option json) : string :=
  let withReferences := replaceReferences str in
  if needsCalc withReferences type
  then "calc(" ++ withReferences ++ ")"
  else withReferences.

(** The lines the global fix-up leaves alone *)
Definition keptLine (line : string) : bool :=
  startsWith "--" (trim line) || startsWith "//" (trim line) || isEmpty (trim line).

Definition globalFixReferences (content : string) : string :=
  let lines := split lf content in
  let processedLines :=
    map (fun line => if keptLine line then line else replaceReferences line) lines in
  join nl processedLines.

(* ===================================================================== *)
(** ** Value Converter *)
(* ===================================================================== *)

Definition isBoxShadow (obj : json) : bool :=
  truthy obj &&
  ((match prop "x" obj, prop "y" obj with Some _, Some _ => true | _, _ => false end)
   || isString "dropShadow" (prop "type" obj)
   || isString "innerShadow" (prop "type" obj)).

(** Reading a property of [null] throws; every other value answers.  The
    template literal turns the five fields into text from left to right. *)
Definition convertShadowObject (shadow : json) : result string :=
  match shadow with
  | JNull => Throw
  | _ =>
      let x := orDefault (prop "x" shadow) (JNum "0") in
      let y := orDefault (prop "y" shadow) (JNum "0") in
      let blur := orDefault (prop "blur" shadow) (JNum "0") in
      let spread := orDefault (prop "spread" shadow) (JNum "0") in
      let color := orDefault (prop "color" shadow) (JStr "#000") in
      let type := orDefault (prop "type" shadow) (JStr "dropShadow") in
      let inset := if isString "innerShadow" (Some type) then "inset " else EmptyString in
      xText <- toStr x ;;
      yText <- toStr y ;;
      blurText <- toStr blur ;;
      spreadText <- toStr spread ;;
      colorText <- toStr color ;;
      Ok (inset ++ xText ++ "px " ++ yText ++ "px " ++ blurText ++ "px "
            ++ spreadText ++ "px " ++ colorText)
  end.

(** A destructuring default applies to an [undefined] property only. *)
Definition withDefault (v : option json) (d : json) : json :=
  match v with Some x => x | None => d end.

Definition isArray (v : json) : bool :=
  match v with JArr _ => true | _ => false end.

(** [field ? `${field}px` : fallback] *)
Definition pixelsOr (fallback : string) (field : option json) : result json :=
  if truthyOpt field
  then text <- toStr (withDefault field JNull) ;; Ok (JStr (text ++ "px"))
  else Ok (JStr fallback).

(** The branches of [convertValue] for an object or array [value] that has
    no [value] property of its own.  Of the entries of the typography
    mapping only [font-size] and [letter-spacing] go through a template
    literal, in this order. *)
Definition convertComposite (value : json) (type : option json) : result json :=
  if isString "boxShadow" type || isBoxShadow value then
    match value with
    | JArr shadows =>
        parts <- mapM convertShadowObject shadows ;;
        Ok (JStr (join ", " parts))
    | _ =>
        s <- convertShadowObject value ;;
        Ok (JStr s)
    end
  else if isString "border" type then
    let width := withDefault (prop "width" value) (JNum "1") in
    let style := withDefault (prop "style" value) (JStr "solid") in
    let color := withDefault (prop "color" value) (JStr "#000") in
    widthText <- toStr width ;;
    styleText <- toStr style ;;
    colorText <- toStr color ;;
    Ok (JStr (widthText ++ "px " ++ styleText ++ " " ++ colorText))
  else if isString "typography" type then
    fontSize <- pixelsOr "inherit" (prop "fontSize" value) ;;
    letterSpacing <- pixelsOr "normal" (prop "letterSpacing" value) ;;
    Ok (JObj
          [ ("font-family", orDefault (prop "fontFamily" value) (JStr "inherit"));
            ("font-size", fontSize);
            ("font-weight", orDefault (prop "fontWeight" value) (JStr "inherit"));
            ("line-height", orDefault (prop "lineHeight" value) (JStr "inherit"));
            ("letter-spacing", letterSpacing) ])
  else Ok (JStr (stringify value)).

(** [f] applied to the property [name] of the entries, when there is one. *)
Fixpoint assocWith {B : Type} (f : json -> B) (name : string)
  (es : list (string * json)) : option B :=
  match es with
  | [] => None
  | (k, v) :: rest => if k =? name then Some (f v) else assocWith f name rest
  end.

Fixpoint convertValue (value : json) (type : option json) {struct value} : result json :=
  match value with
  | JObj es =>
      match assocWith (fun inner => convertValue inner (prop "type" value))
              "value" es with
      | Some converted => converted
      | None => convertComposite value type
      end
  | JArr _ => convertComposite value type
  | JNum r =>
      if isString "dimension" type || isString "spacing" type
         || isString "borderRadius" type
      then Ok (JStr (r ++ "px"))
      else Ok value
  | JStr s =>
      if includes "var(--" s then Ok value
      else Ok (JStr (processStringReferences s type))
  | JNull | JBool _ => Ok value
  end.

(* ===================================================================== *)
(** ** Token Flattener *)
(* ===================================================================== *)

Record category : Type := mkCategory {
  variables : list string;
  mixins : list string
}.

Definition categories : Type := list (string * category).

Definition isSlash (c : ascii) : bool :=
  Ascii.eqb c "\" || Ascii.eqb c "/".

(** [.replace(/[\\\/]/g, "-")] *)
Definition slashesToHyphens : string -> string :=
  mapChars (fun c => if isSlash c then hyphen else c).

Definition categoryKeyOf (baseName : string) : string :=
  toLowerCase (slashesToHyphens baseName).

(** The lower-case names that [categories], a plain object, inherits from
    [Object.prototype]: reading them yields a truthy value that is no
    category. *)
Definition inheritedKey (k : string) : bool :=
  (k =? "constructor") || (k =? "__proto__").

(** [categories[key].variables.push(line)]; the read of [variables] on an
    inherited value is [undefined] and the call throws. *)
Definition pushVariable (key line : string) (cats : categories) : result categories :=
  match JsObj.get key cats with
  | Some c => Ok (JsObj.update key (mkCategory (variables c ++ [line]) (mixins c)) cats)
  | None => Throw
  end.

Definition pushMixin (key mixin : string) (cats : categories) : result categories :=
  match JsObj.get key cats with
  | Some c => Ok (JsObj.update key (mkCategory (variables c) (mixins c ++ [mixin])) cats)
  | None => Throw
  end.

(** [if (!categories[categoryKey]) categories[categoryKey] = {...}] *)
Definition ensureCategory (key : string) (cats : categories) : categories :=
  if inheritedKey key || JsObj.has key cats then cats
  else JsObj.set key (mkCategory [] []) cats.

(** [value && typeof value === "object" && (value.$type || value.type)] *)
Definition isLeafToken (value : json) : bool :=
  truthy value && isObjectType value
  && truthyOpt (orElse (prop "$type" value) (prop "type" value)).

(** [`  ${prop}: ${val};\n`] and
    [`--${tokenName}-${prop.replace("font-", <empty>)}: ${val};`], over the
    property and the text that [ToString] gave for its value. *)
Definition mixinLine (pt : string * string) : string :=
  "  " ++ fst pt ++ ": " ++ snd pt ++ ";" ++ nl.

Definition typographyVariable (tokenName : string) (pt : string * string) : string :=
  "--" ++ tokenName ++ "-" ++ replaceFirst "font-" EmptyString (fst pt)
       ++ ": " ++ snd pt ++ ";".

(** The first loop over the properties of a typography mapping: the lines
    of the mixin body. *)
Fixpoint mixinBody (props : list (string * json)) : result string :=
  match props with
  | [] => Ok EmptyString
  | (prop, val) :: rest =>
      text <- toStr val ;;
      body <- mixinBody rest ;;
      Ok (mixinLine (prop, text) ++ body)
  end.

(** The conversion of a leaf value: [convertValue], then the resolver once
    more on a string result that has no [var(--] call. *)
Definition convertLeafValue (tokenValue tokenType : json) : result json :=
  converted <- convertValue tokenValue (Some tokenType) ;;
  match converted with
  | JStr s => if negb (includes "var(--" s)
              then Ok (JStr (processStringReferences s (Some tokenType)))
              else Ok converted
  | _ => Ok converted
  end.

(** [value.$type || value.type], truthy for a leaf token *)
Definition resolvedType (value : json) : json :=
  withDefault (orElse (prop "$type" value) (prop "type" value)) JNull.

(** [value.$value || value.value] *)
Definition resolvedValue (value : json) : option json :=
  orElse (prop "$value" value) (prop "value" value).

(** [tokenType === "typography" && typeof converted === "object"] *)
Definition typographyMapping (tokenType converted : json) : bool :=
  isString "typography" (Some tokenType) && isObjectType converted.

(** [`--${tokenName}: ${converted};`], over the text that [ToString] gave
    for the converted value. *)
Definition declaration (tokenName text : string) : string :=
  "--" ++ tokenName ++ ": " ++ text ++ ";".

(** The second loop over the properties of a typography mapping: one
    declaration pushed per property. *)
Fixpoint pushTypographyVariables (key tokenName : string)
  (props : list (string * json)) (cats : categories) : result categories :=
  match props with
  | [] => Ok cats
  | (prop, val) :: rest =>
      text <- toStr val ;;
      cats' <- pushVariable key (typographyVariable tokenName (prop, text)) cats ;;
      pushTypographyVariables key tokenName rest cats'
  end.

(** The body of the loop of [flattenTokens] for a leaf token. *)
Definition flattenLeaf (value : json) (baseName : string) (cats : categories)
  (currentPath : string) : result categories :=
  let categoryKey := categoryKeyOf baseName in
  let cats := ensureCategory categoryKey cats in
  let tokenName := currentPath in
  let tokenType := resolvedType value in
  match resolvedValue value with
  | None | Some JNull => Ok cats
  | Some tokenValue =>
      converted <- convertLeafValue tokenValue tokenType ;;
      if typographyMapping tokenType converted then
        props <- entries converted ;;
        body <- mixinBody props ;;
        let mixinContent := "@mixin " ++ tokenName ++ " {" ++ nl ++ body ++ "}" in
        cats <- pushMixin categoryKey mixinContent cats ;;
        pushTypographyVariables categoryKey tokenName props cats
      else
        text <- toStr converted ;;
        let variableLine := declaration tokenName text in
        pushVariable categoryKey variableLine cats
  end.

Definition skippedKey (key : string) : bool :=
  isEmpty key || startsWith "$" key.

Definition childPath (prefix key : string) : string :=
  let normalizedKey := normalizeTokenName key in
  if isEmpty prefix then normalizedKey else prefix ++ "-" ++ normalizedKey.

Section Entries.
(** what the loop does with the value of a kept key *)
Variable visit : json -> string -> categories -> result categories.

Fixpoint flattenEntries (es : list (string * json)) (prefix : string)
  (cats : categories) : result categories :=
  match es with
  | [] => Ok cats
  | (key, value) :: rest =>
      if skippedKey key then flattenEntries rest prefix cats
      else
        cats' <- visit value (childPath prefix key) cats ;;
        flattenEntries rest prefix cats'
  end.
End Entries.

Fixpoint flattenValue (baseName : string) (value : json) (currentPath : string)
  (cats : categories) {struct value} : result categories :=
  if isLeafToken value then flattenLeaf value baseName cats currentPath
  else match value with
       | JObj es => flattenEntries (flattenValue baseName) es currentPath cats
       | _ => Ok cats
       end.

Definition flattenTokens (obj : json) (baseName : string) (cats : categories)
  (prefix : string) : result categories :=
  es <- entries obj ;;
  flattenEntries (flattenValue baseName) es prefix cats.

(* ===================================================================== *)
(** ** Theme Partitioner *)
(* ===================================================================== *)

(** A theme bucket maps a category name to [{ variables }]. *)
Definition bucket : Type := list (string * list string).

Record partition : Type := mkPartition {
  baseTokens : bucket;
  lightTokens : bucket;
  darkTokens : bucket
}.

Inductive theme : Type := Light | Dark | Base.

(** The test of the loop of [generateBaseFile] *)
Definition themeOf (categoryName : string) : theme :=
  let lowerCategoryName := toLowerCase categoryName in
  if includes "light" lowerCategoryName then Light
  else if includes "dark" lowerCategoryName then Dark
  else Base.

(** [o[k] = v] on a fresh plain object: the key [__proto__] sets the
    prototype and creates no own property. *)
Definition assign (k : string) (v : list string) (o : bucket) : bucket :=
  if k =? "__proto__" then o else JsObj.set k v o.

Fixpoint partitionInto (cats : categories) (p : partition) : partition :=
  match cats with
  | [] => p
  | (categoryName, c) :: rest =>
      partitionInto rest
        match themeOf categoryName with
        | Light => mkPartition (baseTokens p)
                     (assign categoryName (variables c) (lightTokens p)) (darkTokens p)
        | Dark => mkPartition (baseTokens p) (lightTokens p)
                    (assign categoryName (variables c) (darkTokens p))
        | Base => mkPartition (assign categoryName (variables c) (baseTokens p))
                    (lightTokens p) (darkTokens p)
        end
  end.

Definition partitionCategories (cats : categories) : partition :=
  partitionInto cats (mkPartition [] [] []).

(* ===================================================================== *)
(** ** Stylesheet Emitter *)
(* ===================================================================== *)

Definition variableBlock (title : string) (render : string -> string)
  (vars : list string) : string :=
  match vars with
  | [] => EmptyString
  | _ => nl ++ "  // " ++ title ++ " tokens" ++ nl
           ++ concatMap (fun variable => "  " ++ render variable ++ nl) vars
  end.

Definition variablesContent (cats : bucket) : string :=
  "// Design Tokens - Base CSS Variables" ++ nl
  ++ "// Automatically generated from Figma tokens" ++ nl
  ++ "// Theme-independent tokens" ++ nl
  ++ nl
  ++ ":root {" ++ nl
  ++ concatMap (fun kv => variableBlock (capitalize (fst kv)) (fun v => v) (snd kv)) cats
  ++ "}" ++ nl.

(** The content written to [base/_variables.scss] *)
Definition generateVariablesFile (cats : bucket) : string :=
  globalFixReferences (variablesContent cats).

(** [.replace(/light|dark/gi, <empty>)]; [skip] counts the characters of the
    word just removed that are still to be passed over. *)
Fixpoint removeThemeWordsFrom (skip : nat) (s : string) : string :=
  match s with
  | EmptyString => EmptyString
  | String c s' =>
      match skip with
      | S k => removeThemeWordsFrom k s'
      | O =>
          if startsWith "light" (toLowerCase s) then removeThemeWordsFrom 4 s'
          else if startsWith "dark" (toLowerCase s) then removeThemeWordsFrom 3 s'
          else String c (removeThemeWordsFrom O s')
      end
  end.

Definition removeThemeWords : string -> string := removeThemeWordsFrom O.

(** [.replace(/(-light|-dark)(?=:)/, <empty>)]: the first theme suffix that a
    colon follows. *)
Fixpoint stripThemeSuffix (s : string) : string :=
  if startsWith "-light:" s then drop 6 s
  else if startsWith "-dark:" s then drop 5 s
  else match s with
       | EmptyString => EmptyString
       | String c s' => String c (stripThemeSuffix s')
       end.

Definition themeContent (themeName : string) (cats : bucket) : string :=
  "// Design Tokens - " ++ capitalize themeName ++ " Theme" ++ nl
  ++ "// Automatically generated from Figma tokens" ++ nl
  ++ nl
  ++ "@import 'variables';" ++ nl
  ++ nl
  ++ (if themeName =? "light" then ":root {" ++ nl
      else "." ++ themeName ++ " {" ++ nl)
  ++ concatMap
       (fun kv =>
          variableBlock (capitalize (trim (removeThemeWords (fst kv))))
            stripThemeSuffix (snd kv))
       cats
  ++ "}" ++ nl.

(** The content written to [base/_<themeName>.scss] *)
Definition generateThemeFile (themeName : string) (cats : bucket) : string :=
  globalFixReferences (themeContent themeName cats).

Definition file : Type := (string * string)%type.

(** The files [generateBaseFile] writes, in the order of the writes. *)
Definition generateBaseFile (cats : categories) : list file :=
  let p := partitionCategories cats in
  [("base/_variables.scss", generateVariablesFile (baseTokens p))]
  ++ (match lightTokens p with
      | [] => []
      | _ => [("base/_light.scss", generateThemeFile "light" (lightTokens p))]
      end)
  ++ (match darkTokens p with
      | [] => []
      | _ => [("base/_dark.scss", generateThemeFile "dark" (darkTokens p))]
      end).

(** *** Utility classes *)

Definition colon : ascii := ":"%char.

(** The text up to the first colon, and the text after it. *)
Fixpoint untilColon (s : string) : option (string * string) :=
  match s with
  | EmptyString => None
  | String c s' =>
      if Ascii.eqb c colon then Some (EmptyString, s')
      else match untilColon s' with
           | Some (seg, after) => Some (String c seg, after)
           | None => None
           end
  end.

(** [variable.match(/--([^:]+):/)]: the first capture of the leftmost
    match, a non-empty run without a colon between two hyphens and a
    colon. *)
Fixpoint declaredName (s : string) : option string :=
  match (if startsWith "--" s
         then match untilColon (drop 2 s) with
              | Some (String c seg, _) => Some (String c seg)
              | _ => None
              end
         else None) with
  | Some name => Some name
  | None => match s with
            | EmptyString => None
            | String _ s' => declaredName s'
            end
  end.

(** Whether [seg] ends with a hyphen and at least one digit after it.  The
    state is 1 after a hyphen, 2 after a hyphen and digits, 0 otherwise. *)
Fixpoint endsHyphenDigitsFrom (state : nat) (seg : string) : bool :=
  match seg with
  | EmptyString => Nat.eqb state 2
  | String c seg' =>
      if isHyphen c then endsHyphenDigitsFrom 1 seg'
      else if isDigit c && negb (Nat.eqb state 0) then endsHyphenDigitsFrom 2 seg'
      else endsHyphenDigitsFrom 0 seg'
  end.

(** [variable.match(/--[^:]*-\d+:/)] as a test *)
Fixpoint hasNumberedName (s : string) : bool :=
  (startsWith "--" s
   && match untilColon (drop 2 s) with
      | Some (seg, _) => endsHyphenDigitsFrom 0 seg
      | None => false
      end)
  || match s with
     | EmptyString => false
     | String _ s' => hasNumberedName s'
     end.

(** [className.match(/\d+$/)] as a test *)
Fixpoint endsWithDigit (s : string) : bool :=
  match s with
  | EmptyString => false
  | String c EmptyString => isDigit c
  | String _ s' => endsWithDigit s'
  end.

Fixpoint takeWhile (p : ascii -> bool) (s : string) : string :=
  match s with
  | EmptyString => EmptyString
  | String c s' => if p c then String c (takeWhile p s') else EmptyString
  end.

(** [mixin.match(/@mixin ([^{]+)/)]: the first capture of the leftmost
    match. *)
Fixpoint mixinHeader (s : string) : option string :=
  match (if startsWith "@mixin " s
         then match takeWhile (fun c => negb (Ascii.eqb c openBrace)) (drop 7 s) with
              | EmptyString => None
              | name => Some name
              end
         else None) with
  | Some name => Some name
  | None => match s with
            | EmptyString => None
            | String _ s' => mixinHeader s'
            end
  end.

Definition hasColorTokens (vars : list string) : bool :=
  existsb
    (fun variable =>
       includes "color" variable || includes "background" variable
       || hasNumberedName variable)
    vars.

Definition hasSpacingTokens (vars : list string) : bool :=
  existsb
    (fun variable =>
       includes "spacing" variable || includes "padding" variable
       || includes "margin" variable || includes "gap" variable)
    vars.

Definition componentPatterns : list string :=
  ["background"; "border"; "hover"; "active"; "focus"; "disabled"; "checked";
   "selected"].

Definition isComponentTokens (vars : list string) : bool :=
  existsb
    (fun variable => existsb (fun pattern => includes pattern variable) componentPatterns)
    vars.

Definition generateColorUtilities (vars : list string) : string :=
  concatMap
    (fun variable =>
       match declaredName variable with
       | Some className =>
           if includes "color" className || includes "background" className
              || endsWithDigit className
           then ".text-" ++ className ++ " { color: var(--" ++ className ++ "); }" ++ nl
                ++ ".bg-" ++ className ++ " { background-color: var(--" ++ className
                ++ "); }" ++ nl
                ++ ".border-" ++ className ++ " { border-color: var(--" ++ className
                ++ "); }" ++ nl
           else EmptyString
       | None => EmptyString
       end)
    vars.

Definition generateSpacingUtilities (vars : list string) : string :=
  concatMap
    (fun variable =>
       match declaredName variable with
       | Some className =>
           if includes "spacing" className || includes "padding" className
              || includes "margin" className
           then ".m-" ++ className ++ " { margin: var(--" ++ className ++ "); }" ++ nl
                ++ ".p-" ++ className ++ " { padding: var(--" ++ className ++ "); }" ++ nl
           else EmptyString
       | None => EmptyString
       end)
    vars.

Definition mapTokenToProperty (tokenName : string) : option string :=
  if includes "background" tokenName then Some "background"
  else if includes "color" tokenName && negb (includes "background" tokenName)
  then Some "color"
  else if includes "border-color" tokenName then Some "border-color"
  else if includes "border-radius" tokenName then Some "border-radius"
  else if includes "padding" tokenName then Some "padding"
  else if includes "margin" tokenName then Some "margin"
  else if includes "font-size" tokenName then Some "font-size"
  else if includes "font-weight" tokenName then Some "font-weight"
  else if includes "line-height" tokenName then Some "line-height"
  else None.

(** [categoryData[name]] for [name] among [base] and the state names, where
    [categoryData] is the array of declaration lines that
    [generateBasicUtilities] hands over: an array has its indices, [length]
    and the members of [Array.prototype], none of them under such a name, so
    the read is [undefined]. *)
Definition namedGroup (categoryData : list string) (name : string)
  : option (list string) := None.

(** [group || []] *)
Definition groupOrEmpty (group : option (list string)) : list string :=
  match group with Some g => g | None => [] end.

Definition states : list string :=
  ["hover"; "active"; "focus"; "disabled"; "checked"; "selected"].

Definition propertyLine (baseToken tokenName : string) : string :=
  match mapTokenToProperty baseToken with
  | Some property => "  " ++ property ++ ": var(--" ++ tokenName ++ ");" ++ nl
  | None => EmptyString
  end.

Definition stateRule (categoryName : string) (categoryData : list string)
  (state : string) : string :=
  let stateVars := groupOrEmpty (namedGroup categoryData state) in
  match stateVars with
  | [] => EmptyString
  | _ =>
      "." ++ categoryName ++ ":" ++ state ++ " {" ++ nl
      ++ concatMap
           (fun variable =>
              match declaredName variable with
              | Some tokenName =>
                  let baseToken := replaceFirst ("-" ++ state) EmptyString tokenName in
                  propertyLine baseToken tokenName
              | None => EmptyString
              end)
           stateVars
      ++ "}" ++ nl ++ nl
  end.

Definition generateComponentUtilities (categoryName : string)
  (categoryData : list string) : string :=
  "// " ++ categoryName ++ " component utilities" ++ nl
  ++ "." ++ categoryName ++ " {" ++ nl
  ++ "  // Base styles using tokens" ++ nl
  ++ concatMap
       (fun variable =>
          match declaredName variable with
          | Some tokenName => propertyLine tokenName tokenName
          | None => EmptyString
          end)
       (groupOrEmpty (namedGroup categoryData "base"))
  ++ "}" ++ nl ++ nl
  ++ concatMap (stateRule categoryName categoryData) states.

Definition mixinUtility (mixin : string) : string :=
  match mixinHeader mixin with
  | Some header =>
      let mixinName := trim header in
      "." ++ mixinName ++ " { @include " ++ mixinName ++ "; }" ++ nl
  | None => EmptyString
  end.

Definition generateBasicUtilities (categoryName : string) (vars mixs : list string)
  : string :=
  let utilities :=
    concatMap mixinUtility mixs
    ++ (if includes "color" categoryName || hasColorTokens vars
        then generateColorUtilities vars else EmptyString)
    ++ (if includes "spacing" categoryName || hasSpacingTokens vars
        then generateSpacingUtilities vars else EmptyString)
    ++ (if isComponentTokens vars
        then generateComponentUtilities categoryName vars else EmptyString) in
  if isEmpty utilities
  then "// No utilities generated for " ++ categoryName ++ nl
  else utilities.

(** *** Component and index documents *)

Definition safeName (categoryName : string) : string :=
  toLowerCase (slashesToHyphens categoryName).

Definition themeImport (categoryName : string) : string :=
  match themeOf categoryName with
  | Light => "@import '../base/light';" ++ nl ++ nl
  | Dark => "@import '../base/dark';" ++ nl ++ nl
  | Base => EmptyString
  end.

Definition categoryHeader (categoryName : string) (mixs : list string) : string :=
  "// " ++ capitalize categoryName ++ " Tokens" ++ nl
  ++ "// Automatically generated from Figma tokens" ++ nl
  ++ nl
  ++ "@import '../base/variables';" ++ nl
  ++ nl
  ++ themeImport categoryName
  ++ (match mixs with
      | [] => EmptyString
      | _ => "// Mixins" ++ nl ++ concatMap (fun mixin => mixin ++ nl ++ nl) mixs
      end)
  ++ "// Utility Classes" ++ nl.

(** The file [generateCategoryFile] writes *)
Definition generateCategoryFile (categoryName : string) (vars mixs : list string)
  : file :=
  ("components/_" ++ safeName categoryName ++ ".scss",
   categoryHeader categoryName mixs ++ generateBasicUtilities categoryName vars mixs).

(** The file [generateIndexFile] writes *)
Definition generateIndexFile (cats : list string) : file :=
  ("index.scss",
   "// Design Tokens - Main Index" ++ nl
   ++ "// Automatically generated from Figma tokens" ++ nl
   ++ nl
   ++ "// Base files" ++ nl
   ++ "@import 'base/variables';" ++ nl
   ++ "@import 'base/light';" ++ nl
   ++ "@import 'base/dark';" ++ nl
   ++ nl
   ++ "// Component files" ++ nl
   ++ concatMap
        (fun category => "@import 'components/" ++ safeName category ++ "';" ++ nl)
        cats
   ++ nl
   ++ "// Theme Usage:" ++ nl
   ++ "// Add class=" ++ String dquote "dark" ++ String dquote
        " to your <html> or <body> element for dark theme" ++ nl
   ++ "// Light theme is the default (applies to :root)" ++ nl
   ++ "// Example: <body class=" ++ String dquote "dark" ++ String dquote ">" ++ nl
   ++ "// " ++ nl
   ++ "// For Tailwind CSS compatibility:" ++ nl
   ++ "// This works seamlessly with Tailwind's dark mode class strategy" ++ nl).

(** *** The whole run *)

Definition skippedCategory (categoryName : string) : bool :=
  startsWith "$" categoryName || startsWith "_" categoryName.

(** The first loop of [generateSCSS] *)
Fixpoint flattenDocument (es : list (string * json)) (cats : categories)
  : result categories :=
  match es with
  | [] => Ok cats
  | (categoryName, categoryTokens) :: rest =>
      if skippedCategory categoryName then flattenDocument rest cats
      else
        cats' <- flattenTokens categoryTokens categoryName cats EmptyString ;;
        flattenDocument rest cats'
  end.

Definition collectCategories (tokens : json) : result categories :=
  es <- entries tokens ;;
  flattenDocument es [].

Definition emitFiles (cats : categories) : list file :=
  generateBaseFile cats
  ++ map (fun kc => generateCategoryFile (fst kc) (variables (snd kc)) (mixins (snd kc)))
       cats
  ++ [generateIndexFile (JsObj.keys cats)].

(** The files written by [generateSCSS] on the loaded document [tokens], in
    the order of the writes, relative to the output directory. *)
Definition generateSCSS (tokens : json) : result (list file) :=
  cats <- collectCategories tokens ;;
  Ok (emitFiles cats).

(* ===================================================================== *)
(** ** The vocabulary of the properties *)
(* ===================================================================== *)

(** *** Texts *)

(** [s] has the text [p] somewhere, at its start, and a character of the
    class [q] somewhere. *)
Definition contains (p s : string) : Prop := exists a b, s = a ++ p ++ b.
Definition beginsWith (p s : string) : Prop := exists r, s = p ++ r.
Definition hasChar (q : ascii -> bool) (s : string) : Prop :=
  exists a c b, s = a ++ String c b /\ q c = true.

Definition notClose (c : ascii) : bool := negb (Ascii.eqb c closeBrace).
Definition notOpen (c : ascii) : bool := negb (Ascii.eqb c openBrace).
Definition notLf (c : ascii) : bool := negb (Ascii.eqb c lf).

(** [s] has a placeholder: an opening brace, a non-empty text without a
    closing brace, a closing brace. *)
Definition hasPlaceholder (s : string) : Prop :=
  exists a inner b,
    s = a ++ "{" ++ inner ++ "}" ++ b
    /\ inner <> EmptyString /\ allChars notClose inner = true.

(** The test for a placeholder: an opening brace whose text up to the next
    closing brace is not empty. *)
Fixpoint hasPlaceholderb (s : string) : bool :=
  match s with
  | EmptyString => false
  | String c s' =>
      (Ascii.eqb c openBrace
       && match untilClose s' with
          | Some (String _ _, _) => true
          | _ => false
          end)
      || hasPlaceholderb s'
  end.

(** The condition under which the resolver wraps the text in [calc(...)],
    as the specification words it. *)
Definition wantsCalc (s : string) : Prop :=
  hasChar isMathChar s /\ contains "var(--" s /\ ~ beginsWith "calc(" s.

(** The line-wise action of the fix-up *)
Definition fixLine (line : string) : string :=
  if keptLine line then line else replaceReferences line.

(** A document through which the fix-up has gone: no line that the fix-up
    processes has a placeholder left. *)
Definition sweptDocument (content : string) : Prop :=
  forall line,
    In line (split lf content) -> keptLine line = false -> ~ hasPlaceholder line.

(** The names inside the [var(--name)] calls of a text *)
Fixpoint varReferences (s : string) : list string :=
  match s with
  | EmptyString => []
  | String _ s' =>
      (if startsWith "var(--" s
       then [takeWhile (fun c => negb (Ascii.eqb c ")")) (drop 6 s)]
       else [])
      ++ varReferences s'
  end.

(** The names a document declares: on each line whose trimmed text starts
    with two hyphens, the text between them and the first colon. *)
Definition declaredNames (document : string) : list string :=
  flat_map
    (fun line =>
       let text := trim line in
       if startsWith "--" text
       then match untilColon (drop 2 text) with
            | Some (name, _) => [name]
            | None => []
            end
       else [])
    (split lf document).

(** *** Categories *)

(** Every key of the categories satisfies [P]. *)
Definition keysAll (P : string -> Prop) (c : categories) : Prop :=
  forall k, In k (JsObj.keys c) -> P k.

(** The declaration lines and the mixins recorded under [k]; none when
    there is no such category. *)
Definition varsOf (k : string) (c : categories) : list string :=
  match JsObj.get k c with Some x => variables x | None => [] end.

Definition mixinsOf (k : string) (c : categories) : list string :=
  match JsObj.get k c with Some x => mixins x | None => [] end.

(** The declarations of a category only grow. *)
Definition grows (c c' : categories) : Prop :=
  forall k line, In line (varsOf k c) -> In line (varsOf k c').

(** The category [key] needs no creation. *)
Definition settledAt (key : string) (c : categories) : bool :=
  inheritedKey key || JsObj.has key c.

(** The outcome of a call followed by [ensureCategory]. *)
Definition thenEnsure (key : string) (r : result categories) : result categories :=
  match r with
  | Ok c => Ok (ensureCategory key c)
  | Throw => Throw
  end.

(** The bucket of a theme in a partition. *)
Definition bucketOf (t : theme) (p : partition) : bucket :=
  match t with
  | Light => lightTokens p
  | Dark => darkTokens p
  | Base => baseTokens p
  end.

Definition sameTheme (a b : theme) : bool :=
  match a, b with
  | Light, Light | Dark, Dark | Base, Base => true
  | _, _ => false
  end.

(** The top-level entries of a document that [generateSCSS] looks at. *)
Definition keptCategories (es : list (string * json)) : list (string * json) :=
  filter (fun kv => negb (skippedCategory (fst kv))) es.

(** The path of the component document of a category name. *)
Definition componentPath (categoryName : string) : string :=
  "components/_" ++ safeName categoryName ++ ".scss".

(** *** Leaf tokens in the tree *)

(** [leafAt value es ks]: [value] is the leaf token reached from the entries
    [es] of a category through the keys [ks]; every key is one the loop
    keeps, and every value on the way down is a group the loop descends
    into. *)
Inductive leafAt (value : json) : list (string * json) -> list string -> Prop :=
| leafHere (es : list (string * json)) (key : string) :
    In (key, value) es -> skippedKey key = false -> isLeafToken value = true ->
    leafAt value es [key]
| leafBelow (es sub : list (string * json)) (key : string) (ks : list string) :
    In (key, JObj sub) es -> skippedKey key = false ->
    isLeafToken (JObj sub) = false ->
    leafAt value sub ks ->
    leafAt value es (key :: ks).

(** The name the loop has built when it arrives at the end of [ks]. *)
Definition pathName (prefix : string) (ks : list string) : string :=
  fold_left childPath ks prefix.

Fixpoint dropEmptyLeading (segments : list string) : list string :=
  match segments with
  | [] => []
  | seg :: rest => if isEmpty seg then dropEmptyLeading rest else segments
  end.

(** The normalized segments joined by a hyphen, the leading segments that
    normalize to nothing left out. *)
Definition joinedSegments (ks : list string) : string :=
  join "-" (dropEmptyLeading (map normalizeTokenName ks)).

(** *** Sample documents *)

Definition colorLeaf (value : string) : json :=
  JObj [("type", JStr "color"); ("value", JStr value)].

(** A typography token that refers to another token *)
Definition headingLeaf : json :=
  JObj [("type", JStr "typography");
        ("value", JObj [("fontFamily", JStr "{font.family}");
                        ("fontSize", JNum "16")])].

(** The typography token of the specification *)
Definition headingLargeLeaf : json :=
  JObj [("type", JStr "typography");
        ("value", JObj [("fontFamily", JStr "Arial"); ("fontSize", JNum "16");
                        ("fontWeight", JNum "700"); ("lineHeight", JNum "1.5");
                        ("letterSpacing", JNum "2")])].

(** A category whose name has both theme words *)
Definition bothThemesDoc : json :=
  JObj [("Dark on Light", JObj [("surface", colorLeaf "#101010")])].

(** A document with a private and a metadata category *)
Definition privateEntries : list (string * json) :=
  [("_draft", JObj [("accent", colorLeaf "#ff0000")]);
   ("$themes", JArr []);
   ("palette", JObj [("accent", colorLeaf "#00ff00")])].

(** A leaf token with a null resolved value and a sibling *)
Definition nullLeaf : json := JObj [("type", JStr "color"); ("value", JNull)].

Definition nullLeafEntries : list (string * json) :=
  [("ghost", nullLeaf); ("accent", colorLeaf "#ff0000")].

(** A token two groups below its category *)
Definition nestedEntries : list (string * json) :=
  [("Brand", JObj [("primaryColor", colorLeaf "#336699")])].

(** A document with a typography token that refers to another token *)
Definition typographyDoc : json :=
  JObj [("Type", JObj [("heading", headingLeaf)])].

(** A component category with a hover variant *)
Definition buttonDoc : json :=
  JObj [("button", JObj [("background", colorLeaf "#ffffff");
                         ("background-hover", colorLeaf "#eeeeee")])].

(** A light-theme category whose token name ends with the theme suffix *)
Definition suffixDoc : json :=
  JObj [("Light", JObj [("color-light", colorLeaf "#ffffff")])].

(** A category whose name has braces *)
Definition bracesDoc : json :=
  JObj [("x{y}", JObj [("accent", colorLeaf "#ff0000")])].

(** *** Further vocabulary *)

Definition endsWith (p s : string) : Prop := exists r, s = r ++ p.

Definition notDot (c : ascii) : bool := negb (Ascii.eqb c dot).
Definition notColon (c : ascii) : bool := negb (Ascii.eqb c colon).

(** A name as the normalizer returns it: over [[a-z0-9-]], no hyphen at
    either end. *)
Definition normalName (s : string) : Prop :=
  allChars isNameChar s = true /\ ~ beginsWith "-" s /\ ~ endsWith "-" s.

(** The value [convertValue] ends up converting: the one at the end of the
    chain of [value] properties. *)
Fixpoint innermostValue (v : json) : json :=
  match v with
  | JObj es =>
      match assocWith innermostValue "value" es with
      | Some inner => inner
      | None => v
      end
  | _ => v
  end.

(** The properties of a typography mapping, in their order *)
Definition typographyProperties : list string :=
  ["font-family"; "font-size"; "font-weight"; "line-height"; "letter-spacing"].

(** [x] is the value of a property of [w]. *)
Definition fieldOf (x w : json) : Prop := exists name, prop name w = Some x.

(** Somewhere inside [v], through arrays, an object has a property
    [toString] of its own. *)
Fixpoint ownsToString (v : json) : bool :=
  match v with
  | JArr l => existsb ownsToString l
  | JObj es => match assoc "toString" es with Some _ => true | None => false end
  | _ => false
  end.

(** The properties of a mapping with the texts of their values *)
Definition propertyTexts (props : list (string * json))
  : result (list (string * string)) :=
  mapM (fun pv => text <- toStr (snd pv) ;; Ok (fst pv, text)) props.

(** The categories [c'] hold what [c] holds, in the same order, and maybe
    more behind it. *)
Definition extends (c c' : categories) : Prop :=
  forall k,
    (exists vs, varsOf k c' = (varsOf k c ++ vs)%list)
    /\ (exists ms, mixinsOf k c' = (mixinsOf k c ++ ms)%list).

(** The shape of a recorded declaration and of a recorded mixin *)
Definition declarationShape (line : string) : Prop :=
  exists body, line = "--" ++ body ++ ";".

Definition mixinShape (mixin : string) : Prop :=
  exists body, mixin = "@mixin " ++ body ++ "}".

Definition wellShaped (c : categories) : Prop :=
  forall k, Forall declarationShape (varsOf k c) /\ Forall mixinShape (mixinsOf k c).

(** From [c] to [c'] every category got well-shaped declarations and
    mixins appended, and nothing else happened to it. *)
Definition addsShaped (c c' : categories) : Prop :=
  forall k,
    exists vs ms,
      varsOf k c' = (varsOf k c ++ vs)%list
      /\ mixinsOf k c' = (mixinsOf k c ++ ms)%list
      /\ Forall declarationShape vs /\ Forall mixinShape ms.

(** The import line of the index for a theme document *)
Definition themeImportLine (themeName : string) : string :=
  "@import 'base/" ++ themeName ++ "';".

(** A text on one line *)
Definition singleLine (s : string) : Prop := allChars notLf s = true.

(** A bucket of one-line data: every key is on one line, and every
    declaration is on one line and starts with two hyphens. *)
Definition singleLineBucket (cats : bucket) : Prop :=
  Forall
    (fun kv =>
       singleLine (fst kv)
       /\ Forall (fun v => beginsWith "--" v /\ singleLine v) (snd kv))
    cats.

(** The declarations of the bucket whose name is the theme word itself *)
Definition namedAfterTheme (v : string) : Prop :=
  beginsWith "--light:" v \/ beginsWith "--dark:" v.

Definition noThemeNamed (cats : bucket) : Prop :=
  Forall (fun kv => Forall (fun v => ~ namedAfterTheme v) (snd kv)) cats.

(* ===================================================================== *)
(** * Properties *)
(* ===================================================================== *)

Unset Implicit Arguments.

(** ** The definitions at work *)

Example normalizeTokenName_camel :
  normalizeTokenName "fontSize" = "font--size".
Proof. reflexivity. Qed.

Example normalizeTokenName_spaces :
  normalizeTokenName "  Brand   Blue 500 " = "brand--blue-500".
Proof. reflexivity. Qed.

Example replaceReferences_ex :
  replaceReferences "a {x.yZ} b {} {c" = "a var(--x-y--z) b {} {c".
Proof. reflexivity. Qed.

Example processStringReferences_plain :
  processStringReferences "#ff00aa" None = "#ff00aa".
Proof. reflexivity. Qed.

Example convertValue_dimension :
  convertValue (JNum "8") (Some (JStr "dimension")) = Ok (JStr "8px").
Proof. reflexivity. Qed.

Example convertValue_shadow :
  convertValue (JObj [("x", JNum "0"); ("y", JNum "4"); ("blur", JNum "8");
                      ("color", JStr "#0003"); ("type", JStr "innerShadow")])
               (Some (JStr "boxShadow"))
  = Ok (JStr "inset 0px 4px 8px 0px #0003").
Proof. reflexivity. Qed.

Example convertValue_nested :
  convertValue (JObj [("value", JNum "2"); ("type", JStr "spacing")]) None
  = Ok (JStr "2px").
Proof. reflexivity. Qed.

(** The text of a value: an array joins its elements, an object answers
    with its class, and an object with a property [toString] of its own
    has no text. *)
Example toStr_array :
  toStr (JArr [JNum "1"; JNull; JArr [JStr "a"; JBool true]; JObj []])
  = Ok "1,,a,true,[object Object]".
Proof. reflexivity. Qed.

Example toStr_own_toString :
  toStr (JArr [JNum "1"; JObj [("toString", JNum "1")]]) = Throw.
Proof. reflexivity. Qed.

Example convertValue_border_throws :
  convertValue (JObj [("width", JObj [("toString", JNum "1")])])
               (Some (JStr "border"))
  = Throw.
Proof. reflexivity. Qed.

Example convertValue_null_shadow_throws :
  convertValue (JArr [JNull]) (Some (JStr "boxShadow")) = Throw.
Proof. reflexivity. Qed.

(** A typography token with a property that has no text, and one whose
    value converts to [null] *)
Example flattenValue_typography_throws :
  flattenValue "Type"
    (JObj [("type", JStr "typography");
           ("value", JObj [("fontFamily", JObj [("toString", JNum "1")])])])
    "heading" []
  = Throw
  /\ flattenValue "Type"
       (JObj [("type", JStr "typography");
              ("value", JObj [("value", JNull)])])
       "heading" []
     = Throw.
Proof. split; reflexivity. Qed.

Example stripThemeSuffix_ex :
  stripThemeSuffix "--brand-dark: #000;" = "--brand: #000;".
Proof. reflexivity. Qed.

Example removeThemeWords_ex :
  capitalize (trim (removeThemeWords "color LIGHT")) = "Color".
Proof. reflexivity. Qed.

(** The typography token of the specification at the path heading-large *)
Example flattenValue_heading_large :
  flattenValue "Typography" headingLargeLeaf "heading-large" []
  = Ok [("typography",
         mkCategory
           ["--heading-large-family: Arial;"; "--heading-large-size: 16px;";
            "--heading-large-weight: 700;"; "--heading-large-line-height: 1.5;";
            "--heading-large-letter-spacing: 2px;"]
           ["@mixin heading-large {" ++ nl
            ++ "  font-family: Arial;" ++ nl
            ++ "  font-size: 16px;" ++ nl
            ++ "  font-weight: 700;" ++ nl
            ++ "  line-height: 1.5;" ++ nl
            ++ "  letter-spacing: 2px;" ++ nl
            ++ "}"])].
Proof. reflexivity. Qed.

(** A dimension token with the value 8 at the path spacing-sm *)
Example flattenTokens_dimension :
  flattenTokens
    (JObj [("spacing", JObj [("sm", JObj [("type", JStr "dimension");
                                          ("value", JNum "8")])])])
    "Sizes" [] EmptyString
  = Ok [("sizes", mkCategory ["--spacing-sm: 8px;"] [])].
Proof. reflexivity. Qed.

(** Array indices come first among the keys of the categories. *)
Example collectCategories_key_order :
  match collectCategories
          (JObj [("10", JObj [("a", colorLeaf "#fff")]);
                 ("b", JObj [("a", colorLeaf "#fff")]);
                 ("2", JObj [("a", colorLeaf "#fff")])]) with
  | Ok cats => JsObj.keys cats
  | Throw => []
  end
  = ["2"; "10"; "b"].
Proof. reflexivity. Qed.

(** A category named after an inherited member of the categories object
    makes the push throw. *)
Example collectCategories_inherited :
  collectCategories (JObj [("constructor", JObj [("a", colorLeaf "#fff")])]) = Throw.
Proof. reflexivity. Qed.

(** ** Character classes and strings *)

Ltac bool_to_prop :=
  repeat match goal with
    | H : _ && _ = true |- _ => apply andb_prop in H; destruct H
    | H : _ || _ = true |- _ => apply orb_prop in H; destruct H
    | H : _ || _ = false |- _ => apply orb_false_elim in H; destruct H
    | H : negb _ = true |- _ => apply negb_true_iff in H
    | H : negb _ = false |- _ => apply negb_false_iff in H
    | H : Nat.leb _ _ = true |- _ => apply Nat.leb_le in H
    | H : Nat.leb _ _ = false |- _ => apply Nat.leb_gt in H
    | H : Nat.eqb _ _ = true |- _ => apply Nat.eqb_eq in H
    | H : Nat.eqb _ _ = false |- _ => apply Nat.eqb_neq in H
    | H : Ascii.eqb _ _ = true |- _ => apply Ascii.eqb_eq in H
    end.

Lemma isNameChar_code (c : ascii) :
  isNameChar c = true ->
  97 <= code c <= 122 \/ 48 <= code c <= 57 \/ code c = 45.
Proof.
  unfold isNameChar, isLower, isDigit, isHyphen, between; intros H.
  bool_to_prop; subst; auto.
Qed.

Lemma between_false (lo hi : nat) (c : ascii) :
  code c < lo \/ hi < code c -> between lo hi c = false.
Proof.
  unfold between; intros [H | H].
  - apply Nat.leb_gt in H; rewrite H; reflexivity.
  - apply Nat.leb_gt in H; rewrite H; apply andb_false_r.
Qed.

Lemma nameChar_not_upper (c : ascii) : isNameChar c = true -> isUpper c = false.
Proof.
  intros H; apply isNameChar_code in H.
  apply between_false; lia.
Qed.

Lemma nameChar_not_space (c : ascii) : isNameChar c = true -> isSpace c = false.
Proof.
  intros H; apply isNameChar_code in H.
  unfold isSpace; rewrite between_false by lia.
  apply Nat.eqb_neq; lia.
Qed.

Lemma nameChar_lower_fixed (c : ascii) : isNameChar c = true -> toLowerChar c = c.
Proof.
  intros H; unfold toLowerChar; rewrite (nameChar_not_upper _ H); reflexivity.
Qed.

Lemma mapChars_fixed (f : ascii -> ascii) (p : ascii -> bool) (s : string) :
  (forall c, p c = true -> f c = c) -> allChars p s = true -> mapChars f s = s.
Proof.
  intros Hf; induction s as [| c s IH]; simpl; intros H; [reflexivity |].
  bool_to_prop; rewrite Hf, IH; auto.
Qed.

Lemma allChars_dropLeading (p q : ascii -> bool) (s : string) :
  allChars p s = true -> allChars p (dropLeading q s) = true.
Proof.
  induction s as [| c s IH]; simpl; intros H; [reflexivity |].
  bool_to_prop; destruct (q c); simpl; auto using andb_true_intro.
Qed.

Lemma allChars_dropTrailing (p q : ascii -> bool) (s : string) :
  allChars p s = true -> allChars p (dropTrailing q s) = true.
Proof.
  induction s as [| c s IH]; simpl; intros H; [reflexivity |].
  bool_to_prop; destruct (q c && isEmpty (dropTrailing q s)); simpl; auto.
  rewrite IH; auto using andb_true_intro.
Qed.

Lemma dropTrailing_idem (p : ascii -> bool) (s : string) :
  dropTrailing p (dropTrailing p s) = dropTrailing p s.
Proof.
  induction s as [| c s IH]; simpl; [reflexivity |].
  destruct (p c && isEmpty (dropTrailing p s)) eqn:E; simpl; [reflexivity |].
  rewrite IH, E; reflexivity.
Qed.

(** A string that does not start with a [p] character keeps its first
    character when its trailing run is removed. *)
Lemma dropLeading_dropTrailing (p : ascii -> bool) (s : string) :
  dropLeading p (dropTrailing p (dropLeading p s)) = dropTrailing p (dropLeading p s).
Proof.
  induction s as [| c s IH]; simpl; [reflexivity |].
  destruct (p c) eqn:E; [exact IH |].
  simpl; rewrite E; simpl; rewrite E; reflexivity.
Qed.

Lemma trimHyphens_idem (s : string) : trimHyphens (trimHyphens s) = trimHyphens s.
Proof.
  unfold trimHyphens.
  rewrite dropLeading_dropTrailing; apply dropTrailing_idem.
Qed.

(** ** The normalizer on names that are already normal *)

Lemma stripInvalid_nameChars (s : string) :
  allChars isNameChar (stripInvalid s) = true.
Proof.
  induction s as [| c s IH]; simpl; [reflexivity |].
  destruct (isNameChar c) eqn:E; simpl; [rewrite E |]; auto.
Qed.

Lemma stripInvalid_fixed (s : string) :
  allChars isNameChar s = true -> stripInvalid s = s.
Proof.
  induction s as [| c s IH]; simpl; intros H; [reflexivity |].
  bool_to_prop; rewrite H, IH; auto.
Qed.

Lemma hyphenateUpper_fixed (s : string) :
  allChars isNameChar s = true -> hyphenateUpper s = s.
Proof.
  induction s as [| c s IH]; simpl; intros H; [reflexivity |].
  bool_to_prop; rewrite (nameChar_not_upper _ H), IH; auto.
Qed.

Lemma hyphenateSpaces_fixed (s : string) :
  allChars isNameChar s = true -> hyphenateSpaces s = s.
Proof.
  unfold hyphenateSpaces.
  induction s as [| c s IH]; simpl; intros H; [reflexivity |].
  bool_to_prop; rewrite (nameChar_not_space _ H), IH; auto.
Qed.

Lemma camelBoundaries_fixed (s : string) :
  allChars isNameChar s = true -> camelBoundaries s = s.
Proof.
  induction s as [| c s IH]; intros H; [reflexivity |].
  simpl in H; bool_to_prop.
  specialize (IH H0).
  destruct s as [| c2 rest]; [reflexivity |].
  simpl in H0; bool_to_prop.
  change (camelBoundaries (String c (String c2 rest)))
    with (if isLower c && isUpper c2
          then String c (String hyphen (String c2 (camelBoundaries rest)))
          else String c (camelBoundaries (String c2 rest))).
  rewrite (nameChar_not_upper _ H0), andb_false_r, IH; reflexivity.
Qed.

Lemma normalizeTokenName_nameChars (name : string) :
  allChars isNameChar (normalizeTokenName name) = true.
Proof.
  unfold normalizeTokenName, trimHyphens.
  set (y := stripInvalid _).
  assert (Hy : allChars isNameChar (dropTrailing isHyphen (dropLeading isHyphen y))
               = true)
    by (apply allChars_dropTrailing, allChars_dropLeading, stripInvalid_nameChars).
  unfold toLowerCase.
  rewrite (mapChars_fixed toLowerChar isNameChar _ nameChar_lower_fixed Hy).
  exact Hy.
Qed.

Lemma normalizeTokenName_trimmed (name : string) :
  normalizeTokenName name
  = trimHyphens
      (stripInvalid (hyphenateSpaces (hyphenateUpper (camelBoundaries name)))).
Proof.
  unfold normalizeTokenName, toLowerCase.
  apply (mapChars_fixed toLowerChar isNameChar _ nameChar_lower_fixed).
  apply allChars_dropTrailing, allChars_dropLeading, stripInvalid_nameChars.
Qed.

(** C6. The name normalizer is idempotent: normalising a normalised name
    gives the same name, for every input string. *)
Theorem normalizeTokenName_idempotent (x : string) :
  normalizeTokenName (normalizeTokenName x) = normalizeTokenName x.
Proof.
  pose proof (normalizeTokenName_nameChars x) as Hn.
  rewrite (normalizeTokenName_trimmed (normalizeTokenName x)).
  rewrite camelBoundaries_fixed, hyphenateUpper_fixed, hyphenateSpaces_fixed,
    stripInvalid_fixed by assumption.
  rewrite (normalizeTokenName_trimmed x).
  apply trimHyphens_idem.
Qed.

(** ** String tests against their meaning *)

Lemma startsWith_spec (p s : string) :
  startsWith p s = true <-> beginsWith p s.
Proof.
  unfold beginsWith; revert s; induction p as [| a p IH]; intros s; simpl.
  - split; [intros _; exists s; reflexivity | reflexivity].
  - destruct s as [| b s].
    + split; [discriminate | intros [r H]; discriminate].
    + split.
      * intros H; bool_to_prop; subst b.
        apply IH in H0; destruct H0 as [r ->]; exists r; reflexivity.
      * intros [r H]; injection H as -> ->.
        rewrite Ascii.eqb_refl; apply IH; exists r; reflexivity.
Qed.

Lemma includes_spec (p s : string) :
  includes p s = true <-> contains p s.
Proof.
  unfold contains; induction s as [| c s IH].
  - simpl; rewrite orb_false_r, startsWith_spec; split.
    + intros [r H]; exists EmptyString, r; exact H.
    + intros [a [b H]]; destruct a; [exists b; exact H | discriminate].
  - simpl; rewrite orb_true_iff, startsWith_spec, IH; split.
    + intros [[r H] | [a [b H]]].
      * exists EmptyString, r; exact H.
      * exists (String c a), b; simpl; rewrite H; reflexivity.
    + intros [a [b H]]; destruct a as [| c' a].
      * left; exists b; exact H.
      * right; injection H as -> ->; exists a, b; reflexivity.
Qed.

Lemma anyChar_spec (q : ascii -> bool) (s : string) :
  anyChar q s = true <-> hasChar q s.
Proof.
  unfold hasChar; induction s as [| c s IH]; simpl.
  - split; [discriminate | intros [a [c [b [H _]]]]; destruct a; discriminate].
  - rewrite orb_true_iff, IH; split.
    + intros [H | [a [c' [b [H Hq]]]]].
      * exists EmptyString, c, s; auto.
      * exists (String c a), c', b; simpl; rewrite H; auto.
    + intros [a [c' [b [H Hq]]]]; destruct a as [| c0 a].
      * injection H as -> ->; auto.
      * injection H as -> ->; right; exists a, c', b; auto.
Qed.

Lemma anyChar_app (q : ascii -> bool) (a b : string) :
  anyChar q (a ++ b) = anyChar q a || anyChar q b.
Proof.
  induction a as [| c a IH]; simpl; [reflexivity |].
  rewrite IH; apply orb_assoc.
Qed.

Lemma includes_anyChar (q : ascii -> bool) (p s : string) :
  includes p s = true -> anyChar q p = true -> anyChar q s = true.
Proof.
  rewrite includes_spec; intros [a [b ->]] Hp.
  rewrite !anyChar_app, Hp; apply orb_true_r.
Qed.

Lemma needsCalc_spec (s : string) (type : option json) :
  needsCalc s type = true <-> wantsCalc s.
Proof.
  unfold needsCalc, wantsCalc.
  rewrite <- anyChar_spec, <- includes_spec, <- startsWith_spec.
  destruct (anyChar isMathChar s), (includes "var(--" s), (startsWith "calc(" s);
    simpl; intuition congruence.
Qed.

(** ** The reference rewrite *)

Lemma replaceReferences_other (c : ascii) (s : string) :
  Ascii.eqb c openBrace = false ->
  replaceReferences (String c s) = String c (replaceReferences s).
Proof. unfold replaceReferences; simpl; intros ->; reflexivity. Qed.

(** What the rewrite does at an opening brace: a [var(--...)] call or the
    brace itself. *)
Lemma replaceReferences_open (s : string) :
  (exists r, replaceReferences (String openBrace s) = "var(--" ++ r)
  \/ replaceReferences (String openBrace s) = String openBrace (replaceReferences s).
Proof.
  unfold replaceReferences; simpl.
  destruct (untilClose s) as [[[| i inner] after] |]; auto.
  left; unfold referenceToVar; simpl; eauto.
Qed.

Lemma untilClose_inner (inner b : string) :
  allChars notClose inner = true ->
  untilClose (inner ++ String "}" b) = Some (inner, b).
Proof.
  induction inner as [| c inner IH]; simpl; intros H; [reflexivity |].
  unfold notClose in H; bool_to_prop; rewrite H, IH; auto.
Qed.

Lemma includes_cons (p : string) (c : ascii) (s : string) :
  includes p s = true -> includes p (String c s) = true.
Proof. intros H; simpl; rewrite H; apply orb_true_r. Qed.

Lemma replaceReferences_var (s : string) :
  hasPlaceholder s -> includes "var(--" (replaceReferences s) = true.
Proof.
  intros [a [inner [b [-> [Hne Hin]]]]].
  induction a as [| c a IH].
  - simpl; unfold replaceReferences; simpl.
    rewrite (untilClose_inner _ b Hin).
    destruct inner as [| i inner]; [congruence |]; reflexivity.
  - change (String c a ++ "{" ++ inner ++ "}" ++ b)
      with (String c (a ++ "{" ++ inner ++ "}" ++ b)).
    set (rest := a ++ "{" ++ inner ++ "}" ++ b) in *.
    destruct (Ascii.eqb c openBrace) eqn:E.
    + apply Ascii.eqb_eq in E; subst c.
      destruct (replaceReferences_open rest) as [[r ->] | ->];
        [reflexivity | apply includes_cons, IH].
    + rewrite replaceReferences_other by assumption.
      apply includes_cons, IH.
Qed.

(** A prefix test that mentions neither an opening brace nor the letter of
    [var] sees the same before and after the rewrite. *)
Lemma startsWith_replaceReferences (p s : string) :
  anyChar (fun c => Ascii.eqb c openBrace || Ascii.eqb c "v") p = false ->
  startsWith p (replaceReferences s) = startsWith p s.
Proof.
  revert s; induction p as [| a p IH]; intros s H; [reflexivity |].
  simpl in H; bool_to_prop.
  destruct s as [| c s]; [reflexivity |].
  destruct (Ascii.eqb c openBrace) eqn:E.
  - bool_to_prop; subst c; simpl; rewrite H.
    destruct (replaceReferences_open s) as [[r ->] | ->]; simpl.
    + rewrite H1; reflexivity.
    + rewrite H; reflexivity.
  - rewrite replaceReferences_other by assumption; simpl.
    rewrite IH by assumption; reflexivity.
Qed.

(** C5. The string token value "{spacing.sm} + 4" converts, whatever the
    type, to exactly "calc(var(--spacing-sm) + 4)"; and in general the
    resolver returns the text after placeholder substitution wrapped in
    calc(...) when that text contains one of + - * / and a var(-- call and
    does not begin with calc(, and returns it unwrapped otherwise. *)
Theorem calc_wrapping :
  (forall type : option json,
      convertValue (JStr "{spacing.sm} + 4") type
      = Ok (JStr "calc(var(--spacing-sm) + 4)"))
  /\ (forall (str : string) (type : option json),
         let substituted := replaceReferences str in
         (wantsCalc substituted
          /\ processStringReferences str type = "calc(" ++ substituted ++ ")")
         \/ (~ wantsCalc substituted
             /\ processStringReferences str type = substituted)).
Proof.
  split; [reflexivity |].
  intros str type substituted.
  unfold processStringReferences; fold substituted.
  destruct (needsCalc substituted type) eqn:E.
  - left; split; [apply (needsCalc_spec substituted type) |]; auto.
  - right; split; [| reflexivity].
    intros H; apply (needsCalc_spec substituted type) in H; congruence.
Qed.

(** C9. Every string with at least one {path} placeholder that does not
    start with calc( is returned by the resolver wrapped in calc(...),
    because the substituted var(--name) text brings a hyphen; when the
    string has no var(-- of its own, the value converter returns that very
    text.  So "{spacing.sm}" alone resolves to "calc(var(--spacing-sm))". *)
Theorem placeholder_forces_calc (str : string) (type : option json) :
  hasPlaceholder str ->
  ~ beginsWith "calc(" str ->
  processStringReferences str type = "calc(" ++ replaceReferences str ++ ")"
  /\ (~ contains "var(--" str ->
      convertValue (JStr str) type
      = Ok (JStr ("calc(" ++ replaceReferences str ++ ")"))).
Proof.
  intros Hp Hc.
  assert (E : processStringReferences str type
              = "calc(" ++ replaceReferences str ++ ")").
  { unfold processStringReferences, needsCalc.
    pose proof (replaceReferences_var _ Hp) as Hv.
    rewrite Hv, (includes_anyChar isMathChar _ _ Hv eq_refl).
    rewrite startsWith_replaceReferences by reflexivity.
    destruct (startsWith "calc(" str) eqn:Es; [| reflexivity].
    exfalso; apply Hc, startsWith_spec, Es. }
  split; [exact E |].
  intros Hv; simpl.
  destruct (includes "var(--" str) eqn:Ei.
  - exfalso; apply Hv, includes_spec, Ei.
  - rewrite E; reflexivity.
Qed.

Lemma placeholder_forces_calc_witness :
  processStringReferences "{spacing.sm}" None = "calc(var(--spacing-sm))"
  /\ convertValue (JStr "{spacing.sm}") None = Ok (JStr "calc(var(--spacing-sm))").
Proof.
  assert (Hp : hasPlaceholder "{spacing.sm}").
  { exists EmptyString, "spacing.sm", EmptyString.
    split; [reflexivity | split; [discriminate | reflexivity]]. }
  assert (Hc : ~ beginsWith "calc(" "{spacing.sm}")
    by (intros [r H]; discriminate).
  assert (Hv : ~ contains "var(--" "{spacing.sm}").
  { intros H; apply includes_spec in H; discriminate. }
  destruct (placeholder_forces_calc _ None Hp Hc) as [H1 H2].
  split; [exact H1 | exact (H2 Hv)].
Defined.

(** ** Objects as ordered maps *)

Section ObjFacts.
Context {A : Type}.
Implicit Types (o : list (string * A)) (k : string) (v : A).

Lemma get_None_keys k o : JsObj.get k o = None <-> ~ In k (JsObj.keys o).
Proof.
  unfold JsObj.get, JsObj.keys; induction o as [| [k' v'] o IH]; simpl.
  - tauto.
  - destruct (String.eqb_spec k' k) as [-> | Hne].
    + split; [discriminate | tauto].
    + rewrite IH; tauto.
Qed.

Lemma has_keys k o : JsObj.has k o = true <-> In k (JsObj.keys o).
Proof.
  unfold JsObj.has; pose proof (get_None_keys k o) as H.
  destruct (JsObj.get k o).
  - split; [intros _ | reflexivity].
    destruct (in_dec string_dec k (JsObj.keys o)) as [Hin | Hout]; [exact Hin |].
    apply H in Hout; discriminate.
  - split; [discriminate | intros Hin]; exfalso; apply H; auto.
Qed.

Lemma get_in k v o : NoDup (JsObj.keys o) -> In (k, v) o -> JsObj.get k o = Some v.
Proof.
  unfold JsObj.get, JsObj.keys; induction o as [| [k' v'] o IH]; simpl; [tauto |].
  intros Hnd [Heq | Hin].
  - injection Heq as -> ->; rewrite String.eqb_refl; reflexivity.
  - inversion Hnd as [| ? ? Hout Hnd']; subst.
    destruct (String.eqb_spec k' k) as [-> | Hne]; [| auto].
    exfalso; apply Hout; change k with (fst (k, v)); apply in_map; exact Hin.
Qed.

Lemma get_some_in k v o : JsObj.get k o = Some v -> In (k, v) o.
Proof.
  unfold JsObj.get; induction o as [| [k' v'] o IH]; simpl; [discriminate |].
  destruct (String.eqb_spec k' k) as [-> | Hne]; intros H.
  - injection H as ->; auto.
  - auto.
Qed.

Lemma keys_update k v o : JsObj.keys (JsObj.update k v o) = JsObj.keys o.
Proof.
  unfold JsObj.keys; induction o as [| [k' v'] o IH]; simpl; [reflexivity |].
  destruct (k' =? k); simpl; [| rewrite IH]; reflexivity.
Qed.

Lemma get_update_same k v o :
  JsObj.has k o = true -> JsObj.get k (JsObj.update k v o) = Some v.
Proof.
  unfold JsObj.has, JsObj.get; induction o as [| [k' v'] o IH]; simpl; [discriminate |].
  destruct (k' =? k) eqn:E; simpl; rewrite E; auto.
Qed.

Lemma get_update_other k k' v o :
  k' <> k -> JsObj.get k' (JsObj.update k v o) = JsObj.get k' o.
Proof.
  unfold JsObj.get; intros Hne; induction o as [| [k0 v0] o IH]; simpl; [reflexivity |].
  destruct (String.eqb_spec k0 k) as [-> | Hne0]; simpl.
  - destruct (String.eqb_spec k k'); congruence.
  - rewrite IH; reflexivity.
Qed.

Lemma in_keys_insertIndex n k k' v o :
  In k' (JsObj.keys (JsObj.insertIndex n k v o)) <-> k' = k \/ In k' (JsObj.keys o).
Proof.
  unfold JsObj.keys; induction o as [| [k0 v0] o IH]; simpl.
  - intuition congruence.
  - destruct (JsObj.arrayIndex k0) as [m |]; [destruct (N.ltb m n) |]; simpl;
      try rewrite IH; intuition congruence.
Qed.

Lemma NoDup_insertIndex n k v o :
  ~ In k (JsObj.keys o) -> NoDup (JsObj.keys o) ->
  NoDup (JsObj.keys (JsObj.insertIndex n k v o)).
Proof.
  induction o as [| [k0 v0] o IH]; simpl; intros Hout Hnd.
  - constructor; [tauto | constructor].
  - inversion Hnd as [| ? ? Hout0 Hnd0]; subst.
    assert (Hcons : NoDup (k :: k0 :: JsObj.keys o))
      by (constructor; [exact Hout | exact Hnd]).
    destruct (JsObj.arrayIndex k0) as [m |]; [destruct (N.ltb m n) |]; simpl; auto.
    constructor; [| apply IH; tauto].
    fold (JsObj.keys (JsObj.insertIndex n k v o)).
    rewrite in_keys_insertIndex; intuition congruence.
Qed.

Lemma get_insertIndex_same n k v o :
  ~ In k (JsObj.keys o) -> JsObj.get k (JsObj.insertIndex n k v o) = Some v.
Proof.
  unfold JsObj.get; induction o as [| [k0 v0] o IH]; simpl; intros Hout.
  - rewrite String.eqb_refl; reflexivity.
  - destruct (JsObj.arrayIndex k0) as [m |]; [destruct (N.ltb m n) |]; simpl;
      try (rewrite String.eqb_refl; reflexivity).
    destruct (String.eqb_spec k0 k) as [-> | Hne]; [tauto | apply IH; tauto].
Qed.

Lemma get_insertIndex_other n k k' v o :
  k' <> k -> JsObj.get k' (JsObj.insertIndex n k v o) = JsObj.get k' o.
Proof.
  unfold JsObj.get; intros Hne; induction o as [| [k0 v0] o IH]; simpl.
  - destruct (String.eqb_spec k k'); congruence.
  - destruct (JsObj.arrayIndex k0) as [m |]; [destruct (N.ltb m n) |]; simpl;
      try rewrite IH; try reflexivity;
      destruct (String.eqb_spec k k'); congruence.
Qed.

Lemma get_app_other k k' v o :
  k' <> k -> JsObj.get k' (o ++ [(k, v)]) = JsObj.get k' o.
Proof.
  unfold JsObj.get; intros Hne; induction o as [| [k0 v0] o IH]; simpl.
  - destruct (String.eqb_spec k k'); congruence.
  - rewrite IH; reflexivity.
Qed.

Lemma get_app_same k v o :
  ~ In k (JsObj.keys o) -> JsObj.get k (o ++ [(k, v)]) = Some v.
Proof.
  unfold JsObj.get; induction o as [| [k0 v0] o IH]; simpl; intros Hout.
  - rewrite String.eqb_refl; reflexivity.
  - destruct (String.eqb_spec k0 k) as [-> | Hne]; [tauto | apply IH; tauto].
Qed.

Lemma get_set_same k v o : JsObj.get k (JsObj.set k v o) = Some v.
Proof.
  unfold JsObj.set; destruct (JsObj.has k o) eqn:E.
  - apply get_update_same, E.
  - assert (Hout : ~ In k (JsObj.keys o))
      by (rewrite <- has_keys; congruence).
    destruct (JsObj.arrayIndex k);
      [apply get_insertIndex_same | apply get_app_same]; exact Hout.
Qed.

Lemma get_set_other k k' v o :
  k' <> k -> JsObj.get k' (JsObj.set k v o) = JsObj.get k' o.
Proof.
  intros Hne; unfold JsObj.set; destruct (JsObj.has k o).
  - apply get_update_other, Hne.
  - destruct (JsObj.arrayIndex k);
      [apply get_insertIndex_other | apply get_app_other]; exact Hne.
Qed.

Lemma in_keys_set k k' v o :
  In k' (JsObj.keys (JsObj.set k v o)) <-> k' = k \/ In k' (JsObj.keys o).
Proof.
  unfold JsObj.set; destruct (JsObj.has k o) eqn:E.
  - rewrite keys_update; apply has_keys in E.
    split; [auto | intros [-> | H]; auto].
  - destruct (JsObj.arrayIndex k); [apply in_keys_insertIndex |].
    unfold JsObj.keys; rewrite map_app, in_app_iff; simpl; intuition congruence.
Qed.

Lemma NoDup_set k v o :
  NoDup (JsObj.keys o) -> NoDup (JsObj.keys (JsObj.set k v o)).
Proof.
  intros Hnd; unfold JsObj.set; destruct (JsObj.has k o) eqn:E.
  - rewrite keys_update; exact Hnd.
  - assert (Hout : ~ In k (JsObj.keys o))
      by (rewrite <- has_keys; congruence).
    destruct (JsObj.arrayIndex k); [apply NoDup_insertIndex; assumption |].
    unfold JsObj.keys; rewrite map_app; simpl.
    apply NoDup_app; [exact Hnd | constructor; [tauto | constructor] |].
    intros x Hin [<- | []]; tauto.
Qed.
End ObjFacts.

(** ** What flattening preserves *)

Ltac bind_ok H :=
  match type of H with
  | bind ?r _ = Ok _ =>
      let E := fresh "E" in
      destruct r eqn:E; simpl in H; [| discriminate H]
  end.

Lemma flattenValue_eq (baseName : string) (value : json) (path : string)
  (c : categories) :
  flattenValue baseName value path c
  = if isLeafToken value then flattenLeaf value baseName c path
    else match value with
         | JObj es => flattenEntries (flattenValue baseName) es path c
         | _ => Ok c
         end.
Proof. destruct value; reflexivity. Qed.

(** A relation between the categories before and after a step that holds
    across [ensureCategory] and the two pushes holds across the flattening
    of any value under the category [baseName]. *)
Section FlattenRelation.
Variable baseName : string.
Variable R : categories -> categories -> Prop.
Hypothesis R_refl : forall c, R c c.
Hypothesis R_trans : forall a b c, R a b -> R b c -> R a c.
Hypothesis R_ensure : forall c, R c (ensureCategory (categoryKeyOf baseName) c).
Hypothesis R_pushVariable :
  forall line c c', pushVariable (categoryKeyOf baseName) line c = Ok c' -> R c c'.
Hypothesis R_pushMixin :
  forall mixin c c', pushMixin (categoryKeyOf baseName) mixin c = Ok c' -> R c c'.

Lemma pushTypographyVariables_rel (tokenName : string)
  (props : list (string * json)) :
  forall c c',
    pushTypographyVariables (categoryKeyOf baseName) tokenName props c = Ok c' ->
    R c c'.
Proof.
  induction props as [| [prop val] props IH]; simpl; intros c c' H.
  - injection H as ->; apply R_refl.
  - bind_ok H; bind_ok H; eauto.
Qed.

Lemma flattenLeaf_rel (value : json) (path : string) (c c' : categories) :
  flattenLeaf value baseName c path = Ok c' -> R c c'.
Proof.
  unfold flattenLeaf; intros H.
  apply R_trans with (1 := R_ensure c).
  set (c1 := ensureCategory _ c) in *.
  destruct (resolvedValue value) as [tokenValue |];
    [| injection H as <-; apply R_refl].
  assert (Hgo :
    (converted <- convertLeafValue tokenValue (resolvedType value) ;;
     if typographyMapping (resolvedType value) converted then
       props <- entries converted ;;
       body <- mixinBody props ;;
       cats <- pushMixin (categoryKeyOf baseName)
                 ("@mixin " ++ path ++ " {" ++ nl ++ body ++ "}") c1 ;;
       pushTypographyVariables (categoryKeyOf baseName) path props cats
     else
       text <- toStr converted ;;
       pushVariable (categoryKeyOf baseName) (declaration path text) c1)
    = Ok c' -> R c1 c').
  { clear H; intros H; bind_ok H.
    destruct (typographyMapping _ _).
    - bind_ok H; bind_ok H; bind_ok H.
      eapply R_trans; [eapply R_pushMixin | eapply pushTypographyVariables_rel];
        eauto.
    - bind_ok H; eapply R_pushVariable; eauto. }
  destruct tokenValue; auto.
  injection H as <-; apply R_refl.
Qed.

Lemma flattenEntries_rel (visit : json -> string -> categories -> result categories)
  (es : list (string * json)) :
  Forall (fun kv => forall path c c', visit (snd kv) path c = Ok c' -> R c c') es ->
  forall prefix c c', flattenEntries visit es prefix c = Ok c' -> R c c'.
Proof.
  induction 1 as [| [key value] rest Hv _ IH]; simpl; intros prefix c c' H.
  - injection H as ->; apply R_refl.
  - destruct (skippedKey key); [eauto |].
    bind_ok H; eauto.
Qed.

Lemma flattenValue_rel (value : json) :
  forall path c c', flattenValue baseName value path c = Ok c' -> R c c'.
Proof.
  induction value as [| b | r | s | items _ | es IH] using json_ind;
    intros path c c' H; rewrite flattenValue_eq in H;
    (destruct (isLeafToken _); [eapply flattenLeaf_rel; eauto |]);
    try (injection H as ->; apply R_refl).
  eapply flattenEntries_rel; eauto.
Qed.

Lemma flattenTokens_rel (obj : json) (prefix : string) (c c' : categories) :
  flattenTokens obj baseName c prefix = Ok c' -> R c c'.
Proof.
  unfold flattenTokens; intros H; bind_ok H.
  eapply flattenEntries_rel; [| exact H].
  apply Forall_forall; intros kv _ path; apply flattenValue_rel.
Qed.
End FlattenRelation.

(** ** The keys of the categories *)

Lemma pushVariable_keys (key line : string) (c c' : categories) :
  pushVariable key line c = Ok c' -> JsObj.keys c' = JsObj.keys c.
Proof.
  unfold pushVariable; destruct (JsObj.get key c); [| discriminate].
  intros H; injection H as <-; apply keys_update.
Qed.

Lemma pushMixin_keys (key mixin : string) (c c' : categories) :
  pushMixin key mixin c = Ok c' -> JsObj.keys c' = JsObj.keys c.
Proof.
  unfold pushMixin; destruct (JsObj.get key c); [| discriminate].
  intros H; injection H as <-; apply keys_update.
Qed.

Lemma ensureCategory_keys (key k : string) (c : categories) :
  In k (JsObj.keys (ensureCategory key c)) ->
  In k (JsObj.keys c) \/ (k = key /\ inheritedKey key = false).
Proof.
  unfold ensureCategory.
  destruct (inheritedKey key) eqn:Ei; simpl; [auto |].
  destruct (JsObj.has key c); [auto |].
  rewrite in_keys_set; tauto.
Qed.

Lemma ensureCategory_NoDup (key : string) (c : categories) :
  NoDup (JsObj.keys c) -> NoDup (JsObj.keys (ensureCategory key c)).
Proof.
  unfold ensureCategory; destruct (_ || _); [auto | apply NoDup_set].
Qed.

Lemma flattenTokens_keysAll (P : string -> Prop) (baseName : string) (obj : json)
  (prefix : string) (c c' : categories) :
  (inheritedKey (categoryKeyOf baseName) = false -> P (categoryKeyOf baseName)) ->
  flattenTokens obj baseName c prefix = Ok c' -> keysAll P c -> keysAll P c'.
Proof.
  intros HP.
  apply (flattenTokens_rel baseName (fun a b => keysAll P a -> keysAll P b)); auto.
  - intros a Ha k Hk; apply ensureCategory_keys in Hk.
    destruct Hk as [Hk | [-> Hi]]; auto.
  - intros line a b H Ha k Hk; rewrite (pushVariable_keys _ _ _ _ H) in Hk; auto.
  - intros mixin a b H Ha k Hk; rewrite (pushMixin_keys _ _ _ _ H) in Hk; auto.
Qed.

Lemma flattenTokens_NoDup (baseName : string) (obj : json) (prefix : string)
  (c c' : categories) :
  flattenTokens obj baseName c prefix = Ok c' ->
  NoDup (JsObj.keys c) -> NoDup (JsObj.keys c').
Proof.
  apply (flattenTokens_rel baseName
           (fun a b => NoDup (JsObj.keys a) -> NoDup (JsObj.keys b))); auto.
  - intros a; apply ensureCategory_NoDup.
  - intros line a b H; rewrite (pushVariable_keys _ _ _ _ H); auto.
  - intros mixin a b H; rewrite (pushMixin_keys _ _ _ _ H); auto.
Qed.

Lemma flattenDocument_keysAll (P : string -> Prop) (es : list (string * json)) :
  (forall name, skippedCategory name = false ->
                inheritedKey (categoryKeyOf name) = false -> P (categoryKeyOf name)) ->
  forall c c', flattenDocument es c = Ok c' -> keysAll P c -> keysAll P c'.
Proof.
  intros HP; induction es as [| [name tokens] es IH]; simpl; intros c c' H Hc.
  - injection H as <-; exact Hc.
  - destruct (skippedCategory name) eqn:Es; [eauto |].
    bind_ok H.
    eapply IH; [exact H |].
    eapply flattenTokens_keysAll; eauto.
Qed.

Lemma flattenDocument_NoDup (es : list (string * json)) :
  forall c c', flattenDocument es c = Ok c' ->
               NoDup (JsObj.keys c) -> NoDup (JsObj.keys c').
Proof.
  induction es as [| [name tokens] es IH]; simpl; intros c c' H Hc.
  - injection H as <-; exact Hc.
  - destruct (skippedCategory name); [eauto |].
    bind_ok H; eauto using flattenTokens_NoDup.
Qed.

Lemma skipped_char (c : ascii) :
  let c' := toLowerChar (if isSlash c then hyphen else c) in
  Ascii.eqb "$" c' = Ascii.eqb "$" c /\ Ascii.eqb "_" c' = Ascii.eqb "_" c.
Proof. destruct c as [[] [] [] [] [] [] [] []]; split; reflexivity. Qed.

Lemma skippedCategory_categoryKeyOf (name : string) :
  skippedCategory (categoryKeyOf name) = skippedCategory name.
Proof.
  destruct name as [| c rest]; [reflexivity |].
  unfold skippedCategory, categoryKeyOf, slashesToHyphens, toLowerCase.
  cbn [mapChars startsWith].
  destruct (skipped_char c) as [-> ->]; reflexivity.
Qed.

(** The categories collected from a document have pairwise different keys,
    none of them inherited from [Object.prototype], none of them starting
    with [$] or [_]. *)
Lemma collectCategories_keys (tokens : json) (cats : categories) :
  collectCategories tokens = Ok cats ->
  NoDup (JsObj.keys cats)
  /\ keysAll (fun k => inheritedKey k = false) cats
  /\ keysAll (fun k => skippedCategory k = false) cats.
Proof.
  unfold collectCategories; intros H; bind_ok H.
  assert (Hnil : forall P, keysAll P ([] : categories)) by (intros P k []).
  repeat split.
  - eapply flattenDocument_NoDup; [exact H | constructor].
  - eapply flattenDocument_keysAll; [| exact H | apply Hnil]; auto.
  - eapply flattenDocument_keysAll; [| exact H | apply Hnil].
    intros name Hs _; rewrite skippedCategory_categoryKeyOf; exact Hs.
Qed.

(** ** Theme partitioning *)

Lemma get_assign_other (k k' : string) (v : list string) (o : bucket) :
  k' <> k -> JsObj.get k' (assign k v o) = JsObj.get k' o.
Proof.
  intros Hne; unfold assign; destruct (k =? "__proto__"); [reflexivity |].
  apply get_set_other, Hne.
Qed.

Lemma get_assign_same (k : string) (v : list string) (o : bucket) :
  k <> "__proto__" -> JsObj.get k (assign k v o) = Some v.
Proof.
  intros Hne; unfold assign.
  destruct (String.eqb_spec k "__proto__"); [congruence | apply get_set_same].
Qed.

(** One round of the loop of [generateBaseFile], seen from the bucket [t]. *)
Lemma partitionInto_step (t : theme) (k : string) (c : category) (rest : categories)
  (p : partition) :
  exists p',
    partitionInto ((k, c) :: rest) p = partitionInto rest p'
    /\ bucketOf t p'
       = if sameTheme t (themeOf k) then assign k (variables c) (bucketOf t p)
         else bucketOf t p.
Proof.
  simpl; eexists; split; [reflexivity |].
  destruct (themeOf k), t; reflexivity.
Qed.

Lemma partitionInto_absent (t : theme) (name : string) (cats : categories) :
  forall p, ~ In name (JsObj.keys cats) ->
            JsObj.get name (bucketOf t (partitionInto cats p))
            = JsObj.get name (bucketOf t p).
Proof.
  induction cats as [| [k c] rest IH]; intros p Hout; [reflexivity |].
  destruct (partitionInto_step t k c rest p) as [p' [-> Hb]].
  simpl in Hout; rewrite IH, Hb by tauto.
  destruct (sameTheme t (themeOf k)); [| reflexivity].
  apply get_assign_other; intros ->; tauto.
Qed.

Lemma partitionInto_present (t : theme) (name : string) (c : category)
  (cats : categories) :
  forall p, NoDup (JsObj.keys cats) -> In (name, c) cats -> name <> "__proto__" ->
            JsObj.get name (bucketOf t (partitionInto cats p))
            = if sameTheme t (themeOf name) then Some (variables c)
              else JsObj.get name (bucketOf t p).
Proof.
  induction cats as [| [k c0] rest IH]; intros p Hnd Hin Hne; [destruct Hin |].
  inversion Hnd as [| ? ? Hout Hnd']; subst.
  destruct (partitionInto_step t k c0 rest p) as [p' [-> Hb]].
  destruct Hin as [Heq | Hin].
  - injection Heq as -> ->.
    rewrite partitionInto_absent, Hb by exact Hout.
    destruct (sameTheme t (themeOf name)); [apply get_assign_same, Hne | reflexivity].
  - rewrite IH, Hb by assumption.
    destruct (sameTheme t (themeOf name)); [reflexivity |].
    destruct (sameTheme t (themeOf k)); [| reflexivity].
    apply get_assign_other; intros ->; apply Hout.
    change k with (fst (k, c)); apply in_map, Hin.
Qed.

Lemma themeOf_spec (name : string) :
  let lower := toLowerCase name in
  (contains "light" lower -> themeOf name = Light)
  /\ (~ contains "light" lower -> contains "dark" lower -> themeOf name = Dark)
  /\ (~ contains "light" lower -> ~ contains "dark" lower -> themeOf name = Base).
Proof.
  unfold themeOf; simpl.
  rewrite <- !includes_spec.
  destruct (includes "light" (toLowerCase name)),
    (includes "dark" (toLowerCase name)); intuition congruence.
Qed.

(** C8. Theme partitioning routes each category by a substring test on its
    lower-cased name, trying "light" before "dark": a name with "light" (also
    one that has "dark" too) is in the light bucket only, a name with "dark"
    and no "light" in the dark bucket only, and a name with neither in the
    base bucket only; the bucket holds the variables of the category. *)
Theorem theme_routing (tokens : json) (cats : categories) (name : string)
  (c : category) :
  collectCategories tokens = Ok cats ->
  In (name, c) cats ->
  let p := partitionCategories cats in
  let lower := toLowerCase name in
  (contains "light" lower ->
     JsObj.get name (lightTokens p) = Some (variables c)
     /\ JsObj.get name (darkTokens p) = None
     /\ JsObj.get name (baseTokens p) = None)
  /\ (~ contains "light" lower -> contains "dark" lower ->
        JsObj.get name (darkTokens p) = Some (variables c)
        /\ JsObj.get name (lightTokens p) = None
        /\ JsObj.get name (baseTokens p) = None)
  /\ (~ contains "light" lower -> ~ contains "dark" lower ->
        JsObj.get name (baseTokens p) = Some (variables c)
        /\ JsObj.get name (lightTokens p) = None
        /\ JsObj.get name (darkTokens p) = None).
Proof.
  intros Hc Hin p lower.
  destruct (collectCategories_keys _ _ Hc) as [Hnd [Hinh _]].
  assert (Hne : name <> "__proto__").
  { intros ->.
    assert (H : inheritedKey "__proto__" = false)
      by (apply Hinh; change "__proto__" with (fst ("__proto__", c)); apply in_map, Hin).
    discriminate H. }
  assert (Hget : forall t,
             JsObj.get name (bucketOf t p)
             = if sameTheme t (themeOf name) then Some (variables c) else None).
  { intros t; unfold p, partitionCategories.
    rewrite (partitionInto_present t name c cats _ Hnd Hin Hne).
    destruct (sameTheme t (themeOf name)); [reflexivity | destruct t; reflexivity]. }
  destruct (themeOf_spec name) as [T1 [T2 T3]]; fold lower in T1, T2, T3.
  split; [| split].
  - intros H1; rewrite (T1 H1) in Hget.
    repeat split; [apply (Hget Light) | apply (Hget Dark) | apply (Hget Base)].
  - intros H1 H2; rewrite (T2 H1 H2) in Hget.
    repeat split; [apply (Hget Dark) | apply (Hget Light) | apply (Hget Base)].
  - intros H1 H2; rewrite (T3 H1 H2) in Hget.
    repeat split; [apply (Hget Base) | apply (Hget Light) | apply (Hget Dark)].
Qed.

Lemma theme_routing_witness :
  let p := partitionCategories
             [("dark on light", mkCategory ["--surface: #101010;"] [])] in
  JsObj.get "dark on light" (lightTokens p) = Some ["--surface: #101010;"]
  /\ JsObj.get "dark on light" (darkTokens p) = None
  /\ JsObj.get "dark on light" (baseTokens p) = None.
Proof.
  destruct (theme_routing bothThemesDoc
              [("dark on light", mkCategory ["--surface: #101010;"] [])]
              "dark on light" (mkCategory ["--surface: #101010;"] [])
              eq_refl (or_introl eq_refl)) as [H _].
  apply H, includes_spec; reflexivity.
Defined.

(** ** Skipped categories *)

Lemma flattenDocument_kept (es : list (string * json)) (c : categories) :
  flattenDocument (keptCategories es) c = flattenDocument es c.
Proof.
  revert c; induction es as [| [name tokens] es IH]; intros c; [reflexivity |].
  simpl; destruct (skippedCategory name) eqn:E; simpl; [apply IH |].
  rewrite E; destruct (flattenTokens tokens name c EmptyString); simpl; auto.
Qed.

Lemma append_inv_head (p a b : string) : p ++ a = p ++ b -> a = b.
Proof.
  induction p as [| c p IH]; simpl; intros H; [exact H |].
  injection H as H; auto.
Qed.

Lemma skipped_first_char (a b rest : string) :
  skippedCategory a = true -> skippedCategory b = false ->
  a ++ String "." rest <> b ++ String "." rest.
Proof.
  destruct a as [| c a]; [discriminate |].
  destruct b as [| c' b]; simpl; intros Ha Hb H; injection H as -> _;
    [discriminate Ha |].
  unfold skippedCategory in Ha, Hb; simpl in Ha, Hb; congruence.
Qed.

Lemma emitFiles_paths (cats : categories) (path : string) :
  In path (map fst (emitFiles cats)) ->
  path = "base/_variables.scss" \/ path = "base/_light.scss"
  \/ path = "base/_dark.scss" \/ path = "index.scss"
  \/ exists k, In k (JsObj.keys cats) /\ path = componentPath k.
Proof.
  unfold emitFiles, generateBaseFile.
  rewrite !map_app, !in_app_iff, map_map.
  intros [[H | [H | H]] | [H | H]].
  - destruct H as [<- | []]; auto.
  - destruct (lightTokens _); [destruct H | destruct H as [<- | []]]; auto.
  - destruct (darkTokens _); [destruct H | destruct H as [<- | []]]; auto.
  - apply in_map_iff in H; destruct H as [[k c] [<- Hin]].
    do 4 right; exists k; split; [| reflexivity].
    change k with (fst (k, c)); apply in_map, Hin.
  - destruct H as [<- | []]; auto.
Qed.

(** C10. The top-level categories whose names begin with "_" or with "$"
    are skipped entirely: the run writes the same files as on the document
    without them (none of their tokens is flattened), no component document
    is written under the name of one of them, and the index imports none of
    them. *)
Theorem skipped_categories (es : list (string * json)) :
  generateSCSS (JObj es) = generateSCSS (JObj (keptCategories es))
  /\ forall cats name,
       collectCategories (JObj es) = Ok cats ->
       skippedCategory name = true ->
       ~ In (safeName name) (map safeName (JsObj.keys cats))
       /\ ~ In (componentPath name) (map fst (emitFiles cats)).
Proof.
  split.
  - unfold generateSCSS, collectCategories; simpl.
    rewrite flattenDocument_kept; reflexivity.
  - intros cats name Hc Hs.
    destruct (collectCategories_keys _ _ Hc) as [_ [_ Hk]].
    assert (Hdiff : forall k, In k (JsObj.keys cats) ->
                              skippedCategory (safeName k) = false).
    { intros k Hin; unfold safeName; fold (categoryKeyOf k).
      rewrite skippedCategory_categoryKeyOf; apply Hk, Hin. }
    assert (Hname : skippedCategory (safeName name) = true).
    { unfold safeName; fold (categoryKeyOf name).
      rewrite skippedCategory_categoryKeyOf; exact Hs. }
    split.
    + intros Hin; apply in_map_iff in Hin; destruct Hin as [k [Heq Hin]].
      specialize (Hdiff k Hin); congruence.
    + intros Hin; apply emitFiles_paths in Hin.
      destruct Hin as [H | [H | [H | [H | [k [Hin H]]]]]]; try discriminate H.
      apply append_inv_head in H.
      exact (skipped_first_char _ _ _ Hname (Hdiff k Hin) H).
Qed.

Lemma skipped_categories_witness :
  ~ In (safeName "_draft") (map safeName ["palette"])
  /\ ~ In (componentPath "_draft")
       (map fst (emitFiles [("palette", mkCategory ["--accent: #00ff00;"] [])])).
Proof.
  destruct (skipped_categories privateEntries) as [_ H].
  exact (H [("palette", mkCategory ["--accent: #00ff00;"] [])] "_draft"
           eq_refl eq_refl).
Defined.

(** ** Leaf tokens without a value *)

Section Ensure.
Variable baseName : string.

Lemma ensureCategory_settled (c : categories) :
  settledAt (categoryKeyOf baseName) c = true ->
  ensureCategory (categoryKeyOf baseName) c = c.
Proof. unfold settledAt, ensureCategory; intros ->; reflexivity. Qed.

Lemma settled_ensureCategory (c : categories) :
  settledAt (categoryKeyOf baseName) (ensureCategory (categoryKeyOf baseName) c)
  = true.
Proof.
  unfold ensureCategory.
  destruct (inheritedKey (categoryKeyOf baseName)
            || JsObj.has (categoryKeyOf baseName) c) eqn:E; [exact E |].
  unfold settledAt, JsObj.has; rewrite get_set_same; apply orb_true_r.
Qed.

Lemma ensureCategory_idem (c : categories) :
  ensureCategory (categoryKeyOf baseName) (ensureCategory (categoryKeyOf baseName) c)
  = ensureCategory (categoryKeyOf baseName) c.
Proof. apply ensureCategory_settled, settled_ensureCategory. Qed.

Lemma settled_keys (c c' : categories) :
  JsObj.keys c' = JsObj.keys c ->
  settledAt (categoryKeyOf baseName) c = true ->
  settledAt (categoryKeyOf baseName) c' = true.
Proof.
  unfold settledAt; intros Hk H; apply orb_true_iff in H; apply orb_true_iff.
  destruct H as [H | H]; [auto | right].
  apply has_keys; rewrite Hk; apply has_keys, H.
Qed.

Lemma flattenLeaf_ensure (value : json) (path : string) (c : categories) :
  flattenLeaf value baseName (ensureCategory (categoryKeyOf baseName) c) path
  = flattenLeaf value baseName c path.
Proof. unfold flattenLeaf; rewrite ensureCategory_idem; reflexivity. Qed.

Lemma flattenLeaf_settled (value : json) (path : string) (c c' : categories) :
  flattenLeaf value baseName c path = Ok c' ->
  settledAt (categoryKeyOf baseName) c' = true.
Proof.
  rewrite <- flattenLeaf_ensure; intros H.
  apply (flattenLeaf_rel baseName
           (fun a b => settledAt (categoryKeyOf baseName) a = true ->
                       settledAt (categoryKeyOf baseName) b = true)) in H.
  - exact H.
  - auto.
  - auto.
  - intros a _; apply settled_ensureCategory.
  - intros line a b Hp; apply settled_keys, (pushVariable_keys _ _ _ _ Hp).
  - intros mixin a b Hp; apply settled_keys, (pushMixin_keys _ _ _ _ Hp).
  - apply settled_ensureCategory.
Qed.

Lemma flattenEntries_ensure
  (visit : json -> string -> categories -> result categories)
  (es : list (string * json)) :
  Forall (fun kv => forall path c,
              visit (snd kv) path (ensureCategory (categoryKeyOf baseName) c)
              = thenEnsure (categoryKeyOf baseName) (visit (snd kv) path c)) es ->
  forall prefix c,
    flattenEntries visit es prefix (ensureCategory (categoryKeyOf baseName) c)
    = thenEnsure (categoryKeyOf baseName) (flattenEntries visit es prefix c).
Proof.
  induction 1 as [| [k v] rest Hv _ IH]; simpl; intros prefix c; [reflexivity |].
  destruct (skippedKey k); [apply IH |].
  simpl in Hv; rewrite Hv.
  destruct (visit v (childPath prefix k) c); simpl; [apply IH | reflexivity].
Qed.

(** Creating the category first changes nothing but that creation. *)
Lemma flattenValue_ensure (value : json) :
  forall path c,
    flattenValue baseName value path (ensureCategory (categoryKeyOf baseName) c)
    = thenEnsure (categoryKeyOf baseName) (flattenValue baseName value path c).
Proof.
  induction value as [| b | r | s | items _ | es IH] using json_ind;
    intros path c; rewrite !flattenValue_eq;
    (destruct (isLeafToken _);
     [rewrite flattenLeaf_ensure;
      destruct (flattenLeaf _ baseName c path) eqn:E; simpl; [| reflexivity];
      rewrite (ensureCategory_settled _ (flattenLeaf_settled _ _ _ _ E)); reflexivity
     |]); try reflexivity.
  apply flattenEntries_ensure, IH.
Qed.

Lemma varsOf_ensureCategory (k : string) (c : categories) :
  varsOf k (ensureCategory (categoryKeyOf baseName) c) = varsOf k c
  /\ mixinsOf k (ensureCategory (categoryKeyOf baseName) c) = mixinsOf k c.
Proof.
  unfold ensureCategory, varsOf, mixinsOf.
  destruct (inheritedKey (categoryKeyOf baseName)); simpl; [auto |].
  destruct (JsObj.has (categoryKeyOf baseName) c) eqn:E; [auto |].
  destruct (string_dec k (categoryKeyOf baseName)) as [-> | Hne].
  - rewrite get_set_same; unfold JsObj.has in E.
    destruct (JsObj.get (categoryKeyOf baseName) c); [discriminate | auto].
  - rewrite get_set_other by exact Hne; auto.
Qed.
End Ensure.

(** C7. A leaf token whose resolved value (value or $value) is undefined
    or null is passed over without an error: flattening it returns the
    categories with at most the (possibly empty) category of the document
    entry created, no declaration and no mixin is added to any category,
    and the remaining tokens are processed as they are without it. *)
Theorem null_leaf_skipped (baseName key : string) (value : json)
  (rest : list (string * json)) (prefix : string) (cats : categories) :
  skippedKey key = false ->
  isLeafToken value = true ->
  resolvedValue value = None \/ resolvedValue value = Some JNull ->
  let ensured := ensureCategory (categoryKeyOf baseName) cats in
  flattenValue baseName value (childPath prefix key) cats = Ok ensured
  /\ (forall k, varsOf k ensured = varsOf k cats
                /\ mixinsOf k ensured = mixinsOf k cats)
  /\ flattenEntries (flattenValue baseName) ((key, value) :: rest) prefix cats
     = thenEnsure (categoryKeyOf baseName)
         (flattenEntries (flattenValue baseName) rest prefix cats).
Proof.
  intros Hk Hleaf Hnull ensured.
  assert (Hv : flattenValue baseName value (childPath prefix key) cats = Ok ensured).
  { rewrite flattenValue_eq, Hleaf; unfold flattenLeaf.
    destruct Hnull as [-> | ->]; reflexivity. }
  split; [exact Hv | split].
  - intros k; apply varsOf_ensureCategory.
  - simpl; rewrite Hk, Hv; simpl.
    apply flattenEntries_ensure, Forall_forall.
    intros kv _; apply flattenValue_ensure.
Qed.

Lemma null_leaf_skipped_witness :
  flattenEntries (flattenValue "Brand") nullLeafEntries EmptyString []
  = thenEnsure "brand"
      (flattenEntries (flattenValue "Brand") [("accent", colorLeaf "#ff0000")]
         EmptyString []).
Proof.
  exact (proj2 (proj2
           (null_leaf_skipped "Brand" "ghost" nullLeaf
              [("accent", colorLeaf "#ff0000")] EmptyString []
              eq_refl eq_refl (or_intror eq_refl)))).
Defined.

(** ** The kind of a converted value *)

Lemma assocWith_assoc {B : Type} (f : json -> B) (name : string)
  (es : list (string * json)) :
  assocWith f name es = option_map f (assoc name es).
Proof.
  induction es as [| [k v] es IH]; simpl; [reflexivity |].
  destruct (k =? name); [reflexivity | exact IH].
Qed.

Lemma assoc_in {A : Type} (name : string) (es : list (string * A)) (v : A) :
  assoc name es = Some v -> In (name, v) es.
Proof.
  induction es as [| [k x] es IH]; simpl; [discriminate |].
  destruct (String.eqb_spec k name) as [-> | Hne]; intros H.
  - injection H as ->; auto.
  - auto.
Qed.

Lemma assoc_absent {A : Type} (name : string) (es : list (string * A)) :
  ~ In name (map fst es) -> assoc name es = None.
Proof.
  induction es as [| [k x] es IH]; simpl; intros H; [reflexivity |].
  destruct (String.eqb_spec k name) as [-> | Hne]; [exfalso; auto | auto].
Qed.

Lemma mapM_throw {A B : Type} (f : A -> result B) (l : list A) :
  mapM f l = Throw -> exists x, In x l /\ f x = Throw.
Proof.
  induction l as [| a l IH]; simpl; [discriminate |].
  destruct (f a) eqn:E; simpl; [| intros _; exists a; auto].
  destruct (mapM f l); simpl; [discriminate |].
  intros _; destruct (IH eq_refl) as [x [Hin Hx]]; exists x; auto.
Qed.

Lemma convertComposite_kind (value : json) (type : option json) (c : json) :
  convertComposite value type = Ok c ->
  match c with
  | JStr _ => True
  | JObj props => map fst props = typographyProperties
  | _ => False
  end.
Proof.
  unfold convertComposite; intros H.
  destruct (isString "boxShadow" type || isBoxShadow value).
  - destruct value; bind_ok H; injection H as <-; exact I.
  - destruct (isString "border" type).
    + bind_ok H; bind_ok H; bind_ok H; injection H as <-; exact I.
    + destruct (isString "typography" type).
      * bind_ok H; bind_ok H; injection H as <-; reflexivity.
      * injection H as <-; exact I.
Qed.

Lemma convertValue_kind (v : json) :
  forall type c,
    convertValue v type = Ok c ->
    match c with
    | JArr _ => False
    | JObj props => map fst props = typographyProperties
    | _ => True
    end.
Proof.
  induction v as [| b | r | s | items _ | es IH] using json_ind; intros type c H.
  - injection H as <-; exact I.
  - injection H as <-; exact I.
  - simpl in H; destruct (_ || _); injection H as <-; exact I.
  - simpl in H; destruct (includes "var(--" s); injection H as <-; exact I.
  - simpl in H; apply convertComposite_kind in H.
    destruct c; try exact I; try contradiction; exact H.
  - simpl in H; rewrite assocWith_assoc in H.
    destruct (assoc "value" es) as [inner |] eqn:E; simpl in H.
    + apply assoc_in in E.
      exact (proj1 (Forall_forall _ _) IH _ E _ _ H).
    + apply convertComposite_kind in H.
      destruct c; try exact I; try contradiction; exact H.
Qed.

Lemma convertLeafValue_kind (tokenValue tokenType converted : json) :
  convertLeafValue tokenValue tokenType = Ok converted ->
  match converted with
  | JArr _ => False
  | JObj props => map fst props = typographyProperties
  | _ => True
  end.
Proof.
  unfold convertLeafValue; intros H; bind_ok H.
  pose proof (convertValue_kind _ _ _ E) as Hk.
  destruct a; try (injection H as <-; exact Hk).
  destruct (negb (includes "var(--" s)); injection H as <-; exact I.
Qed.

(** What the converter returns has a text: it is no array, and an object
    it returns has none of its five properties named [toString]. *)
Lemma convertLeafValue_printable (tokenValue tokenType converted : json) :
  convertLeafValue tokenValue tokenType = Ok converted ->
  exists text, toStr converted = Ok text.
Proof.
  intros H; apply convertLeafValue_kind in H.
  destruct converted as [| [] | r | s | items | props]; simpl; eauto; [destruct H |].
  rewrite assoc_absent; [eauto |].
  rewrite H; simpl; intuition discriminate.
Qed.

(** ** The declaration of a leaf token *)

Lemma append_assoc (a b c : string) : (a ++ b) ++ c = a ++ b ++ c.
Proof. induction a as [| x a IH]; simpl; [| rewrite IH]; reflexivity. Qed.

Lemma pushVariable_vars (key line : string) (c c' : categories) :
  pushVariable key line c = Ok c' ->
  varsOf key c' = (varsOf key c ++ [line])%list
  /\ mixinsOf key c' = mixinsOf key c
  /\ forall k, k <> key -> varsOf k c' = varsOf k c /\ mixinsOf k c' = mixinsOf k c.
Proof.
  unfold pushVariable, varsOf, mixinsOf.
  destruct (JsObj.get key c) as [x |] eqn:E; [| discriminate].
  intros H; injection H as <-.
  assert (Hh : JsObj.has key c = true) by (unfold JsObj.has; rewrite E; reflexivity).
  rewrite (get_update_same _ _ _ Hh); simpl.
  repeat split; rewrite get_update_other by assumption; reflexivity.
Qed.

Lemma pushMixin_vars (key mixin : string) (c c' : categories) :
  pushMixin key mixin c = Ok c' -> forall k, varsOf k c' = varsOf k c.
Proof.
  unfold pushMixin, varsOf.
  destruct (JsObj.get key c) as [x |] eqn:E; [| discriminate].
  intros H k; injection H as <-.
  assert (Hh : JsObj.has key c = true) by (unfold JsObj.has; rewrite E; reflexivity).
  destruct (string_dec k key) as [-> | Hne].
  - rewrite (get_update_same _ _ _ Hh), E; reflexivity.
  - rewrite get_update_other by assumption; reflexivity.
Qed.

Lemma pushVariable_settled (key line : string) (c : categories) :
  inheritedKey key = false -> settledAt key c = true ->
  exists c', pushVariable key line c = Ok c'.
Proof.
  unfold settledAt, pushVariable, JsObj.has; intros -> H; simpl in H.
  destruct (JsObj.get key c); [eauto | discriminate].
Qed.

Lemma flattenValue_grows (baseName : string) (value : json) (path : string)
  (c c' : categories) :
  flattenValue baseName value path c = Ok c' -> grows c c'.
Proof.
  apply (flattenValue_rel baseName grows); unfold grows; auto.
  - intros a k line; rewrite (proj1 (varsOf_ensureCategory baseName k a)); auto.
  - intros line a b H k l Hin; apply pushVariable_vars in H.
    destruct H as [Hv [_ Ho]].
    destruct (string_dec k (categoryKeyOf baseName)) as [-> | Hne].
    + rewrite Hv; apply in_or_app; auto.
    + rewrite (proj1 (Ho k Hne)); exact Hin.
  - intros mixin a b H k l; rewrite (pushMixin_vars _ _ _ _ H); auto.
Qed.

Lemma flattenEntries_grows (baseName : string) (es : list (string * json))
  (prefix : string) (c c' : categories) :
  flattenEntries (flattenValue baseName) es prefix c = Ok c' -> grows c c'.
Proof.
  apply (flattenEntries_rel grows); unfold grows; eauto.
  apply Forall_forall; intros kv _ path a b; apply flattenValue_grows.
Qed.

(** The visit of a kept entry happens, and what it recorded stays. *)
Lemma flattenEntries_visits (baseName : string) (es : list (string * json))
  (key : string) (value : json) :
  In (key, value) es -> skippedKey key = false ->
  forall prefix c c',
    flattenEntries (flattenValue baseName) es prefix c = Ok c' ->
    exists c0 c1,
      flattenValue baseName value (childPath prefix key) c0 = Ok c1 /\ grows c1 c'.
Proof.
  intros Hin Hk; induction es as [| [k v] rest IH]; [destruct Hin |].
  intros prefix c c' H; simpl in H.
  destruct Hin as [Heq | Hin].
  - injection Heq as -> ->; rewrite Hk in H; bind_ok H.
    exists c, a; split; [exact E | eapply flattenEntries_grows; eauto].
  - destruct (skippedKey k); [eauto |].
    bind_ok H; eauto.
Qed.

Lemma append_empty_r (a : string) : a ++ EmptyString = a.
Proof. induction a as [| x a IH]; simpl; [| rewrite IH]; reflexivity. Qed.

Lemma join_cons (sep x : string) (xs : list string) :
  join sep (x :: xs) = x ++ concatMap (fun y => sep ++ y) xs.
Proof.
  revert x; induction xs as [| y ys IH]; intros x.
  - simpl; rewrite append_empty_r; reflexivity.
  - change (join sep (x :: y :: ys)) with (x ++ sep ++ join sep (y :: ys)).
    rewrite IH; simpl; rewrite append_assoc; reflexivity.
Qed.

Lemma pathName_cons (prefix k : string) (ks : list string) :
  pathName prefix (k :: ks) = pathName (childPath prefix k) ks.
Proof. reflexivity. Qed.

Lemma pathName_from (prefix : string) (ks : list string) :
  prefix <> EmptyString ->
  pathName prefix ks
  = prefix ++ concatMap (fun y => "-" ++ y) (map normalizeTokenName ks).
Proof.
  revert prefix; induction ks as [| k ks IH]; intros prefix Hne.
  - simpl; rewrite append_empty_r; reflexivity.
  - rewrite pathName_cons.
    assert (Hc : childPath prefix k = prefix ++ "-" ++ normalizeTokenName k)
      by (unfold childPath; destruct prefix; [congruence | reflexivity]).
    rewrite Hc, IH by (destruct prefix; [congruence | discriminate]).
    simpl; rewrite !append_assoc; reflexivity.
Qed.

Lemma pathName_joined (ks : list string) :
  pathName EmptyString ks = joinedSegments ks.
Proof.
  unfold joinedSegments; induction ks as [| k ks IH]; [reflexivity |].
  rewrite pathName_cons.
  change (childPath EmptyString k) with (normalizeTokenName k); simpl.
  destruct (normalizeTokenName k) as [| a n] eqn:E; [exact IH |].
  rewrite pathName_from by discriminate.
  cbn [isEmpty]; rewrite join_cons; reflexivity.
Qed.

(** A typography token: one mixin and one variable per property, none of
    them under the name of the path. *)
Example flattenValue_typography :
  flattenValue "Type" headingLeaf "heading" []
  = Ok [("type",
         mkCategory
           ["--heading-family: {font.family};"; "--heading-size: 16px;";
            "--heading-weight: inherit;"; "--heading-line-height: inherit;";
            "--heading-letter-spacing: normal;"]
           ["@mixin heading {" ++ nl
            ++ "  font-family: {font.family};" ++ nl
            ++ "  font-size: 16px;" ++ nl
            ++ "  font-weight: inherit;" ++ nl
            ++ "  line-height: inherit;" ++ nl
            ++ "  letter-spacing: normal;" ++ nl
            ++ "}"])].
Proof. reflexivity. Qed.

(** C1, as it is worded, fails on a typography token: it is a leaf with a
    non-null resolved value, and flattening it at the path "heading" adds
    five declarations, not the single one named after the path. *)
Lemma typography_leaf_not_one_declaration :
  isLeafToken headingLeaf = true
  /\ resolvedValue headingLeaf <> None
  /\ resolvedValue headingLeaf <> Some JNull
  /\ exists cats',
       flattenValue "Type" headingLeaf "heading" [] = Ok cats'
       /\ List.length (varsOf "type" cats') = 5
       /\ ~ exists text,
             varsOf "type" cats'
             = (varsOf "type" [] ++ [("--heading: " ++ text ++ ";")%string])%list.
Proof.
  split; [reflexivity |].
  split; [discriminate |].
  split; [discriminate |].
  eexists; split; [exact flattenValue_typography |].
  split; [reflexivity |].
  intros [text H]; discriminate H.
Qed.

Lemma flattenLeaf_nonnull (value tokenValue : json) (baseName : string)
  (c : categories) (path : string) :
  resolvedValue value = Some tokenValue -> tokenValue <> JNull ->
  flattenLeaf value baseName c path
  = (converted <- convertLeafValue tokenValue (resolvedType value) ;;
     if typographyMapping (resolvedType value) converted then
       props <- entries converted ;;
       body <- mixinBody props ;;
       cats <- pushMixin (categoryKeyOf baseName)
                 ("@mixin " ++ path ++ " {" ++ nl ++ body ++ "}")
                 (ensureCategory (categoryKeyOf baseName) c) ;;
       pushTypographyVariables (categoryKeyOf baseName) path props cats
     else
       text <- toStr converted ;;
       pushVariable (categoryKeyOf baseName) (declaration path text)
         (ensureCategory (categoryKeyOf baseName) c)).
Proof.
  intros Hv Hn; unfold flattenLeaf; rewrite Hv.
  destruct tokenValue; congruence || reflexivity.
Qed.

Section LeafDeclaration.
Variable baseName : string.
Variables (value tokenValue converted : json).
Variable text : string.
Hypothesis Hleaf : isLeafToken value = true.
Hypothesis Hvalue : resolvedValue value = Some tokenValue.
Hypothesis Hnonnull : tokenValue <> JNull.
Hypothesis Hconv : convertLeafValue tokenValue (resolvedType value) = Ok converted.
Hypothesis Hplain : typographyMapping (resolvedType value) converted = false.
Hypothesis Htext : toStr converted = Ok text.

Lemma flattenValue_plain_leaf (path : string) (c : categories) :
  flattenValue baseName value path c
  = pushVariable (categoryKeyOf baseName) (declaration path text)
      (ensureCategory (categoryKeyOf baseName) c).
Proof.
  rewrite flattenValue_eq, Hleaf.
  rewrite (flattenLeaf_nonnull _ _ _ _ _ Hvalue Hnonnull), Hconv; simpl.
  rewrite Hplain, Htext; reflexivity.
Qed.

(** Flattening the leaf alone adds exactly its declaration. *)
Lemma plain_leaf_adds_one (path : string) (c : categories) :
  inheritedKey (categoryKeyOf baseName) = false ->
  exists c',
    flattenValue baseName value path c = Ok c'
    /\ varsOf (categoryKeyOf baseName) c'
       = (varsOf (categoryKeyOf baseName) c ++ [declaration path text])%list
    /\ mixinsOf (categoryKeyOf baseName) c' = mixinsOf (categoryKeyOf baseName) c
    /\ forall k, k <> categoryKeyOf baseName ->
                 varsOf k c' = varsOf k c /\ mixinsOf k c' = mixinsOf k c.
Proof.
  intros Hi; rewrite flattenValue_plain_leaf.
  destruct (pushVariable_settled (categoryKeyOf baseName) (declaration path text)
              _ Hi (settled_ensureCategory baseName c)) as [c' Hp].
  exists c'; split; [exact Hp |].
  apply pushVariable_vars in Hp; destruct Hp as [Hv [Hm Ho]].
  pose proof (varsOf_ensureCategory baseName) as He.
  rewrite Hv, Hm, (proj1 (He _ c)), (proj2 (He _ c)).
  repeat split; try reflexivity;
    destruct (Ho k H) as [H1 H2];
    rewrite ?H1, ?H2, ?(proj1 (He k c)), ?(proj2 (He k c)); reflexivity.
Qed.

(** In the tree, the declaration carries the name built along the path. *)
Lemma plain_leaf_in_tree (es : list (string * json)) (ks : list string) :
  leafAt value es ks ->
  forall prefix c c',
    flattenEntries (flattenValue baseName) es prefix c = Ok c' ->
    In (declaration (pathName prefix ks) text)
       (varsOf (categoryKeyOf baseName) c').
Proof.
  induction 1 as [es key Hin Hk Hl | es sub key ks Hin Hk Hl Hsub IH];
    intros prefix c c' H.
  - destruct (flattenEntries_visits baseName es key value Hin Hk _ _ _ H)
      as [c0 [c1 [Hv Hg]]].
    apply Hg; rewrite flattenValue_plain_leaf in Hv; try assumption.
    apply pushVariable_vars in Hv; destruct Hv as [-> _].
    apply in_or_app; right; left; reflexivity.
  - destruct (flattenEntries_visits baseName es key (JObj sub) Hin Hk _ _ _ H)
      as [c0 [c1 [Hv Hg]]].
    rewrite flattenValue_eq, Hl in Hv.
    apply Hg; rewrite pathName_cons; eapply IH; eauto.
Qed.
End LeafDeclaration.

Lemma leafAt_leaf (value : json) (es : list (string * json)) (ks : list string) :
  leafAt value es ks -> isLeafToken value = true.
Proof. induction 1; assumption. Qed.

(** A leaf whose conversion throws makes the flattening throw, alone and
    in the tree. *)
Lemma flattenValue_leaf_throws (baseName : string) (value tokenValue : json)
  (path : string) (c : categories) :
  isLeafToken value = true ->
  resolvedValue value = Some tokenValue -> tokenValue <> JNull ->
  convertLeafValue tokenValue (resolvedType value) = Throw ->
  flattenValue baseName value path c = Throw.
Proof.
  intros Hl Hv Hn Hc.
  rewrite flattenValue_eq, Hl, (flattenLeaf_nonnull _ _ _ _ _ Hv Hn), Hc.
  reflexivity.
Qed.

Lemma flattenEntries_throws (baseName : string) (es : list (string * json))
  (key : string) (value : json) :
  In (key, value) es -> skippedKey key = false ->
  (forall path c, flattenValue baseName value path c = Throw) ->
  forall prefix c, flattenEntries (flattenValue baseName) es prefix c = Throw.
Proof.
  intros Hin Hk Ht; induction es as [| [k v] rest IH]; [destruct Hin |].
  intros prefix c; simpl.
  destruct Hin as [Heq | Hin].
  - injection Heq as -> ->; rewrite Hk, Ht; reflexivity.
  - destruct (skippedKey k); [auto |].
    destruct (flattenValue baseName v (childPath prefix k) c); simpl; auto.
Qed.

Lemma leafAt_throws (baseName : string) (value : json)
  (es : list (string * json)) (ks : list string) :
  leafAt value es ks ->
  (forall path c, flattenValue baseName value path c = Throw) ->
  forall prefix c, flattenEntries (flattenValue baseName) es prefix c = Throw.
Proof.
  intros Hat Ht;
    induction Hat as [es key Hin Hk Hl | es sub key ks Hin Hk Hl Hsub IH].
  - eapply flattenEntries_throws; eauto.
  - eapply flattenEntries_throws; eauto.
    intros path c; rewrite flattenValue_eq, Hl; apply IH.
Qed.

(** C1, amended. Take a leaf token of the tree with a non-null resolved
    value, in a category whose key is not a member that the categories
    object inherits.  When the conversion of its value throws, flattening
    the leaf throws, and so does flattening the tree: nothing is produced.
    When the conversion returns a value and the leaf does not take the
    typography branch (type typography with a converted value of type
    object), the converted value has a text, and flattening the leaf adds
    exactly one declaration "--name: text;" and no mixin; in the flattened
    tree that declaration carries as name the normalized key segments from
    the category root to the leaf joined by "-", the leading segments that
    normalize to the empty string left out.  A leaf that takes the
    typography branch has a converted value that is null, and then
    flattening it throws, or a mapping with the five typography
    properties. *)
Theorem leaf_declaration (baseName : string) (es : list (string * json))
  (ks : list string) (value tokenValue : json) :
  leafAt value es ks ->
  resolvedValue value = Some tokenValue ->
  tokenValue <> JNull ->
  inheritedKey (categoryKeyOf baseName) = false ->
  (convertLeafValue tokenValue (resolvedType value) = Throw ->
   (forall path c, flattenValue baseName value path c = Throw)
   /\ forall c, flattenTokens (JObj es) baseName c EmptyString = Throw)
  /\ (forall converted,
         convertLeafValue tokenValue (resolvedType value) = Ok converted ->
         typographyMapping (resolvedType value) converted = false ->
         exists text,
           toStr converted = Ok text
           /\ (forall path c,
                  exists c',
                    flattenValue baseName value path c = Ok c'
                    /\ varsOf (categoryKeyOf baseName) c'
                       = (varsOf (categoryKeyOf baseName) c
                            ++ [declaration path text])%list
                    /\ mixinsOf (categoryKeyOf baseName) c'
                       = mixinsOf (categoryKeyOf baseName) c
                    /\ forall k, k <> categoryKeyOf baseName ->
                                 varsOf k c' = varsOf k c
                                 /\ mixinsOf k c' = mixinsOf k c)
           /\ (forall c c',
                  flattenTokens (JObj es) baseName c EmptyString = Ok c' ->
                  In (declaration (joinedSegments ks) text)
                     (varsOf (categoryKeyOf baseName) c')))
  /\ (forall converted,
         convertLeafValue tokenValue (resolvedType value) = Ok converted ->
         typographyMapping (resolvedType value) converted = true ->
         (converted = JNull
          /\ forall path c, flattenValue baseName value path c = Throw)
         \/ exists props,
              converted = JObj props /\ map fst props = typographyProperties).
Proof.
  intros Hat Hv Hn Hi.
  pose proof (leafAt_leaf _ _ _ Hat) as Hl.
  split; [| split].
  - intros Hc.
    assert (Ht : forall path c, flattenValue baseName value path c = Throw)
      by (intros path c; eapply flattenValue_leaf_throws; eauto).
    split; [exact Ht |].
    intros c; exact (leafAt_throws baseName value es ks Hat Ht EmptyString c).
  - intros converted Hc Hp.
    destruct (convertLeafValue_printable _ _ _ Hc) as [text Htext].
    exists text; split; [exact Htext |]; split.
    + intros path c.
      exact (plain_leaf_adds_one baseName value tokenValue converted text
               Hl Hv Hn Hc Hp Htext path c Hi).
    + intros c c' H; rewrite <- pathName_joined.
      exact (plain_leaf_in_tree baseName value tokenValue converted text
               Hl Hv Hn Hc Hp Htext es ks Hat EmptyString c c' H).
  - intros converted Hc Hp.
    pose proof (convertLeafValue_kind _ _ _ Hc) as Hk.
    unfold typographyMapping in Hp; apply andb_prop in Hp; destruct Hp as [Hty Ho].
    destruct converted as [| b | r | s | items | props]; try discriminate Ho.
    + left; split; [reflexivity |].
      intros path c.
      rewrite flattenValue_eq, Hl, (flattenLeaf_nonnull _ _ _ _ _ Hv Hn), Hc.
      cbn [bind]; unfold typographyMapping; rewrite Hty; reflexivity.
    + destruct Hk.
    + right; exists props; auto.
Qed.

Lemma leaf_declaration_witness :
  In "--brand-primary--color: #336699;"
     (varsOf "palette"
        [("palette", mkCategory ["--brand-primary--color: #336699;"] [])]).
Proof.
  assert (Hat : leafAt (colorLeaf "#336699") nestedEntries ["Brand"; "primaryColor"]).
  { apply leafBelow with (sub := [("primaryColor", colorLeaf "#336699")]);
      [left; reflexivity | reflexivity | reflexivity |].
    apply leafHere; [left; reflexivity | reflexivity | reflexivity]. }
  assert (Hn : JStr "#336699" <> JNull) by discriminate.
  destruct (proj1 (proj2
              (leaf_declaration "Palette" nestedEntries ["Brand"; "primaryColor"]
                 (colorLeaf "#336699") (JStr "#336699") Hat eq_refl Hn eq_refl))
              (JStr "#336699") eq_refl eq_refl)
    as [text [Htext [_ Htree]]].
  injection Htext as <-.
  exact (Htree [] [("palette", mkCategory ["--brand-primary--color: #336699;"] [])]
           eq_refl).
Defined.

(** ** The global fix-up *)

Lemma allChars_app (p : ascii -> bool) (a b : string) :
  allChars p (a ++ b) = allChars p a && allChars p b.
Proof.
  induction a as [| c a IH]; simpl; [reflexivity |].
  rewrite IH; apply andb_assoc.
Qed.

Lemma allChars_weaken (p q : ascii -> bool) (s : string) :
  (forall c, p c = true -> q c = true) ->
  allChars p s = true -> allChars q s = true.
Proof.
  intros Hpq; induction s as [| c s IH]; simpl; intros H; [reflexivity |].
  bool_to_prop; rewrite (Hpq _ H), IH; auto.
Qed.

Lemma allChars_join (p : ascii -> bool) (sep : string) (parts : list string) :
  allChars p sep = true ->
  Forall (fun part => allChars p part = true) parts ->
  allChars p (join sep parts) = true.
Proof.
  intros Hsep; induction 1 as [| x xs Hx _ IH]; [reflexivity |].
  destruct xs as [| y ys]; [exact Hx |].
  change (join sep (x :: y :: ys)) with (x ++ sep ++ join sep (y :: ys)).
  rewrite !allChars_app, Hx, Hsep, IH; reflexivity.
Qed.

Lemma normalizeReferencePath_nameChars (refPath : string) :
  allChars isNameChar (normalizeReferencePath refPath) = true.
Proof.
  unfold normalizeReferencePath; apply allChars_join; [reflexivity |].
  apply Forall_forall; intros part Hin; apply in_map_iff in Hin.
  destruct Hin as [x [<- _]]; apply normalizeTokenName_nameChars.
Qed.

(** The class [p] holds of the text of a [var(--...)] call when it holds of
    the letters around the name and of the name characters. *)
Lemma referenceToVar_allChars (p : ascii -> bool) (refPath : string) :
  allChars p "var(--)" = true ->
  (forall c, isNameChar c = true -> p c = true) ->
  allChars p (referenceToVar refPath) = true.
Proof.
  intros Hlit Hname; unfold referenceToVar.
  rewrite !allChars_app.
  rewrite (allChars_weaken isNameChar p _ Hname (normalizeReferencePath_nameChars _)).
  simpl in *; bool_to_prop.
  repeat match goal with H : p _ = true |- _ => rewrite H; clear H end.
  reflexivity.
Qed.

Lemma replaceReferencesFrom_allChars (p : ascii -> bool) (s : string) :
  allChars p "var(--)" = true ->
  (forall c, isNameChar c = true -> p c = true) ->
  allChars p s = true ->
  forall skip, allChars p (replaceReferencesFrom skip s) = true.
Proof.
  intros Hlit Hname; induction s as [| c s IH]; intros H skip; [reflexivity |].
  simpl in H; bool_to_prop; cbn [replaceReferencesFrom].
  destruct skip as [| k]; [| auto].
  assert (Hcopy : allChars p (String c (replaceReferencesFrom 0 s)) = true)
    by (simpl; rewrite H, IH; auto).
  destruct (Ascii.eqb c openBrace); [| exact Hcopy].
  destruct (untilClose s) as [[[| i inner] after] |]; try exact Hcopy.
  rewrite allChars_app, referenceToVar_allChars, IH; auto.
Qed.

Lemma nameChar_notLf (c : ascii) : isNameChar c = true -> notLf c = true.
Proof.
  intros H; apply isNameChar_code in H; unfold notLf.
  apply negb_true_iff, Ascii.eqb_neq; intros ->; vm_compute in H; lia.
Qed.

Lemma nameChar_notOpen (c : ascii) : isNameChar c = true -> notOpen c = true.
Proof.
  intros H; apply isNameChar_code in H; unfold notOpen.
  apply negb_true_iff, Ascii.eqb_neq; intros ->; vm_compute in H; lia.
Qed.

(** *** Lines *)

Lemma split_nonempty (sep : ascii) (s : string) : split sep s <> [].
Proof.
  induction s as [| c s IH]; simpl; [discriminate |].
  destruct (Ascii.eqb c sep); [discriminate |].
  destruct (split sep s); discriminate.
Qed.

Lemma split_lines_notLf (s : string) :
  Forall (fun line => allChars notLf line = true) (split lf s).
Proof.
  induction s as [| c s IH]; simpl; [repeat constructor |].
  destruct (Ascii.eqb c lf) eqn:E; [constructor; [reflexivity | exact IH] |].
  destruct (split lf s) as [| h t];
    [repeat constructor; simpl; unfold notLf; rewrite E; reflexivity |].
  inversion IH as [| ? ? Hh Ht]; subst; constructor; [| exact Ht].
  simpl; unfold notLf at 1; rewrite E, Hh; reflexivity.
Qed.

Lemma split_single (line : string) :
  allChars notLf line = true -> split lf line = [line].
Proof.
  induction line as [| c line IH]; simpl; intros H; [reflexivity |].
  unfold notLf at 1 in H; bool_to_prop; rewrite H, IH; auto.
Qed.

Lemma split_line_app (line rest : string) :
  allChars notLf line = true ->
  split lf (line ++ String lf rest) = line :: split lf rest.
Proof.
  induction line as [| c line IH]; simpl; intros H.
  - reflexivity.
  - unfold notLf at 1 in H; bool_to_prop; rewrite H, IH; auto.
Qed.

Lemma split_join (ls : list string) :
  ls <> [] ->
  Forall (fun line => allChars notLf line = true) ls ->
  split lf (join nl ls) = ls.
Proof.
  intros Hne H; induction H as [| x xs Hx _ IH]; [congruence |].
  destruct xs as [| y ys]; [apply split_single, Hx |].
  change (join nl (x :: y :: ys)) with (x ++ String lf (join nl (y :: ys))).
  rewrite split_line_app, IH by (assumption || discriminate); reflexivity.
Qed.

Lemma fixLine_notLf (line : string) :
  allChars notLf line = true -> allChars notLf (fixLine line) = true.
Proof.
  intros H; unfold fixLine; destruct (keptLine line); [exact H |].
  apply replaceReferencesFrom_allChars; auto using nameChar_notLf.
Qed.

(** The fix-up acts line by line. *)
Lemma globalFixReferences_lines (content : string) :
  split lf (globalFixReferences content) = map fixLine (split lf content).
Proof.
  unfold globalFixReferences; fold fixLine.
  apply split_join.
  - pose proof (split_nonempty lf content) as Hne.
    destruct (split lf content); [congruence | discriminate].
  - apply Forall_forall; intros line Hin; apply in_map_iff in Hin.
    destruct Hin as [l [<- Hin]].
    apply fixLine_notLf.
    exact (proj1 (Forall_forall _ _) (split_lines_notLf content) l Hin).
Qed.

(** *** Placeholders *)

Lemma hasPlaceholderb_complete (s : string) :
  hasPlaceholder s -> hasPlaceholderb s = true.
Proof.
  intros [a [inner [b [-> [Hne Hin]]]]].
  induction a as [| c a IH]; simpl.
  - rewrite (untilClose_inner _ b Hin).
    destruct inner; [congruence | reflexivity].
  - simpl in IH; rewrite IH; apply orb_true_r.
Qed.

Lemma hasPlaceholderb_app (a b : string) :
  allChars notOpen a = true -> hasPlaceholderb (a ++ b) = hasPlaceholderb b.
Proof.
  induction a as [| c a IH]; simpl; intros H; [reflexivity |].
  unfold notOpen at 1 in H; bool_to_prop; rewrite H, IH; auto.
Qed.

Lemma untilClose_none_fixed (s : string) :
  untilClose s = None -> replaceReferences s = s.
Proof.
  unfold replaceReferences; induction s as [| c s IH]; simpl; intros H; [reflexivity |].
  destruct (Ascii.eqb c closeBrace); [discriminate |].
  destruct (untilClose s) as [[inner after] |]; [discriminate |].
  rewrite IH by reflexivity; destruct (Ascii.eqb c openBrace); reflexivity.
Qed.

Lemma untilClose_empty (s after : string) :
  untilClose s = Some (EmptyString, after) -> s = String closeBrace after.
Proof.
  destruct s as [| c s]; simpl; [discriminate |].
  destruct (Ascii.eqb c closeBrace) eqn:E.
  - intros H; injection H as <-; bool_to_prop; subst; reflexivity.
  - destruct (untilClose s) as [[inner a] |]; discriminate.
Qed.

(** After the rewrite, an opening brace that was left in place still has
    no placeholder text behind it. *)
Lemma untilClose_after_open (s : string) :
  match untilClose s with Some (String _ _, _) => False | _ => True end ->
  match untilClose (replaceReferences s) with
  | Some (String _ _, _) => False
  | _ => True
  end.
Proof.
  destruct (untilClose s) as [[[| i inner] after] |] eqn:E; intros H.
  - apply untilClose_empty in E; subst s.
    rewrite replaceReferences_other by reflexivity; exact I.
  - destruct H.
  - rewrite untilClose_none_fixed, E by exact E; exact I.
Qed.

Lemma referenceToVar_notOpen (refPath : string) :
  allChars notOpen (referenceToVar refPath) = true.
Proof. apply referenceToVar_allChars; auto using nameChar_notOpen. Qed.

(** No placeholder is left on a rewritten line. *)
Lemma replaceReferencesFrom_done (s : string) :
  forall skip, hasPlaceholderb (replaceReferencesFrom skip s) = false.
Proof.
  induction s as [| c s IH]; intros skip; [reflexivity |].
  cbn [replaceReferencesFrom]; destruct skip as [| k]; [| apply IH].
  destruct (Ascii.eqb c openBrace) eqn:Eo.
  - pose proof (untilClose_after_open s) as Hafter.
    destruct (untilClose s) as [[[| i inner] after] |].
    + cbn [hasPlaceholderb]; rewrite IH, orb_false_r.
      fold (replaceReferences s).
      destruct (untilClose (replaceReferences s)) as [[[| ? ?] ?] |];
        try apply andb_false_r; destruct (Hafter I).
    + rewrite hasPlaceholderb_app by apply referenceToVar_notOpen; apply IH.
    + cbn [hasPlaceholderb]; rewrite IH, orb_false_r.
      fold (replaceReferences s).
      destruct (untilClose (replaceReferences s)) as [[[| ? ?] ?] |];
        try apply andb_false_r; destruct (Hafter I).
  - cbn [hasPlaceholderb]; rewrite Eo, IH; reflexivity.
Qed.

Lemma replaceReferences_done (line : string) :
  ~ hasPlaceholder (replaceReferences line).
Proof.
  intros H; apply hasPlaceholderb_complete in H.
  unfold replaceReferences in H; rewrite replaceReferencesFrom_done in H.
  discriminate H.
Qed.

Lemma replaceReferencesFrom_skip (inner b : string) :
  replaceReferencesFrom (S (String.length inner)) (inner ++ String "}" b)
  = replaceReferences b.
Proof. induction inner as [| c inner IH]; simpl; [reflexivity | exact IH]. Qed.

(** A placeholder after a text without an opening brace becomes the
    [var(--...)] call of its normalized path. *)
Lemma replaceReferences_placeholder (a inner b : string) :
  allChars notOpen a = true ->
  inner <> EmptyString -> allChars notClose inner = true ->
  replaceReferences (a ++ "{" ++ inner ++ "}" ++ b)
  = a ++ "var(--" ++ normalizeReferencePath (trim inner) ++ ")"
      ++ replaceReferences b.
Proof.
  intros Ha Hne Hin; induction a as [| c a IH].
  - unfold replaceReferences at 1; simpl.
    rewrite (untilClose_inner _ b Hin).
    destruct inner as [| i inner]; [congruence |].
    change (String i inner ++ String "}" b) with (String i (inner ++ String "}" b)).
    rewrite <- (replaceReferencesFrom_skip (String i inner) b).
    unfold referenceToVar; simpl; rewrite !append_assoc; reflexivity.
  - simpl in Ha; unfold notOpen at 1 in Ha; bool_to_prop.
    change (String c a ++ "{" ++ inner ++ "}" ++ b)
      with (String c (a ++ "{" ++ inner ++ "}" ++ b)).
    rewrite replaceReferences_other, IH by assumption; reflexivity.
Qed.

Lemma globalFixReferences_swept (content : string) :
  sweptDocument (globalFixReferences content).
Proof.
  intros line Hin Hkept.
  rewrite globalFixReferences_lines in Hin; apply in_map_iff in Hin.
  destruct Hin as [l [<- _]]; unfold fixLine in *.
  destruct (keptLine l) eqn:E; [congruence | apply replaceReferences_done].
Qed.

Lemma generateBaseFile_swept (cats : categories) (path content : string) :
  In (path, content) (generateBaseFile cats) ->
  exists raw, content = globalFixReferences raw.
Proof.
  unfold generateBaseFile; rewrite !in_app_iff.
  intros [[H | []] | [H | H]].
  - injection H as _ <-; eexists; reflexivity.
  - destruct (lightTokens _); [destruct H |].
    destruct H as [H | []]; injection H as _ <-; eexists; reflexivity.
  - destruct (darkTokens _); [destruct H |].
    destruct H as [H | []]; injection H as _ <-; eexists; reflexivity.
Qed.

(** C4, as it is worded, fails on the component document of a category
    with a typography token that refers to another token, written with the
    placeholder still in the mixin, and on the index document of a category
    whose name has braces, written with the name as it is. *)
Lemma component_and_index_documents_unswept :
  (exists files,
      generateSCSS typographyDoc = Ok files
      /\ exists content,
           In ("components/_type.scss", content) files
           /\ ~ sweptDocument content)
  /\ (exists files,
         generateSCSS bracesDoc = Ok files
         /\ exists content,
              In ("index.scss", content) files /\ ~ sweptDocument content).
Proof.
  split.
  - eexists; split; [vm_compute; reflexivity |].
    eexists; split; [right; left; reflexivity |].
    intros H; apply (H "  font-family: {font.family};").
    + vm_compute; repeat (first [left; reflexivity | right]).
    + reflexivity.
    + exists "  font-family: ", "font.family", ";".
      split; [reflexivity | split; [discriminate | reflexivity]].
  - eexists; split; [vm_compute; reflexivity |].
    eexists; split; [right; right; left; reflexivity |].
    intros H; apply (H "@import 'components/x{y}';").
    + vm_compute; repeat (first [left; reflexivity | right]).
    + reflexivity.
    + exists "@import 'components/x", "y", "';".
      split; [reflexivity | split; [discriminate | reflexivity]].
Qed.

(** C4, amended. The base-variables document and the theme documents are
    swept through the fix-up before they are written: each is the fix-up of
    the assembled text, the fix-up acts line by line, leaving alone the
    lines whose trimmed text starts with "--" or "//" or is blank, and no
    other line of the document has a {path} placeholder left; on such a
    line a placeholder behind a text without an opening brace is rewritten
    to var(--normalized-path). *)
Theorem base_and_theme_documents_swept (tokens : json) (files : list file)
  (path content : string) :
  generateSCSS tokens = Ok files ->
  In (path, content) files ->
  path = "base/_variables.scss" \/ path = "base/_light.scss"
  \/ path = "base/_dark.scss" ->
  (exists raw,
      content = globalFixReferences raw
      /\ split lf content = map fixLine (split lf raw))
  /\ sweptDocument content
  /\ (forall a inner b,
         allChars notOpen a = true ->
         inner <> EmptyString -> allChars notClose inner = true ->
         keptLine (a ++ "{" ++ inner ++ "}" ++ b) = false ->
         fixLine (a ++ "{" ++ inner ++ "}" ++ b)
         = a ++ "var(--" ++ normalizeReferencePath (trim inner) ++ ")"
             ++ replaceReferences b).
Proof.
  intros Hgen Hin Hpath.
  unfold generateSCSS in Hgen; bind_ok Hgen; injection Hgen as <-.
  assert (Hraw : exists raw, content = globalFixReferences raw).
  { unfold emitFiles in Hin; rewrite !in_app_iff in Hin.
    destruct Hin as [Hin | [Hin | [Hin | []]]].
    - eapply generateBaseFile_swept; eauto.
    - apply in_map_iff in Hin; destruct Hin as [[k c] [Heq _]].
      injection Heq as Hp _; rewrite <- Hp in Hpath.
      destruct Hpath as [H | [H | H]]; discriminate H.
    - injection Hin as Hp _; rewrite <- Hp in Hpath.
      destruct Hpath as [H | [H | H]]; discriminate H. }
  destruct Hraw as [raw ->].
  split; [exists raw; split; [reflexivity | apply globalFixReferences_lines] |].
  split; [apply globalFixReferences_swept |].
  intros a0 inner b Ha Hne Hinner Hk; unfold fixLine; rewrite Hk.
  apply replaceReferences_placeholder; assumption.
Qed.

Lemma base_and_theme_documents_swept_witness :
  sweptDocument
    (generateThemeFile "light" [("dark on light", ["--surface: #101010;"])]).
Proof.
  refine (proj1 (proj2
            (base_and_theme_documents_swept bothThemesDoc _ "base/_light.scss" _
               eq_refl _ (or_intror (or_introl eq_refl))))).
  right; left; reflexivity.
Defined.

(** ** Utility classes of a component category *)

(** Whatever the declaration lines, the component utilities are the base
    rule with an empty body: [generateBasicUtilities] passes the array of
    lines where [generateComponentUtilities] reads the groups [base],
    [hover], ... of an object, so no property line and no state rule is
    written. *)
Lemma generateComponentUtilities_base_only (categoryName : string)
  (vars : list string) :
  generateComponentUtilities categoryName vars
  = "// " ++ categoryName ++ " component utilities" ++ nl
    ++ "." ++ categoryName ++ " {" ++ nl
    ++ "  // Base styles using tokens" ++ nl
    ++ "}" ++ nl ++ nl.
Proof. reflexivity. Qed.

(** C3. The code against the claim: a category with the variables
    background and background-hover gets the component base rule, but no
    rule for the hover state, although the state-suffixed variable is there
    and the lookup table maps its base name to a property. *)
Theorem state_rules_missing :
  exists files component,
    generateSCSS buttonDoc = Ok files
    /\ In ("components/_button.scss", component) files
    /\ isComponentTokens ["--background: #ffffff;"; "--background-hover: #eeeeee;"] = true
    /\ mapTokenToProperty (replaceFirst "-hover" EmptyString "background-hover")
       = Some "background"
    /\ contains (".button {" ++ nl) component
    /\ ~ contains ".button:hover" component
    /\ ~ contains "background: var(--background-hover)" component.
Proof.
  eexists; eexists; split; [vm_compute; reflexivity |].
  split; [right; left; reflexivity |].
  split; [reflexivity |].
  split; [reflexivity |].
  split; [apply includes_spec; vm_compute; reflexivity |].
  split; intros H; apply includes_spec in H; vm_compute in H; discriminate H.
Qed.

(** ** Names referenced and names declared *)

(** C2. The code against the claim: for a light-theme category with the
    token color-light, the component document imports the base and the
    light documents and refers to var(--color-light), while the light
    document declares the name with the theme suffix removed and the base
    document declares nothing. *)
Theorem theme_suffix_breaks_reference :
  exists files base light component,
    generateSCSS suffixDoc = Ok files
    /\ In ("base/_variables.scss", base) files
    /\ In ("base/_light.scss", light) files
    /\ In ("components/_light.scss", component) files
    /\ contains "@import '../base/light';" component
    /\ In "color-light" (varReferences component)
    /\ ~ In "color-light" (declaredNames base)
    /\ ~ In "color-light" (declaredNames light)
    /\ declaredNames light = ["color"].
Proof.
  eexists; eexists; eexists; eexists.
  split; [vm_compute; reflexivity |].
  split; [left; reflexivity |].
  split; [right; left; reflexivity |].
  split; [right; right; left; reflexivity |].
  split; [apply includes_spec; vm_compute; reflexivity |].
  split; [vm_compute; repeat (first [left; reflexivity | right]) |].
  split; [vm_compute; tauto |].
  split; [vm_compute; intros [H | []]; discriminate H |].
  vm_compute; reflexivity.
Qed.

(* ===================================================================== *)
(** * Further properties of the generator *)
(* ===================================================================== *)

(** ** Normal names *)

Lemma dropLeading_fixed (p : ascii -> bool) (s : string) :
  (forall c r, s = String c r -> p c = false) -> dropLeading p s = s.
Proof.
  destruct s as [| c s]; [reflexivity |].
  intros H; simpl; rewrite (H c s eq_refl); reflexivity.
Qed.

Lemma dropLeading_head (p : ascii -> bool) (s : string) (c : ascii) (r : string) :
  dropLeading p s = String c r -> p c = false.
Proof.
  induction s as [| a s IH]; simpl; [discriminate |].
  destruct (p a) eqn:E; [exact IH |].
  intros H; injection H as <- _; exact E.
Qed.

Lemma dropTrailing_last (p : ascii -> bool) (s : string) :
  forall r c, dropTrailing p s = r ++ String c EmptyString -> p c = false.
Proof.
  induction s as [| a s IH]; intros r c; simpl.
  - destruct r; discriminate.
  - destruct (p a && isEmpty (dropTrailing p s)) eqn:E;
      [destruct r; discriminate |].
    destruct r as [| b r]; simpl; intros H; injection H as -> H.
    + rewrite H in E; simpl in E; rewrite andb_true_r in E; exact E.
    + eauto.
Qed.

Lemma dropTrailing_fixed (p : ascii -> bool) (s : string) :
  (forall r c, s = r ++ String c EmptyString -> p c = false) ->
  dropTrailing p s = s.
Proof.
  induction s as [| a s IH]; intros H; [reflexivity |].
  simpl; rewrite IH.
  - destruct s as [| b s]; simpl; [| rewrite andb_false_r; reflexivity].
    rewrite (H EmptyString a eq_refl); reflexivity.
  - intros r c ->; apply (H (String a r) c); reflexivity.
Qed.

Lemma dropTrailing_head (p : ascii -> bool) (c : ascii) (s : string) :
  p c = false -> dropTrailing p (String c s) = String c (dropTrailing p s).
Proof. intros H; simpl; rewrite H; reflexivity. Qed.

Lemma normalizeTokenName_normal (x : string) : normalName (normalizeTokenName x).
Proof.
  split; [apply normalizeTokenName_nameChars |].
  rewrite normalizeTokenName_trimmed; unfold trimHyphens.
  set (y := stripInvalid _); split.
  - intros [r H].
    destruct (dropLeading isHyphen y) as [| c d] eqn:E; [discriminate H |].
    pose proof (dropLeading_head _ _ _ _ E) as Hc.
    rewrite dropTrailing_head in H by exact Hc.
    injection H as -> _; discriminate Hc.
  - intros [r H].
    pose proof (dropTrailing_last _ _ _ _ H) as Hc; discriminate Hc.
Qed.

Lemma normalName_fixed (s : string) : normalName s -> normalizeTokenName s = s.
Proof.
  intros [Hc [Hb He]].
  rewrite normalizeTokenName_trimmed.
  rewrite camelBoundaries_fixed, hyphenateUpper_fixed, hyphenateSpaces_fixed,
    stripInvalid_fixed by assumption.
  unfold trimHyphens; rewrite (dropLeading_fixed isHyphen s).
  - apply dropTrailing_fixed; intros r c ->.
    destruct (isHyphen c) eqn:E; [| reflexivity].
    unfold isHyphen in E; apply Ascii.eqb_eq in E; subst c.
    exfalso; apply He; exists r; reflexivity.
  - intros c r ->.
    destruct (isHyphen c) eqn:E; [| reflexivity].
    unfold isHyphen in E; apply Ascii.eqb_eq in E; subst c.
    exfalso; apply Hb; exists r; reflexivity.
Qed.

(** X1. The names the normalizer leaves unchanged are exactly the strings
    over [a-z0-9-] with no hyphen at either end, and every result of the
    normalizer is such a name. *)
Theorem normalizeTokenName_fixed_points (s : string) :
  (normalizeTokenName s = s <-> normalName s)
  /\ normalName (normalizeTokenName s).
Proof.
  split; [| apply normalizeTokenName_normal].
  split; [intros <-; apply normalizeTokenName_normal | apply normalName_fixed].
Qed.

(** ** Token names and reference paths *)

Lemma dropEmptyLeading_cases (l : list string) :
  dropEmptyLeading l = []
  \/ exists c seg rest,
       dropEmptyLeading l = String c seg :: rest
       /\ In (String c seg) l /\ incl rest l.
Proof.
  induction l as [| x l IH]; [left; reflexivity |].
  destruct x as [| c seg]; simpl.
  - destruct IH as [IH | [c [seg [rest [E [Hin Hincl]]]]]]; [left; exact IH |].
    right; exists c, seg, rest; repeat split; auto using incl_tl.
  - right; exists c, seg, l; repeat split; auto using incl_tl, incl_refl.
Qed.

(** X2. The name built for a token along any keys is a text over
    [a-z0-9-] that does not start with a hyphen, so that the declaration
    starts with exactly two hyphens. *)
Theorem token_name_wellformed (ks : list string) :
  allChars isNameChar (pathName EmptyString ks) = true
  /\ ~ beginsWith "-" (pathName EmptyString ks).
Proof.
  rewrite pathName_joined; unfold joinedSegments.
  assert (Hall : Forall (fun part => allChars isNameChar part = true)
                   (map normalizeTokenName ks)).
  { apply Forall_forall; intros part Hin; apply in_map_iff in Hin.
    destruct Hin as [k [<- _]]; apply normalizeTokenName_nameChars. }
  destruct (dropEmptyLeading_cases (map normalizeTokenName ks))
    as [-> | [c [seg [rest [-> [Hin Hincl]]]]]].
  - split; [reflexivity | intros [r H]; discriminate H].
  - split.
    + apply allChars_join; [reflexivity |].
      apply Forall_forall; intros part Hp.
      apply (proj1 (Forall_forall _ _) Hall).
      destruct Hp as [<- | Hp]; [exact Hin | apply Hincl, Hp].
    + rewrite join_cons; intros [r H]; simpl in H; injection H as -> _.
      apply in_map_iff in Hin; destruct Hin as [k [Hk _]].
      destruct (normalizeTokenName_normal k) as [_ [Hb _]].
      apply Hb; rewrite Hk; exists seg; reflexivity.
Qed.

Section SplitJoin.
Variable sep : ascii.
Variable other : ascii -> bool.
Hypothesis other_spec : forall c, other c = negb (Ascii.eqb c sep).

Lemma split_sep_single (part : string) :
  allChars other part = true -> split sep part = [part].
Proof.
  induction part as [| c part IH]; simpl; intros H; [reflexivity |].
  rewrite other_spec in H; bool_to_prop; rewrite H, IH; auto.
Qed.

Lemma split_sep_app (part rest : string) :
  allChars other part = true ->
  split sep (part ++ String sep rest) = part :: split sep rest.
Proof.
  induction part as [| c part IH]; simpl; intros H.
  - rewrite Ascii.eqb_refl; reflexivity.
  - rewrite other_spec in H; bool_to_prop; rewrite H, IH; auto.
Qed.

Lemma split_join_sep (parts : list string) :
  parts <> [] ->
  Forall (fun part => allChars other part = true) parts ->
  split sep (join (String sep EmptyString) parts) = parts.
Proof.
  intros Hne H; induction H as [| x xs Hx _ IH]; [congruence |].
  destruct xs as [| y ys]; [apply split_sep_single, Hx |].
  change (join (String sep EmptyString) (x :: y :: ys))
    with (x ++ String sep (join (String sep EmptyString) (y :: ys))).
  rewrite split_sep_app, IH by (assumption || discriminate); reflexivity.
Qed.
End SplitJoin.

(** X3. A reference that spells the keys of a token, joined by dots,
    resolves to the very name the flattener gives that token, when no key
    has a dot and the first key does not normalize to nothing. *)
Theorem reference_path_is_token_name (ks : list string) :
  Forall (fun k => allChars notDot k = true) ks ->
  normalizeTokenName (hd EmptyString ks) <> EmptyString ->
  normalizeReferencePath (join "." ks) = pathName EmptyString ks.
Proof.
  intros Hdots Hfirst.
  destruct ks as [| k ks]; [exfalso; apply Hfirst; reflexivity |].
  unfold normalizeReferencePath.
  change "." with (String dot EmptyString).
  rewrite (split_join_sep dot notDot (fun c => eq_refl) (k :: ks))
    by (discriminate || exact Hdots).
  rewrite pathName_joined; unfold joinedSegments; simpl map; simpl hd in Hfirst.
  destruct (normalizeTokenName k); [congruence | reflexivity].
Qed.

Lemma reference_path_is_token_name_witness :
  normalizeReferencePath "Brand.primaryColor" = "brand-primary--color"
  /\ pathName EmptyString ["Brand"; "primaryColor"] = "brand-primary--color".
Proof.
  assert (Hd : Forall (fun k => allChars notDot k = true) ["Brand"; "primaryColor"])
    by (repeat constructor).
  assert (Hf : normalizeTokenName (hd EmptyString ["Brand"; "primaryColor"])
               <> EmptyString) by discriminate.
  pose proof (reference_path_is_token_name _ Hd Hf) as H.
  split; [reflexivity | rewrite <- H; reflexivity].
Defined.

(** ** The resolver applied twice *)

Lemma untilClose_spec (s inner after : string) :
  untilClose s = Some (inner, after) ->
  s = inner ++ String "}" after /\ allChars notClose inner = true.
Proof.
  revert inner; induction s as [| c s IH]; intros inner; simpl; [discriminate |].
  destruct (Ascii.eqb c closeBrace) eqn:E.
  - intros H; injection H as <- <-; apply Ascii.eqb_eq in E; subst c.
    split; reflexivity.
  - destruct (untilClose s) as [[i a] |]; [| discriminate].
    intros H; injection H as <- <-.
    destruct (IH i eq_refl) as [-> Hi].
    split; [reflexivity |]; simpl; unfold notClose at 1; rewrite E; exact Hi.
Qed.

Lemma hasPlaceholderb_sound (s : string) :
  hasPlaceholderb s = true -> hasPlaceholder s.
Proof.
  induction s as [| c s IH]; simpl; [discriminate |].
  intros H; apply orb_prop in H; destruct H as [H | H].
  - apply andb_prop in H; destruct H as [Hc Hu].
    apply Ascii.eqb_eq in Hc; subst c.
    destruct (untilClose s) as [[[| i inner] after] |] eqn:E; try discriminate.
    destruct (untilClose_spec _ _ _ E) as [-> Hin].
    exists EmptyString, (String i inner), after.
    split; [reflexivity | split; [discriminate | exact Hin]].
  - destruct (IH H) as [a [inner [b [-> Hrest]]]].
    exists (String c a), inner, b; split; [reflexivity | exact Hrest].
Qed.

Lemma hasPlaceholderb_false (s : string) :
  ~ hasPlaceholder s -> hasPlaceholderb s = false.
Proof.
  intros H; destruct (hasPlaceholderb s) eqn:E; [| reflexivity].
  exfalso; apply H, hasPlaceholderb_sound, E.
Qed.

Lemma replaceReferences_fixed (s : string) :
  hasPlaceholderb s = false -> replaceReferences s = s.
Proof.
  unfold replaceReferences; induction s as [| c s IH]; simpl; [reflexivity |].
  intros H; apply orb_false_elim in H; destruct H as [H1 H2].
  rewrite (IH H2).
  destruct (Ascii.eqb c openBrace); [| reflexivity].
  destruct (untilClose s) as [[[| i inner] after] |]; try reflexivity.
  discriminate H1.
Qed.

Lemma untilClose_app (s t : string) :
  allChars notClose t = true ->
  untilClose (s ++ t)
  = match untilClose s with
    | Some (inner, after) => Some (inner, after ++ t)
    | None => None
    end.
Proof.
  intros Ht; induction s as [| c s IH]; simpl.
  - induction t as [| d t IHt]; [reflexivity |].
    simpl in *; unfold notClose at 1 in Ht; bool_to_prop.
    rewrite H, IHt; auto.
  - destruct (Ascii.eqb c closeBrace); [reflexivity |].
    rewrite IH; destruct (untilClose s) as [[i a] |]; reflexivity.
Qed.

Lemma hasPlaceholderb_app_plain (s t : string) :
  allChars notClose t = true -> hasPlaceholderb t = false ->
  hasPlaceholderb (s ++ t) = hasPlaceholderb s.
Proof.
  intros Hc Ht; induction s as [| c s IH]; simpl; [exact Ht |].
  rewrite IH, (untilClose_app s t Hc).
  destruct (untilClose s) as [[[| i inner] after] |]; reflexivity.
Qed.

Lemma needsCalc_eq (s : string) (type : option json) :
  needsCalc s type
  = anyChar isMathChar s && includes "var(--" s && negb (startsWith "calc(" s).
Proof.
  unfold needsCalc.
  destruct (anyChar isMathChar s && includes "var(--" s), (startsWith "calc(" s);
    reflexivity.
Qed.

Lemma processStringReferences_fixed (s : string) (type : option json) :
  hasPlaceholderb s = false ->
  needsCalc s type = false ->
  processStringReferences s type = s.
Proof.
  intros Hp Hn; unfold processStringReferences.
  rewrite (replaceReferences_fixed _ Hp), Hn; reflexivity.
Qed.

(** A resolved text has no placeholder left and needs no [calc(...)]
    wrapper, under any type. *)
Lemma processStringReferences_settled (s : string) (type : option json) :
  hasPlaceholderb (processStringReferences s type) = false
  /\ forall type', needsCalc (processStringReferences s type) type' = false.
Proof.
  pose proof (replaceReferencesFrom_done s 0) as Hdone.
  fold (replaceReferences s) in Hdone.
  assert (Hout : processStringReferences s type
                 = if needsCalc (replaceReferences s) type
                   then "calc(" ++ replaceReferences s ++ ")"
                   else replaceReferences s) by reflexivity.
  rewrite Hout; clear Hout.
  destruct (needsCalc (replaceReferences s) type) eqn:E; split.
  - change ("calc(" ++ replaceReferences s ++ ")")
      with ("calc(" ++ (replaceReferences s ++ ")")).
    rewrite hasPlaceholderb_app by reflexivity.
    rewrite hasPlaceholderb_app_plain by reflexivity; exact Hdone.
  - intros type'; rewrite needsCalc_eq; simpl; apply andb_false_r.
  - exact Hdone.
  - intros type'; rewrite needsCalc_eq in *; exact E.
Qed.

(** X4. The resolver is idempotent: resolving a resolved text again, under
    any type, returns it unchanged; no second calc( wrapper is added and no
    var(--) call is rewritten. *)
Theorem processStringReferences_idempotent (s : string) (type type' : option json) :
  processStringReferences (processStringReferences s type) type'
  = processStringReferences s type.
Proof.
  destruct (processStringReferences_settled s type) as [Hplain Hcalc].
  unfold processStringReferences at 1.
  rewrite (replaceReferences_fixed _ Hplain), (Hcalc type'); reflexivity.
Qed.

(** X5. A string value without a placeholder reaches the stylesheet as it
    is: the converter and the leaf conversion both return it unchanged,
    whatever the type. *)
Theorem plain_string_verbatim (s : string) (type : option json) (tokenType : json) :
  ~ hasPlaceholder s ->
  convertValue (JStr s) type = Ok (JStr s)
  /\ convertLeafValue (JStr s) tokenType = Ok (JStr s).
Proof.
  intros Hp; apply hasPlaceholderb_false in Hp.
  assert (Hc : forall ty, convertValue (JStr s) ty = Ok (JStr s)).
  { intros ty; simpl; destruct (includes "var(--" s) eqn:E; [reflexivity |].
    rewrite processStringReferences_fixed; [reflexivity | exact Hp |].
    rewrite needsCalc_eq, E, andb_false_r; reflexivity. }
  split; [apply Hc |].
  unfold convertLeafValue; rewrite Hc; simpl.
  destruct (includes "var(--" s) eqn:E; [reflexivity |]; simpl.
  rewrite processStringReferences_fixed; [reflexivity | exact Hp |].
  rewrite needsCalc_eq, E, andb_false_r; reflexivity.
Qed.

Lemma plain_string_verbatim_witness :
  convertValue (JStr "#336699") None = Ok (JStr "#336699")
  /\ convertLeafValue (JStr "#336699") (JStr "color") = Ok (JStr "#336699").
Proof.
  apply plain_string_verbatim.
  intros H; apply hasPlaceholderb_complete in H; discriminate H.
Defined.

(** X6. For a string token the second pass of the flattener through the
    resolver changes nothing: the leaf conversion is the converter's
    result. *)
Theorem string_leaf_second_pass (s : string) (tokenType : json) :
  convertLeafValue (JStr s) tokenType = convertValue (JStr s) (Some tokenType).
Proof.
  unfold convertLeafValue; simpl.
  destruct (includes "var(--" s) eqn:E; simpl; [rewrite E; reflexivity |].
  destruct (includes "var(--" (processStringReferences s (Some tokenType)));
    simpl; [reflexivity |].
  destruct (processStringReferences_settled s (Some tokenType)) as [Hplain Hcalc].
  rewrite (processStringReferences_fixed _ _ Hplain (Hcalc _)); reflexivity.
Qed.

(** ** The JSON fallback *)

Lemma untilClose_closes (x y : string) :
  exists inner after, untilClose (x ++ String "}" y) = Some (inner, after).
Proof.
  induction x as [| c x [inner [after IH]]]; simpl; [eauto |].
  destruct (Ascii.eqb c closeBrace); [eauto |].
  rewrite IH; eauto.
Qed.

Lemma stringify_object (es : list (string * json)) :
  stringify (JObj es)
  = "{" ++ join "," (map (fun kv => quote (fst kv) ++ ":" ++ stringify (snd kv)) es)
        ++ "}".
Proof. reflexivity. Qed.

Lemma stringify_object_placeholder (kv : string * json) (es : list (string * json)) :
  hasPlaceholderb (stringify (JObj (kv :: es))) = true.
Proof.
  rewrite stringify_object; cbn [map]; rewrite join_cons.
  unfold quote at 1.
  set (tail := concatMap _ _).
  set (body := escape (fst kv) ++ String dquote EmptyString).
  change ("{" ++ ((String dquote body ++ ":" ++ stringify (snd kv)) ++ tail) ++ "}")
    with (String "{"
            (String dquote
               (((body ++ ":" ++ stringify (snd kv)) ++ tail) ++ String "}" EmptyString))).
  cbn [hasPlaceholderb untilClose].
  destruct (untilClose_closes ((body ++ ":" ++ stringify (snd kv)) ++ tail) EmptyString)
    as [inner [after ->]].
  reflexivity.
Qed.

(** X7. When the converter falls back to the JSON text of an object, that
    text does not reach the stylesheet: its braces are taken for a
    placeholder, so the leaf conversion returns the rewritten text wrapped
    in calc(...). *)
Theorem json_fallback_is_rewritten (es : list (string * json)) (tokenType : json) :
  es <> [] ->
  convertValue (JObj es) (Some tokenType) = Ok (JStr (stringify (JObj es))) ->
  ~ contains "var(--" (stringify (JObj es)) ->
  hasPlaceholder (stringify (JObj es))
  /\ convertLeafValue (JObj es) tokenType
     = Ok (JStr ("calc(" ++ replaceReferences (stringify (JObj es)) ++ ")")).
Proof.
  intros Hne Hconv Hvar.
  destruct es as [| kv es]; [congruence |].
  pose proof (hasPlaceholderb_sound _ (stringify_object_placeholder kv es)) as Hp.
  split; [exact Hp |].
  unfold convertLeafValue; rewrite Hconv; cbn [bind].
  destruct (includes "var(--" (stringify (JObj (kv :: es)))) eqn:E;
    [exfalso; apply Hvar, includes_spec, E |].
  cbn [negb]; do 2 f_equal.
  unfold processStringReferences.
  pose proof (replaceReferences_var _ Hp) as Hv.
  rewrite needsCalc_eq, Hv, (includes_anyChar isMathChar _ _ Hv eq_refl).
  rewrite startsWith_replaceReferences by reflexivity.
  rewrite stringify_object; reflexivity.
Qed.

Lemma json_fallback_is_rewritten_witness :
  convertLeafValue (JObj [("a", JNum "1")]) (JStr "other")
  = Ok (JStr ("calc(" ++ replaceReferences (stringify (JObj [("a", JNum "1")])) ++ ")")).
Proof.
  refine (proj2 (json_fallback_is_rewritten [("a", JNum "1")] (JStr "other")
                   _ eq_refl _)).
  - discriminate.
  - intros H; apply includes_spec in H; discriminate H.
Defined.

(** ** When the converter throws *)

Lemma mapM_throw_in {A B : Type} (f : A -> result B) (l : list A) (x : A) :
  In x l -> f x = Throw -> mapM f l = Throw.
Proof.
  intros Hin Hx; induction l as [| a l IH]; [destruct Hin |]; simpl.
  destruct Hin as [-> | Hin]; [rewrite Hx; reflexivity |].
  rewrite (IH Hin); destruct (f a); reflexivity.
Qed.

Lemma toStr_throw (v : json) : toStr v = Throw <-> ownsToString v = true.
Proof.
  induction v as [| b | r | s | items IH | es _] using json_ind;
    try (split; discriminate); try (destruct b; split; discriminate).
  - simpl; rewrite existsb_exists; split.
    + intros H.
      destruct (mapM _ items) eqn:E; [discriminate |].
      apply mapM_throw in E; destruct E as [x [Hin Hx]].
      exists x; split; [exact Hin |].
      apply (proj1 (Forall_forall _ _) IH x Hin).
      destruct x; (discriminate Hx || exact Hx).
    + intros [x [Hin Hx]].
      rewrite (mapM_throw_in _ items x Hin); [reflexivity |].
      apply (proj1 (Forall_forall _ _) IH x Hin) in Hx.
      destruct x; (discriminate Hx || exact Hx).
  - simpl; destruct (assoc "toString" es); split; (reflexivity || discriminate).
Qed.

Lemma orDefault_throw (name : string) (value d : json) :
  toStr (orDefault (prop name value) d) = Throw -> toStr d <> Throw ->
  exists x, fieldOf x value /\ toStr x = Throw.
Proof.
  unfold orDefault, fieldOf.
  destruct (prop name value) as [x |] eqn:E; [| congruence].
  destruct (truthy x); [eauto | congruence].
Qed.

Lemma withDefault_throw (name : string) (value d : json) :
  toStr (withDefault (prop name value) d) = Throw -> toStr d <> Throw ->
  exists x, fieldOf x value /\ toStr x = Throw.
Proof.
  unfold fieldOf.
  destruct (prop name value) as [x |] eqn:E; simpl; [eauto | congruence].
Qed.

Lemma pixelsOr_throw (fallback name : string) (value : json) :
  pixelsOr fallback (prop name value) = Throw ->
  exists x, fieldOf x value /\ toStr x = Throw.
Proof.
  unfold pixelsOr; destruct (truthyOpt (prop name value)); [| discriminate].
  intros H; destruct (toStr _) eqn:E; [discriminate H |].
  apply withDefault_throw in E; [exact E | discriminate].
Qed.

Ltac bind_throw H :=
  match type of H with
  | bind ?r _ = Throw =>
      let E := fresh "E" in
      destruct r eqn:E; simpl in H; [clear E |]
  end.

Lemma convertShadowObject_throw (shadow : json) :
  convertShadowObject shadow = Throw ->
  shadow = JNull \/ exists x, fieldOf x shadow /\ toStr x = Throw.
Proof.
  intros H.
  assert (Hgo :
    (xText <- toStr (orDefault (prop "x" shadow) (JNum "0")) ;;
     yText <- toStr (orDefault (prop "y" shadow) (JNum "0")) ;;
     blurText <- toStr (orDefault (prop "blur" shadow) (JNum "0")) ;;
     spreadText <- toStr (orDefault (prop "spread" shadow) (JNum "0")) ;;
     colorText <- toStr (orDefault (prop "color" shadow) (JStr "#000")) ;;
     Ok ((if isString "innerShadow"
               (Some (orDefault (prop "type" shadow) (JStr "dropShadow")))
          then "inset " else EmptyString)
         ++ xText ++ "px " ++ yText ++ "px " ++ blurText ++ "px "
         ++ spreadText ++ "px " ++ colorText))
    = Throw ->
    exists x, fieldOf x shadow /\ toStr x = Throw).
  { clear H; intros H.
    repeat (bind_throw H; [| apply orDefault_throw in E; [exact E | discriminate]]).
    discriminate H. }
  destruct shadow; [left; reflexivity | right; exact (Hgo H) ..].
Qed.

(** The value that a throwing [convertComposite] was given is a list of
    shadows with a [null] in it, or a property of it, or of a shadow in
    it, has no text. *)
Lemma convertComposite_throw (value : json) (type : option json) :
  value <> JNull ->
  convertComposite value type = Throw ->
  (exists items, value = JArr items /\ In JNull items)
  \/ exists x,
       toStr x = Throw
       /\ (fieldOf x value
           \/ exists items item,
                value = JArr items /\ In item items /\ fieldOf x item).
Proof.
  unfold convertComposite; intros Hn H.
  destruct (isString "boxShadow" type || isBoxShadow value).
  - assert (Hone : (s <- convertShadowObject value ;; Ok (JStr s)) = Throw ->
                   exists x, toStr x = Throw /\ fieldOf x value).
    { intros H1; bind_throw H1; [discriminate H1 |].
      apply convertShadowObject_throw in E.
      destruct E as [-> | [x [Hf Hx]]]; [congruence | eauto]. }
    destruct value;
      try (destruct (Hone H) as [x [Hx Hf]]; right; exists x; auto; fail).
    bind_throw H; [discriminate H |].
    apply mapM_throw in E; destruct E as [item [Hin Hx]].
    apply convertShadowObject_throw in Hx.
    destruct Hx as [-> | [x [Hf Hx]]]; [left; eauto |].
    right; exists x; split; [exact Hx |]; right; eauto.
  - right; destruct (isString "border" type).
    + repeat (bind_throw H;
              [| apply withDefault_throw in E; [| discriminate];
                 destruct E as [x [Hf Hx]]; exists x; auto]).
      discriminate H.
    + destruct (isString "typography" type); [| discriminate].
      repeat (bind_throw H;
              [| apply pixelsOr_throw in E;
                 destruct E as [x [Hf Hx]]; exists x; auto]).
      discriminate H.
Qed.

(** X8. The converter throws only on a list of shadows with a null in it
    or on a property without a text: if a conversion throws, the value at
    the end of the chain of value properties is an array that has a null
    element, or a property of it, or of an element of it, cannot be turned
    into text; and a value cannot be turned into text exactly when,
    through arrays, it holds an object with a property toString of its
    own. *)
Theorem convertValue_throws_only_when (v : json) :
  (forall type,
      convertValue v type = Throw ->
      (exists items, innermostValue v = JArr items /\ In JNull items)
      \/ exists x,
           toStr x = Throw
           /\ (fieldOf x (innermostValue v)
               \/ exists items item,
                    innermostValue v = JArr items /\ In item items
                    /\ fieldOf x item))
  /\ (toStr v = Throw <-> ownsToString v = true).
Proof.
  split; [| apply toStr_throw].
  induction v as [| b | r | s | items _ | es IH] using json_ind; intros type H;
    try discriminate H.
  - simpl in H; destruct (_ || _); discriminate H.
  - simpl in H; destruct (includes "var(--" s); discriminate H.
  - apply (convertComposite_throw (JArr items) type); [discriminate | exact H].
  - simpl in H; simpl innermostValue.
    rewrite assocWith_assoc in H; rewrite assocWith_assoc.
    destruct (assoc "value" es) as [inner |] eqn:E; simpl in *.
    + apply assoc_in in E.
      exact (proj1 (Forall_forall _ _) IH _ E _ H).
    + apply (convertComposite_throw (JObj es) type); [discriminate | exact H].
Qed.

Lemma convertValue_throws_only_when_witness :
  (exists items,
      innermostValue (JObj [("value", JObj [("width", JObj [("toString", JNum "1")])]);
                            ("type", JStr "border")])
      = JArr items
      /\ In JNull items)
  \/ exists x,
       toStr x = Throw
       /\ (fieldOf x
             (innermostValue
                (JObj [("value", JObj [("width", JObj [("toString", JNum "1")])]);
                       ("type", JStr "border")]))
           \/ exists items item,
                innermostValue
                  (JObj [("value", JObj [("width", JObj [("toString", JNum "1")])]);
                         ("type", JStr "border")])
                = JArr items
                /\ In item items /\ fieldOf x item).
Proof.
  exact (proj1 (convertValue_throws_only_when
                  (JObj [("value", JObj [("width", JObj [("toString", JNum "1")])]);
                         ("type", JStr "border")]))
           None eq_refl).
Defined.

(** X9. The converter never returns an array, and an object it returns is
    a typography mapping with the five properties font-family, font-size,
    font-weight, line-height and letter-spacing, in that order. *)
Theorem convertValue_result_kind (v : json) (type : option json) (c : json) :
  convertValue v type = Ok c ->
  match c with
  | JArr _ => False
  | JObj props => map fst props = typographyProperties
  | _ => True
  end.
Proof. apply convertValue_kind. Qed.

Lemma convertValue_result_kind_witness :
  map fst
    [("font-family", JStr "{font.family}"); ("font-size", JStr "16px");
     ("font-weight", JStr "inherit"); ("line-height", JStr "inherit");
     ("letter-spacing", JStr "normal")]
  = typographyProperties.
Proof.
  exact (convertValue_result_kind
           (JObj [("fontFamily", JStr "{font.family}"); ("fontSize", JNum "16")])
           (Some (JStr "typography")) _ eq_refl).
Defined.

(** ** What flattening adds *)

Lemma addsShaped_refl (c : categories) : addsShaped c c.
Proof.
  intros k; exists [], []; rewrite !app_nil_r; repeat split; constructor.
Qed.

Lemma addsShaped_trans (a b c : categories) :
  addsShaped a b -> addsShaped b c -> addsShaped a c.
Proof.
  intros Hab Hbc k.
  destruct (Hab k) as [vs1 [ms1 [Hv1 [Hm1 [Fv1 Fm1]]]]].
  destruct (Hbc k) as [vs2 [ms2 [Hv2 [Hm2 [Fv2 Fm2]]]]].
  exists (vs1 ++ vs2)%list, (ms1 ++ ms2)%list.
  rewrite Hv2, Hv1, Hm2, Hm1, !app_assoc.
  repeat split; apply Forall_app; auto.
Qed.

Lemma pushMixin_mixins (key mixin : string) (c c' : categories) :
  pushMixin key mixin c = Ok c' ->
  mixinsOf key c' = (mixinsOf key c ++ [mixin])%list
  /\ forall k, k <> key -> mixinsOf k c' = mixinsOf k c.
Proof.
  unfold pushMixin, mixinsOf.
  destruct (JsObj.get key c) as [x |] eqn:E; [| discriminate].
  intros H; injection H as <-.
  assert (Hh : JsObj.has key c = true) by (unfold JsObj.has; rewrite E; reflexivity).
  rewrite (get_update_same _ _ _ Hh); simpl.
  split; [reflexivity |].
  intros k Hne; rewrite get_update_other by assumption; reflexivity.
Qed.

Lemma addsShaped_ensure (baseName : string) (c : categories) :
  addsShaped c (ensureCategory (categoryKeyOf baseName) c).
Proof.
  intros k; exists [], []; rewrite !app_nil_r.
  destruct (varsOf_ensureCategory baseName k c) as [-> ->].
  repeat split; constructor.
Qed.

Lemma addsShaped_pushVariable (key line : string) (c c' : categories) :
  declarationShape line -> pushVariable key line c = Ok c' -> addsShaped c c'.
Proof.
  intros Hs H k; apply pushVariable_vars in H; destruct H as [Hv [Hm Ho]].
  destruct (string_dec k key) as [-> | Hne].
  - exists [line], []; rewrite Hv, Hm, app_nil_r.
    repeat split; repeat constructor; exact Hs.
  - destruct (Ho k Hne) as [-> ->]; exists [], []; rewrite !app_nil_r.
    repeat split; constructor.
Qed.

Lemma addsShaped_pushMixin (key mixin : string) (c c' : categories) :
  mixinShape mixin -> pushMixin key mixin c = Ok c' -> addsShaped c c'.
Proof.
  intros Hs H k.
  pose proof (pushMixin_vars _ _ _ _ H k) as Hv.
  apply pushMixin_mixins in H; destruct H as [Hm Ho].
  destruct (string_dec k key) as [-> | Hne].
  - exists [], [mixin]; rewrite Hv, Hm, app_nil_r.
    repeat split; repeat constructor; exact Hs.
  - rewrite (Ho k Hne), Hv; exists [], []; rewrite !app_nil_r.
    repeat split; constructor.
Qed.

Lemma declaration_shape (name text : string) :
  declarationShape (declaration name text).
Proof.
  exists (name ++ ": " ++ text); unfold declaration.
  rewrite !append_assoc; reflexivity.
Qed.

Lemma typographyVariable_shape (name : string) (pt : string * string) :
  declarationShape (typographyVariable name pt).
Proof.
  exists (name ++ "-" ++ replaceFirst "font-" EmptyString (fst pt)
               ++ ": " ++ snd pt).
  unfold typographyVariable; rewrite !append_assoc; reflexivity.
Qed.

Lemma addsShaped_pushTypographyVariables (key tokenName : string)
  (props : list (string * json)) :
  forall c c',
    pushTypographyVariables key tokenName props c = Ok c' -> addsShaped c c'.
Proof.
  induction props as [| [prop val] props IH]; simpl; intros c c' H.
  - injection H as <-; apply addsShaped_refl.
  - bind_ok H; bind_ok H.
    eapply addsShaped_trans; [eapply addsShaped_pushVariable | eapply IH]; eauto.
    apply typographyVariable_shape.
Qed.

Lemma json_null_dec (v : json) : v = JNull \/ v <> JNull.
Proof. destruct v; (left; reflexivity) || (right; discriminate). Qed.

Lemma flattenLeaf_addsShaped (value : json) (baseName : string) (path : string)
  (c c' : categories) :
  flattenLeaf value baseName c path = Ok c' -> addsShaped c c'.
Proof.
  intros H.
  apply addsShaped_trans with (1 := addsShaped_ensure baseName c).
  destruct (resolvedValue value) as [tokenValue |] eqn:Ev;
    [| unfold flattenLeaf in H; rewrite Ev in H; injection H as <-;
       apply addsShaped_refl].
  destruct (json_null_dec tokenValue) as [-> | Hn];
    [unfold flattenLeaf in H; rewrite Ev in H; injection H as <-;
     apply addsShaped_refl |].
  rewrite (flattenLeaf_nonnull _ _ _ _ _ Ev Hn) in H.
  bind_ok H.
  destruct (typographyMapping (resolvedType value) a).
  - bind_ok H; bind_ok H; bind_ok H.
    eapply addsShaped_trans.
    + eapply addsShaped_pushMixin; [| exact E2].
      exists (path ++ " {" ++ nl ++ a1).
      rewrite !append_assoc; reflexivity.
    + eapply addsShaped_pushTypographyVariables; exact H.
  - bind_ok H.
    eapply addsShaped_pushVariable; [apply declaration_shape | exact H].
Qed.

Lemma flattenValue_addsShaped (baseName : string) (value : json) :
  forall path c c',
    flattenValue baseName value path c = Ok c' -> addsShaped c c'.
Proof.
  induction value as [| b | r | s | items _ | es IH] using json_ind;
    intros path c c' H; rewrite flattenValue_eq in H;
    (destruct (isLeafToken _); [eapply flattenLeaf_addsShaped; eauto |]);
    try (injection H as ->; apply addsShaped_refl).
  eapply (flattenEntries_rel addsShaped addsShaped_refl addsShaped_trans); eauto.
Qed.

Lemma flattenTokens_addsShaped (obj : json) (baseName : string) (prefix : string)
  (c c' : categories) :
  flattenTokens obj baseName c prefix = Ok c' -> addsShaped c c'.
Proof.
  unfold flattenTokens; intros H; bind_ok H.
  eapply (flattenEntries_rel addsShaped addsShaped_refl addsShaped_trans);
    [| exact H].
  apply Forall_forall; intros kv _ path; apply flattenValue_addsShaped.
Qed.

Lemma flattenDocument_addsShaped (es : list (string * json)) :
  forall c c', flattenDocument es c = Ok c' -> addsShaped c c'.
Proof.
  induction es as [| [name tokens] es IH]; simpl; intros c c' H.
  - injection H as <-; apply addsShaped_refl.
  - destruct (skippedCategory name); [eauto |].
    bind_ok H.
    eapply addsShaped_trans; [eapply flattenTokens_addsShaped | eapply IH]; eauto.
Qed.

(** X10. Flattening only appends: after the loop over a document, every
    category holds the declarations and the mixins it held before, in the
    same order, with the new ones behind them; categories of the same key
    met again are continued, never reset. *)
Theorem flattening_only_appends (es : list (string * json)) (c c' : categories) :
  flattenDocument es c = Ok c' -> extends c c'.
Proof.
  intros H k; destruct (flattenDocument_addsShaped es c c' H k)
    as [vs [ms [Hv [Hm _]]]]; eauto.
Qed.

Lemma flattening_only_appends_witness :
  extends [("palette", mkCategory ["--accent: #00ff00;"] [])]
          [("palette", mkCategory ["--accent: #00ff00;"; "--accent: #ff0000;"] [])].
Proof.
  exact (flattening_only_appends
           [("Palette", JObj [("accent", colorLeaf "#ff0000")])]
           [("palette", mkCategory ["--accent: #00ff00;"] [])] _ eq_refl).
Defined.

(** X11. Every declaration that a run records starts with two hyphens and
    ends with a semicolon, and every mixin it records starts with "@mixin "
    and ends with a closing brace. *)
Theorem collected_lines_shaped (tokens : json) (cats : categories) :
  collectCategories tokens = Ok cats ->
  forall k c,
    In (k, c) cats ->
    Forall declarationShape (variables c) /\ Forall mixinShape (mixins c).
Proof.
  intros H k c Hin.
  destruct (collectCategories_keys _ _ H) as [Hnd _].
  unfold collectCategories in H; bind_ok H.
  destruct (flattenDocument_addsShaped _ _ _ H k) as [vs [ms [Hv [Hm [Fv Fm]]]]].
  unfold varsOf, mixinsOf in Hv, Hm.
  rewrite (get_in _ _ _ Hnd Hin) in Hv, Hm; simpl in Hv, Hm.
  rewrite Hv, Hm; auto.
Qed.

Lemma collected_lines_shaped_witness :
  Forall declarationShape ["--accent: #00ff00;"] /\ Forall mixinShape [].
Proof.
  exact (collected_lines_shaped (JObj privateEntries) _ eq_refl "palette"
           (mkCategory ["--accent: #00ff00;"] []) (or_introl eq_refl)).
Defined.

(** ** The typography branch *)

Lemma pushMixin_settled (baseName mixin : string) (c : categories) :
  inheritedKey (categoryKeyOf baseName) = false ->
  settledAt (categoryKeyOf baseName) c = true ->
  exists c',
    pushMixin (categoryKeyOf baseName) mixin c = Ok c'
    /\ settledAt (categoryKeyOf baseName) c' = true.
Proof.
  intros Hi Hs.
  assert (Hget : exists x, JsObj.get (categoryKeyOf baseName) c = Some x).
  { unfold settledAt, JsObj.has in Hs; rewrite Hi in Hs; simpl in Hs.
    destruct (JsObj.get (categoryKeyOf baseName) c); [eauto | discriminate]. }
  destruct Hget as [x Hx]; unfold pushMixin; rewrite Hx.
  eexists; split; [reflexivity |].
  apply (settled_keys baseName c); [apply keys_update | exact Hs].
Qed.

Lemma propertyTexts_cons (prop : string) (val : json)
  (rest : list (string * json)) :
  propertyTexts ((prop, val) :: rest)
  = (text <- toStr val ;;
     texts <- propertyTexts rest ;;
     Ok ((prop, text) :: texts)).
Proof. unfold propertyTexts; simpl; destruct (toStr val); reflexivity. Qed.

(** The two loops over the properties, by the texts of the values *)
Lemma mixinBody_texts (props : list (string * json)) :
  mixinBody props
  = (texts <- propertyTexts props ;; Ok (concatMap mixinLine texts)).
Proof.
  induction props as [| [prop val] props IH]; [reflexivity |].
  rewrite propertyTexts_cons; simpl.
  destruct (toStr val); simpl; [| reflexivity].
  rewrite IH; destruct (propertyTexts props); reflexivity.
Qed.

Lemma pushTypographyVariables_settled (baseName tokenName : string)
  (props : list (string * json)) :
  inheritedKey (categoryKeyOf baseName) = false ->
  forall texts c,
    propertyTexts props = Ok texts ->
    settledAt (categoryKeyOf baseName) c = true ->
    exists c',
      pushTypographyVariables (categoryKeyOf baseName) tokenName props c = Ok c'
      /\ varsOf (categoryKeyOf baseName) c'
         = (varsOf (categoryKeyOf baseName) c
              ++ map (typographyVariable tokenName) texts)%list
      /\ mixinsOf (categoryKeyOf baseName) c' = mixinsOf (categoryKeyOf baseName) c.
Proof.
  intros Hi; induction props as [| [prop val] props IH]; intros texts c Ht Hs.
  - injection Ht as <-; exists c; simpl; rewrite app_nil_r; auto.
  - rewrite propertyTexts_cons in Ht; bind_ok Ht; bind_ok Ht; injection Ht as <-.
    simpl; rewrite E; simpl.
    destruct (pushVariable_settled _ (typographyVariable tokenName (prop, a)) c Hi Hs)
      as [c1 H1]; rewrite H1; simpl.
    pose proof (settled_keys baseName c c1 (pushVariable_keys _ _ _ _ H1) Hs) as Hs1.
    destruct (IH a0 c1 eq_refl Hs1) as [c' [H [Hv Hm]]].
    apply pushVariable_vars in H1; destruct H1 as [Hv1 [Hm1 _]].
    exists c'; rewrite Hv, Hm, Hv1, Hm1, <- app_assoc; auto.
Qed.

(** X12. A typography token whose value converts to a property mapping has
    the five properties.  When every property value has a text, the token
    adds exactly one mixin, named after the token and listing the five
    properties with these texts, and one declaration per property, named
    after the token and the property without its font- prefix.  When some
    property value has no text, flattening the token throws. *)
Theorem typography_leaf_adds (baseName : string) (value tokenValue : json)
  (props : list (string * json)) (path : string) (c : categories) :
  isLeafToken value = true ->
  resolvedValue value = Some tokenValue ->
  convertLeafValue tokenValue (resolvedType value) = Ok (JObj props) ->
  resolvedType value = JStr "typography" ->
  inheritedKey (categoryKeyOf baseName) = false ->
  map fst props = typographyProperties
  /\ (propertyTexts props = Throw ->
      flattenValue baseName value path c = Throw)
  /\ (forall texts,
         propertyTexts props = Ok texts ->
         exists c',
           flattenValue baseName value path c = Ok c'
           /\ varsOf (categoryKeyOf baseName) c'
              = (varsOf (categoryKeyOf baseName) c
                   ++ map (typographyVariable path) texts)%list
           /\ mixinsOf (categoryKeyOf baseName) c'
              = (mixinsOf (categoryKeyOf baseName) c
                   ++ [("@mixin " ++ path ++ " {" ++ nl
                          ++ concatMap mixinLine texts ++ "}")%string])%list).
Proof.
  intros Hleaf Hv Hconv Hty Hi.
  assert (Hn : tokenValue <> JNull).
  { intros ->; unfold convertLeafValue in Hconv; simpl in Hconv; discriminate. }
  assert (Hflat :
    flattenValue baseName value path c
    = (body <- mixinBody props ;;
       cats <- pushMixin (categoryKeyOf baseName)
                 ("@mixin " ++ path ++ " {" ++ nl ++ body ++ "}")
                 (ensureCategory (categoryKeyOf baseName) c) ;;
       pushTypographyVariables (categoryKeyOf baseName) path props cats)).
  { rewrite flattenValue_eq, Hleaf, (flattenLeaf_nonnull _ _ _ _ _ Hv Hn), Hconv.
    cbn [bind]; unfold typographyMapping; rewrite Hty; cbn [isString isObjectType].
    rewrite String.eqb_refl; reflexivity. }
  split; [exact (convertLeafValue_kind _ _ _ Hconv) |].
  rewrite Hflat, mixinBody_texts; split.
  - intros ->; reflexivity.
  - intros texts Ht; rewrite Ht; cbn [bind].
    destruct (pushMixin_settled baseName
                ("@mixin " ++ path ++ " {" ++ nl ++ concatMap mixinLine texts ++ "}")
                _ Hi (settled_ensureCategory baseName c)) as [c1 [H1 Hs1]].
    rewrite H1; cbn [bind].
    destruct (pushTypographyVariables_settled baseName path props Hi texts c1 Ht Hs1)
      as [c' [H2 [Hvars Hmix]]].
    exists c'; split; [exact H2 |].
    pose proof (pushMixin_vars _ _ _ _ H1 (categoryKeyOf baseName)) as Hv1.
    apply pushMixin_mixins in H1; destruct H1 as [Hm1 _].
    destruct (varsOf_ensureCategory baseName (categoryKeyOf baseName) c) as [He1 He2].
    rewrite Hvars, Hmix, Hv1, Hm1, He1, He2; auto.
Qed.

Lemma typography_leaf_adds_witness :
  exists c',
    flattenValue "Typography" headingLargeLeaf "heading-large" [] = Ok c'
    /\ List.length (varsOf "typography" c') = 5
    /\ List.length (mixinsOf "typography" c') = 1.
Proof.
  destruct (proj2 (proj2
              (typography_leaf_adds "Typography" headingLargeLeaf
                 (JObj [("fontFamily", JStr "Arial"); ("fontSize", JNum "16");
                        ("fontWeight", JNum "700"); ("lineHeight", JNum "1.5");
                        ("letterSpacing", JNum "2")])
                 [("font-family", JStr "Arial"); ("font-size", JStr "16px");
                  ("font-weight", JNum "700"); ("line-height", JNum "1.5");
                  ("letter-spacing", JStr "2px")]
                 "heading-large" [] eq_refl eq_refl eq_refl eq_refl eq_refl))
              [("font-family", "Arial"); ("font-size", "16px");
               ("font-weight", "700"); ("line-height", "1.5");
               ("letter-spacing", "2px")]
              eq_refl)
    as [c' [H [Hv Hm]]].
  exists c'; split; [exact H |].
  change (categoryKeyOf "Typography") with "typography" in Hv, Hm.
  rewrite Hv, Hm; split; reflexivity.
Defined.

(** ** The fix-up applied twice *)

Lemma join_split (s : string) : join nl (split lf s) = s.
Proof.
  induction s as [| c s IH]; [reflexivity |].
  simpl split; destruct (Ascii.eqb c lf) eqn:E.
  - apply Ascii.eqb_eq in E; subst c.
    pose proof (split_nonempty lf s) as Hne.
    destruct (split lf s) as [| h t]; [congruence |].
    change (join nl (EmptyString :: h :: t)) with (String lf (join nl (h :: t))).
    rewrite IH; reflexivity.
  - pose proof (split_nonempty lf s) as Hne.
    destruct (split lf s) as [| h t]; [congruence |].
    rewrite <- IH; destruct t; reflexivity.
Qed.

Lemma fixLine_idempotent (line : string) : fixLine (fixLine line) = fixLine line.
Proof.
  unfold fixLine; destruct (keptLine line) eqn:E; [rewrite E; reflexivity |].
  destruct (keptLine (replaceReferences line)); [reflexivity |].
  apply replaceReferences_fixed, replaceReferencesFrom_done.
Qed.

Lemma globalFixReferences_eq (content : string) :
  globalFixReferences content = join nl (map fixLine (split lf content)).
Proof. reflexivity. Qed.

Lemma map_fixed {A : Type} (f : A -> A) (l : list A) :
  (forall x, In x l -> f x = x) -> map f l = l.
Proof.
  induction l as [| a l IH]; simpl; intros H; [reflexivity |].
  rewrite H, IH; auto.
Qed.

(** X13. The documents that the fix-up returns unchanged are exactly those
    with no placeholder on a line it processes; in particular the fix-up is
    idempotent. *)
Theorem globalFixReferences_fixed_points (content : string) :
  (globalFixReferences content = content <-> sweptDocument content)
  /\ globalFixReferences (globalFixReferences content)
     = globalFixReferences content.
Proof.
  assert (Hfix : forall c, sweptDocument c -> globalFixReferences c = c).
  { intros c Hs; rewrite globalFixReferences_eq, map_fixed; [apply join_split |].
    intros line Hin; unfold fixLine; destruct (keptLine line) eqn:E; [reflexivity |].
    apply replaceReferences_fixed, hasPlaceholderb_false, Hs; assumption. }
  split.
  - split; [intros <-; apply globalFixReferences_swept | apply Hfix].
  - apply Hfix, globalFixReferences_swept.
Qed.

(** ** The written files *)

Lemma append_length (a b : string) :
  String.length (a ++ b) = String.length a + String.length b.
Proof. induction a as [| c a IH]; simpl; [| rewrite IH]; reflexivity. Qed.

Lemma append_inv_tail (a b s : string) : a ++ s = b ++ s -> a = b.
Proof.
  revert b; induction a as [| c a IH]; intros b H.
  - destruct b as [| d b]; [reflexivity |].
    apply (f_equal String.length) in H; rewrite !append_length in H.
    simpl in H; lia.
  - destruct b as [| d b].
    + apply (f_equal String.length) in H; rewrite !append_length in H.
      simpl in H; lia.
    + simpl in H; injection H as -> H; rewrite (IH b H); reflexivity.
Qed.

Lemma mapChars_mapChars (f g : ascii -> ascii) (s : string) :
  mapChars f (mapChars g s) = mapChars (fun c => f (g c)) s.
Proof. induction s as [| c s IH]; simpl; [| rewrite IH]; reflexivity. Qed.

Lemma mapChars_ext (f g : ascii -> ascii) (s : string) :
  (forall c, f c = g c) -> mapChars f s = mapChars g s.
Proof.
  intros H; induction s as [| c s IH]; simpl; [| rewrite H, IH]; reflexivity.
Qed.

Lemma categoryKey_char (c : ascii) :
  let key := fun x => toLowerChar (if isSlash x then hyphen else x) in
  key (key c) = key c.
Proof. destruct c as [[] [] [] [] [] [] [] []]; reflexivity. Qed.

Lemma categoryKeyOf_idempotent (name : string) :
  categoryKeyOf (categoryKeyOf name) = categoryKeyOf name.
Proof.
  unfold categoryKeyOf, slashesToHyphens, toLowerCase.
  rewrite !mapChars_mapChars; apply mapChars_ext; intros c.
  apply (categoryKey_char c).
Qed.

Lemma collectCategories_safe_keys (tokens : json) (cats : categories) :
  collectCategories tokens = Ok cats ->
  keysAll (fun k => safeName k = k) cats.
Proof.
  unfold collectCategories; intros H; bind_ok H.
  eapply flattenDocument_keysAll; [| exact H | intros k []].
  intros name _ _; apply categoryKeyOf_idempotent.
Qed.

Lemma componentPath_injective (a b : string) :
  safeName a = a -> safeName b = b -> componentPath a = componentPath b -> a = b.
Proof.
  unfold componentPath; intros -> -> H.
  apply append_inv_head in H; apply append_inv_tail in H; exact H.
Qed.

Lemma generateBaseFile_paths (cats : categories) :
  NoDup (map fst (generateBaseFile cats))
  /\ forall path, In path (map fst (generateBaseFile cats)) -> beginsWith "base/" path.
Proof.
  unfold generateBaseFile.
  destruct (lightTokens _), (darkTokens _); simpl; split;
    try (repeat constructor; simpl; intuition discriminate);
    intros path H;
    repeat (destruct H as [<- | H]; [eexists; reflexivity |]); destruct H.
Qed.

(** X14. A run never writes two files to the same path: the paths of the
    base documents, of the component documents and of the index are
    pairwise different. *)
Theorem generateSCSS_paths_distinct (tokens : json) (files : list file) :
  generateSCSS tokens = Ok files -> NoDup (map fst files).
Proof.
  unfold generateSCSS; intros H; bind_ok H; injection H as <-.
  destruct (collectCategories_keys _ _ E) as [Hnd _].
  pose proof (collectCategories_safe_keys _ _ E) as Hsafe.
  destruct (generateBaseFile_paths a) as [Hbase Hpre].
  assert (Hpaths : map fst (emitFiles a)
                   = (map fst (generateBaseFile a)
                        ++ map (fun kc : string * category => componentPath (fst kc)) a
                        ++ ["index.scss"])%list)
    by (unfold emitFiles; rewrite !map_app, map_map; reflexivity).
  rewrite Hpaths; clear Hpaths.
  assert (Hcomp : forall path,
             In path (map (fun kc : string * category => componentPath (fst kc)) a) ->
             beginsWith "components/" path).
  { intros path Hin; apply in_map_iff in Hin; destruct Hin as [kc [<- _]].
    eexists; reflexivity. }
  apply NoDup_app; [exact Hbase | apply NoDup_app |].
  - unfold JsObj.keys in Hnd; revert Hnd Hsafe; clear.
    induction a as [| [k c] a IH]; simpl; intros Hnd Hsafe; [constructor |].
    inversion Hnd as [| ? ? Hout Hnd']; subst.
    constructor.
    + intros Hin; apply in_map_iff in Hin; destruct Hin as [[k' c'] [Heq Hin]].
      simpl in Heq; apply componentPath_injective in Heq.
      * subst k'; apply Hout; change k with (fst (k, c')); apply in_map, Hin.
      * apply Hsafe; right; change k' with (fst (k', c')); apply in_map, Hin.
      * apply Hsafe; left; reflexivity.
    + apply IH; [exact Hnd' |].
      intros k' Hk'; apply Hsafe; right; exact Hk'.
  - constructor; [intros [] | constructor].
  - intros path Hin [<- | []]; destruct (Hcomp _ Hin) as [r Hr]; discriminate Hr.
  - intros path Hin Hin'; destruct (Hpre _ Hin) as [r ->].
    apply in_app_iff in Hin'; destruct Hin' as [Hin' | [Hin' | []]].
    + destruct (Hcomp _ Hin') as [r' Hr]; discriminate Hr.
    + discriminate Hin'.
Qed.

Lemma generateSCSS_paths_distinct_witness :
  NoDup ["base/_variables.scss"; "components/_palette.scss"; "index.scss"].
Proof.
  exact (generateSCSS_paths_distinct (JObj privateEntries) _ eq_refl).
Defined.

(** ** Theme documents and their imports *)

Lemma partitionInto_none (t : theme) (cats : categories) :
  forall p,
    (forall k, In k (JsObj.keys cats) -> themeOf k <> t) ->
    bucketOf t (partitionInto cats p) = bucketOf t p.
Proof.
  induction cats as [| [k c] rest IH]; intros p H; [reflexivity |].
  destruct (partitionInto_step t k c rest p) as [p' [-> Hb]].
  rewrite IH, Hb by (intros k' Hk'; apply H; right; exact Hk').
  assert (Hk : themeOf k <> t) by (apply H; left; reflexivity).
  destruct t, (themeOf k); simpl; congruence.
Qed.

Lemma theme_present_dec (t : theme) (keys : list string) :
  (exists k, In k keys /\ themeOf k = t)
  \/ (forall k, In k keys -> themeOf k <> t).
Proof.
  induction keys as [| k keys [[k' [Hin Hk]] | IH]].
  - right; intros k [].
  - left; exists k'; split; [right |]; assumption.
  - assert (Hd : themeOf k = t \/ themeOf k <> t)
      by (destruct (themeOf k), t; (left; reflexivity) || (right; discriminate)).
    destruct Hd as [Hd | Hd].
    + left; exists k; split; [left; reflexivity | exact Hd].
    + right; intros k' [<- | Hin]; auto.
Qed.

Lemma bucket_nonempty_iff (t : theme) (tokens : json) (cats : categories) :
  collectCategories tokens = Ok cats ->
  (bucketOf t (partitionCategories cats) <> []
   <-> exists k, In k (JsObj.keys cats) /\ themeOf k = t).
Proof.
  intros Hc; destruct (collectCategories_keys _ _ Hc) as [Hnd [Hinh _]].
  split.
  - intros Hne; destruct (theme_present_dec t (JsObj.keys cats)) as [H | H];
      [exact H |].
    exfalso; apply Hne; unfold partitionCategories.
    rewrite partitionInto_none by exact H; destruct t; reflexivity.
  - intros [k [Hin Hk]] Hempty.
    unfold JsObj.keys in Hin; apply in_map_iff in Hin.
    destruct Hin as [[k' c] [Heq Hin]]; simpl in Heq; subst k'.
    assert (Hne : k <> "__proto__").
    { intros ->.
      assert (H : inheritedKey "__proto__" = false)
        by (apply Hinh; change "__proto__" with (fst ("__proto__", c));
            apply in_map, Hin).
      discriminate H. }
    pose proof (partitionInto_present t k c cats (mkPartition [] [] []) Hnd Hin Hne)
      as Hget.
    fold (partitionCategories cats) in Hget; rewrite Hempty, Hk in Hget.
    destruct t; discriminate Hget.
Qed.

Lemma theme_path_written (cats : categories) :
  (In "base/_light.scss" (map fst (emitFiles cats))
   <-> lightTokens (partitionCategories cats) <> [])
  /\ (In "base/_dark.scss" (map fst (emitFiles cats))
      <-> darkTokens (partitionCategories cats) <> []).
Proof.
  assert (Hpaths : forall path,
             In path (map fst (emitFiles cats)) ->
             beginsWith "base/" path ->
             In path (map fst (generateBaseFile cats))).
  { intros path Hin [r ->]; unfold emitFiles in Hin.
    rewrite !map_app, !in_app_iff, map_map in Hin.
    destruct Hin as [Hin | [Hin | [Hin | []]]]; [exact Hin | | discriminate Hin].
    apply in_map_iff in Hin; destruct Hin as [kc [Heq _]]; discriminate Heq. }
  assert (Hback : forall path,
             In path (map fst (generateBaseFile cats)) ->
             In path (map fst (emitFiles cats))).
  { intros path Hin; unfold emitFiles; rewrite map_app, in_app_iff; auto. }
  split; (split;
    [intros Hin; apply Hpaths in Hin; [| eexists; reflexivity] | intros Hne; apply Hback]);
    unfold generateBaseFile in *;
    destruct (lightTokens (partitionCategories cats)),
      (darkTokens (partitionCategories cats));
    simpl in *; try congruence; try discriminate;
    intuition discriminate.
Qed.

(** X15. The light (dark) theme document is written exactly when the name
    of some category contains "light" ("dark" and not "light"), while the
    index document imports base/light and base/dark in every run, also when
    no such document is written. *)
Theorem theme_documents_written (tokens : json) (cats : categories) :
  collectCategories tokens = Ok cats ->
  (In "base/_light.scss" (map fst (emitFiles cats))
   <-> exists k, In k (JsObj.keys cats) /\ themeOf k = Light)
  /\ (In "base/_dark.scss" (map fst (emitFiles cats))
      <-> exists k, In k (JsObj.keys cats) /\ themeOf k = Dark)
  /\ exists index,
       In ("index.scss", index) (emitFiles cats)
       /\ contains (themeImportLine "light") index
       /\ contains (themeImportLine "dark") index.
Proof.
  intros Hc; destruct (theme_path_written cats) as [Hl Hd].
  split; [rewrite Hl; apply (bucket_nonempty_iff Light _ _ Hc) |].
  split; [rewrite Hd; apply (bucket_nonempty_iff Dark _ _ Hc) |].
  exists (snd (generateIndexFile (JsObj.keys cats))); split.
  - unfold emitFiles; rewrite !in_app_iff; right; right; left; reflexivity.
  - split.
    + exists ("// Design Tokens - Main Index" ++ nl
              ++ "// Automatically generated from Figma tokens" ++ nl ++ nl
              ++ "// Base files" ++ nl ++ "@import 'base/variables';" ++ nl).
      eexists; reflexivity.
    + exists ("// Design Tokens - Main Index" ++ nl
              ++ "// Automatically generated from Figma tokens" ++ nl ++ nl
              ++ "// Base files" ++ nl ++ "@import 'base/variables';" ++ nl
              ++ "@import 'base/light';" ++ nl).
      eexists; reflexivity.
Qed.

Lemma theme_documents_written_witness :
  In "base/_light.scss"
     (map fst (emitFiles [("dark on light", mkCategory ["--surface: #101010;"] [])]))
  /\ ~ In "base/_dark.scss"
       (map fst (emitFiles [("dark on light", mkCategory ["--surface: #101010;"] [])])).
Proof.
  destruct (theme_documents_written bothThemesDoc
              [("dark on light", mkCategory ["--surface: #101010;"] [])] eq_refl)
    as [Hl [Hd _]].
  split.
  - apply Hl; exists "dark on light"; split; [left |]; reflexivity.
  - intros H; apply Hd in H; destruct H as [k [[<- | []] Hk]]; discriminate Hk.
Defined.

(** ** The theme suffix of a declaration *)

Lemma untilColon_app (p r : string) :
  allChars notColon p = true -> untilColon (p ++ String ":" r) = Some (p, r).
Proof.
  induction p as [| c p IH]; simpl; intros H; [reflexivity |].
  unfold notColon at 1 in H; bool_to_prop; rewrite H, IH; auto.
Qed.

Lemma startsWith_untilColon (q s : string) :
  allChars notColon q = true ->
  startsWith (q ++ ":") s = true ->
  exists r, untilColon s = Some (q, r).
Proof.
  intros Hq H; apply startsWith_spec in H; destruct H as [r ->].
  exists r; rewrite append_assoc; apply untilColon_app, Hq.
Qed.

Lemma stripThemeSuffix_cons (c : ascii) (s : string) :
  startsWith "-light:" (String c s) = false ->
  startsWith "-dark:" (String c s) = false ->
  stripThemeSuffix (String c s) = String c (stripThemeSuffix s).
Proof.
  intros Hl Hd.
  change (stripThemeSuffix (String c s))
    with (if startsWith "-light:" (String c s) then drop 6 (String c s)
          else if startsWith "-dark:" (String c s) then drop 5 (String c s)
               else String c (stripThemeSuffix s)).
  rewrite Hl, Hd; reflexivity.
Qed.

(** No theme suffix starts inside a name that ends before the first
    colon. *)
Lemma no_suffix_inside (c : ascii) (name suffix rest : string) (q : string) :
  allChars notColon (String c name ++ suffix) = true ->
  allChars notColon q = true ->
  String c name ++ suffix <> q ->
  startsWith (q ++ ":") (String c name ++ suffix ++ String ":" rest) = false.
Proof.
  intros Hn Hq Hne.
  destruct (startsWith (q ++ ":") (String c name ++ suffix ++ String ":" rest)) eqn:E;
    [| reflexivity].
  apply (startsWith_untilColon q _ Hq) in E; destruct E as [r E].
  rewrite <- append_assoc, (untilColon_app _ rest Hn) in E.
  injection E as E _; exfalso; apply Hne; exact E.
Qed.

(** X16. In a theme document a declaration whose name ends with -light or
    -dark right before the first colon loses that suffix, whatever theme
    words the name has further left; a text with neither "-light:" nor
    "-dark:" in it is written unchanged. *)
Theorem stripThemeSuffix_behaviour (name rest : string) :
  (allChars notColon name = true ->
   stripThemeSuffix (name ++ "-light:" ++ rest) = name ++ ":" ++ rest
   /\ stripThemeSuffix (name ++ "-dark:" ++ rest) = name ++ ":" ++ rest)
  /\ (~ contains "-light:" rest -> ~ contains "-dark:" rest ->
      stripThemeSuffix rest = rest).
Proof.
  split; [intros Hn; split |].
  - induction name as [| c name IH]; [reflexivity |].
    assert (Hn' : allChars notColon name = true)
      by (simpl in Hn; apply andb_prop in Hn; tauto).
    change (String c name ++ "-light:" ++ rest)
      with (String c (name ++ "-light:" ++ rest)).
    rewrite stripThemeSuffix_cons; [rewrite (IH Hn'); reflexivity | |].
    + apply (no_suffix_inside c name "-light" rest "-light");
        [rewrite allChars_app, Hn; reflexivity | reflexivity |].
      intros H; apply (f_equal String.length) in H.
      simpl in H; rewrite append_length in H; simpl in H; lia.
    + apply (no_suffix_inside c name "-light" rest "-dark");
        [rewrite allChars_app, Hn; reflexivity | reflexivity |].
      intros H; apply (f_equal String.length) in H.
      simpl in H; rewrite append_length in H; simpl in H; lia.
  - induction name as [| c name IH]; [reflexivity |].
    assert (Hn' : allChars notColon name = true)
      by (simpl in Hn; apply andb_prop in Hn; tauto).
    change (String c name ++ "-dark:" ++ rest)
      with (String c (name ++ "-dark:" ++ rest)).
    rewrite stripThemeSuffix_cons; [rewrite (IH Hn'); reflexivity | |].
    + apply (no_suffix_inside c name "-dark" rest "-light");
        [rewrite allChars_app, Hn; reflexivity | reflexivity |].
      destruct name as [| d name]; [discriminate |].
      intros H; apply (f_equal String.length) in H.
      simpl in H; rewrite append_length in H; simpl in H; lia.
    + apply (no_suffix_inside c name "-dark" rest "-dark");
        [rewrite allChars_app, Hn; reflexivity | reflexivity |].
      intros H; apply (f_equal String.length) in H.
      simpl in H; rewrite append_length in H; simpl in H; lia.
  - clear name; rename rest into name; rewrite <- !includes_spec.
    induction name as [| c name IH]; [reflexivity |].
    intros Hl Hd.
    assert (Hl' : includes "-light:" (String c name) = false)
      by (destruct (includes "-light:" (String c name)); congruence).
    assert (Hd' : includes "-dark:" (String c name) = false)
      by (destruct (includes "-dark:" (String c name)); congruence).
    cbn [includes] in Hl', Hd'.
    apply orb_false_elim in Hl'; destruct Hl' as [Hl1 Hl2].
    apply orb_false_elim in Hd'; destruct Hd' as [Hd1 Hd2].
    rewrite stripThemeSuffix_cons, IH by (assumption || congruence); reflexivity.
Qed.

Lemma stripThemeSuffix_behaviour_witness :
  stripThemeSuffix ("--brand-light-accent" ++ "-dark:" ++ " #101010;")
  = "--brand-light-accent" ++ ":" ++ " #101010;".
Proof.
  exact (proj2 (proj1 (stripThemeSuffix_behaviour "--brand-light-accent" " #101010;")
                  eq_refl)).
Defined.

(** ** The property lookup *)

Lemma contains_inside (a b s : string) : contains (a ++ b) s -> contains b s.
Proof.
  intros [x [y ->]]; exists (x ++ a), y; rewrite !append_assoc; reflexivity.
Qed.

(** X17. The lookup from token name to CSS property never answers
    border-color: a name with "border-color" in it has "color" in it too and
    gets background or color from the tests before. *)
Theorem mapTokenToProperty_never_border_color (tokenName : string) :
  mapTokenToProperty tokenName <> Some "border-color"
  /\ (contains "border-color" tokenName ->
      mapTokenToProperty tokenName = Some "background"
      \/ mapTokenToProperty tokenName = Some "color").
Proof.
  assert (Hc : includes "border-color" tokenName = true ->
               includes "color" tokenName = true).
  { intros H; apply includes_spec; apply includes_spec in H.
    exact (contains_inside "border-" "color" _ H). }
  unfold mapTokenToProperty.
  destruct (includes "background" tokenName); [split; [discriminate | auto] |].
  destruct (includes "color" tokenName); simpl; [split; [discriminate | auto] |].
  destruct (includes "border-color" tokenName) eqn:E;
    [specialize (Hc eq_refl); discriminate Hc |].
  split.
  - repeat match goal with
           | |- context [if ?b then _ else _] => destruct b
           end; discriminate.
  - intros H; apply includes_spec in H; congruence.
Qed.

(** ** The fix-up on the base documents *)

Lemma split_lf_app (a b : string) :
  split lf (a ++ String lf b) = (split lf a ++ split lf b)%list.
Proof.
  induction a as [| c a IH]; [reflexivity |].
  change (String c a ++ String lf b) with (String c (a ++ String lf b)).
  simpl split; rewrite IH.
  destruct (Ascii.eqb c lf); [reflexivity |].
  pose proof (split_nonempty lf a) as Hne.
  destruct (split lf a); [congruence | reflexivity].
Qed.

Lemma swept_app (a b : string) :
  sweptDocument a -> sweptDocument b -> sweptDocument (a ++ String lf b).
Proof.
  unfold sweptDocument; intros Ha Hb line Hin.
  rewrite split_lf_app in Hin; apply in_app_iff in Hin.
  destruct Hin; auto.
Qed.

Lemma swept_kept_line (line : string) :
  singleLine line -> keptLine line = true -> sweptDocument line.
Proof.
  intros Hl Hk l Hin; rewrite (split_single _ Hl) in Hin.
  destruct Hin as [<- | []]; congruence.
Qed.

Lemma swept_plain_line (line : string) :
  singleLine line -> hasPlaceholderb line = false -> sweptDocument line.
Proof.
  intros Hl Hp l Hin _; rewrite (split_single _ Hl) in Hin.
  destruct Hin as [<- | []]; intros H.
  apply hasPlaceholderb_complete in H; congruence.
Qed.

Lemma keptLine_comment (text : string) : keptLine ("  //" ++ text) = true.
Proof.
  unfold keptLine, trim; simpl dropLeading.
  rewrite !dropTrailing_head by reflexivity.
  apply orb_true_iff; left; apply orb_true_iff; right; reflexivity.
Qed.

Lemma keptLine_declaration (v : string) :
  beginsWith "--" v -> keptLine ("  " ++ v) = true.
Proof.
  intros [r ->]; unfold keptLine, trim; simpl dropLeading.
  rewrite !dropTrailing_head by reflexivity; reflexivity.
Qed.

Lemma swept_fixed (content : string) :
  sweptDocument content -> globalFixReferences content = content.
Proof.
  intros Hs; rewrite globalFixReferences_eq, map_fixed; [apply join_split |].
  intros line Hin; unfold fixLine; destruct (keptLine line) eqn:E; [reflexivity |].
  apply replaceReferences_fixed, hasPlaceholderb_false, Hs; assumption.
Qed.

Section Blocks.
Variable title : string -> string.
Variable render : string -> string.

Lemma swept_declarations (vars : list string) (rest : string) :
  Forall (fun v => beginsWith "--" (render v) /\ singleLine (render v)) vars ->
  sweptDocument rest ->
  sweptDocument (concatMap (fun variable => "  " ++ render variable ++ nl) vars ++ rest).
Proof.
  intros Hv Hrest; induction Hv as [| v vars [Hb Hl] _ IH]; [exact Hrest |].
  cbn [concatMap]; rewrite !append_assoc.
  change (nl ++ ?x) with (String lf x).
  change ("  " ++ render v ++ String lf ?x) with (("  " ++ render v) ++ String lf x).
  apply swept_app; [| exact IH].
  apply swept_kept_line; [exact Hl | apply keptLine_declaration, Hb].
Qed.

Lemma swept_blocks (cats : bucket) (rest : string) :
  Forall
    (fun kv =>
       singleLine (title (fst kv))
       /\ Forall (fun v => beginsWith "--" (render v) /\ singleLine (render v))
            (snd kv))
    cats ->
  sweptDocument rest ->
  sweptDocument
    (concatMap (fun kv => variableBlock (title (fst kv)) render (snd kv)) cats
     ++ rest).
Proof.
  intros Hc Hrest; induction Hc as [| [k vars] cats [Ht Hv] _ IH]; [exact Hrest |].
  cbn [concatMap]; rewrite append_assoc.
  simpl fst in *; simpl snd in *.
  destruct vars as [| v vars]; [exact IH |].
  unfold variableBlock; rewrite !append_assoc.
  change (nl ++ ?x) with (EmptyString ++ String lf x).
  apply swept_app; [apply swept_kept_line; reflexivity |].
  match goal with
  | |- sweptDocument ("  // " ++ title k ++ " tokens" ++ nl ++ ?x) =>
      replace ("  // " ++ title k ++ " tokens" ++ nl ++ x)
        with (("  //" ++ " " ++ title k ++ " tokens") ++ String lf x)
        by (simpl; rewrite !append_assoc; reflexivity)
  end.
  apply swept_app.
  - apply swept_kept_line; [| apply keptLine_comment].
    unfold singleLine; simpl; rewrite allChars_app, Ht; reflexivity.
  - apply swept_declarations; assumption.
Qed.
End Blocks.

Lemma notLf_toUpperChar (c : ascii) : notLf (toUpperChar c) = notLf c.
Proof. destruct c as [[] [] [] [] [] [] [] []]; reflexivity. Qed.

Lemma singleLine_capitalize (s : string) : singleLine s -> singleLine (capitalize s).
Proof.
  unfold singleLine; destruct s as [| c s]; [auto |].
  simpl; rewrite notLf_toUpperChar; auto.
Qed.

(** X18. On a bucket of one-line data the final fix-up of the base
    variables document changes nothing: with every key on one line and
    every declaration on one line and starting with two hyphens, each line
    of the assembled text is a comment, a declaration, blank, or free of
    placeholders, and what is written is the assembled text. *)
Theorem variables_document_sweep_idle (cats : bucket) :
  singleLineBucket cats ->
  generateVariablesFile cats = variablesContent cats.
Proof.
  intros Hc; apply swept_fixed.
  change (variablesContent cats)
    with ("// Design Tokens - Base CSS Variables"
          ++ String lf
             ("// Automatically generated from Figma tokens"
              ++ String lf
                 ("// Theme-independent tokens"
                  ++ String lf
                     (EmptyString
                      ++ String lf
                         (":root {"
                          ++ String lf
                             (concatMap
                                (fun kv =>
                                   variableBlock (capitalize (fst kv)) (fun v => v)
                                     (snd kv))
                                cats
                              ++ "}" ++ String lf EmptyString)))))).
  repeat (apply swept_app; [apply swept_kept_line; reflexivity |]).
  apply swept_app; [apply swept_plain_line; reflexivity |].
  apply (swept_blocks capitalize (fun v => v)).
  - eapply Forall_impl; [| exact Hc].
    intros [k vars] [Hk Hv]; split; [apply singleLine_capitalize, Hk | exact Hv].
  - apply swept_app; [apply swept_plain_line; reflexivity |].
    apply swept_kept_line; reflexivity.
Qed.

Lemma variables_document_sweep_idle_witness :
  generateVariablesFile [("palette", ["--accent: #00ff00;"])]
  = variablesContent [("palette", ["--accent: #00ff00;"])].
Proof.
  apply (variables_document_sweep_idle [("palette", ["--accent: #00ff00;"])]).
  repeat constructor; exists "accent: #00ff00;"; reflexivity.
Defined.

Lemma allChars_drop (p : ascii -> bool) (n : nat) (s : string) :
  allChars p s = true -> allChars p (drop n s) = true.
Proof.
  revert s; induction n as [| n IH]; intros s H; [destruct s; exact H |].
  destruct s as [| c s]; [reflexivity |].
  simpl in H; bool_to_prop; apply IH; assumption.
Qed.

Lemma allChars_removeThemeWordsFrom (p : ascii -> bool) (s : string) :
  allChars p s = true ->
  forall skip, allChars p (removeThemeWordsFrom skip s) = true.
Proof.
  induction s as [| c s IH]; intros H skip; [reflexivity |].
  simpl in H; bool_to_prop; cbn [removeThemeWordsFrom].
  destruct skip as [| k]; [| auto].
  destruct (startsWith "light" _); [auto |].
  destruct (startsWith "dark" _); [auto |].
  simpl; rewrite H, IH; auto.
Qed.

Lemma stripThemeSuffix_eq (s : string) :
  stripThemeSuffix s
  = if startsWith "-light:" s then drop 6 s
    else if startsWith "-dark:" s then drop 5 s
    else match s with
         | EmptyString => EmptyString
         | String c s' => String c (stripThemeSuffix s')
         end.
Proof. destruct s; reflexivity. Qed.

Lemma allChars_stripThemeSuffix (p : ascii -> bool) (s : string) :
  allChars p s = true -> allChars p (stripThemeSuffix s) = true.
Proof.
  induction s as [| c s IH]; intros H; [reflexivity |].
  rewrite stripThemeSuffix_eq.
  destruct (startsWith "-light:" _); [apply allChars_drop, H |].
  destruct (startsWith "-dark:" _); [apply allChars_drop, H |].
  simpl in H; bool_to_prop; simpl; rewrite H, IH; auto.
Qed.

(** A declaration keeps its two hyphens in a theme document, unless its
    name is the theme word. *)
Lemma stripThemeSuffix_declaration (v : string) :
  beginsWith "--" v -> ~ namedAfterTheme v ->
  beginsWith "--" (stripThemeSuffix v).
Proof.
  intros [r ->] Hn.
  change ("--" ++ r) with (String "-" (String "-" r)).
  rewrite stripThemeSuffix_cons by reflexivity.
  rewrite stripThemeSuffix_cons.
  - exists (stripThemeSuffix r); reflexivity.
  - destruct (startsWith "-light:" (String "-" r)) eqn:E; [| reflexivity].
    exfalso; apply Hn; left.
    apply startsWith_spec in E; destruct E as [x E]; injection E as ->.
    exists x; reflexivity.
  - destruct (startsWith "-dark:" (String "-" r)) eqn:E; [| reflexivity].
    exfalso; apply Hn; right.
    apply startsWith_spec in E; destruct E as [x E]; injection E as ->.
    exists x; reflexivity.
Qed.

Lemma singleLine_themeTitle (key : string) :
  singleLine key -> singleLine (capitalize (trim (removeThemeWords key))).
Proof.
  intros H; apply singleLine_capitalize; unfold singleLine, trim.
  apply allChars_dropTrailing, allChars_dropLeading.
  apply allChars_removeThemeWordsFrom, H.
Qed.

(** X19. On a bucket of one-line data the final fix-up of a theme document
    changes nothing either, as long as no declaration is named after a
    theme word alone (--light: or --dark:, which the removal of the theme
    suffix turns into a line that starts with one hyphen): what is written
    is the assembled text. *)
Theorem theme_document_sweep_idle (themeName : string) (cats : bucket) :
  themeName = "light" \/ themeName = "dark" ->
  singleLineBucket cats -> noThemeNamed cats ->
  generateThemeFile themeName cats = themeContent themeName cats.
Proof.
  intros Ht Hc Hn; apply swept_fixed.
  assert (Hblocks :
            sweptDocument
              (concatMap
                 (fun kv =>
                    variableBlock (capitalize (trim (removeThemeWords (fst kv))))
                      stripThemeSuffix (snd kv))
                 cats
               ++ "}" ++ String lf EmptyString)).
  { apply (swept_blocks (fun k => capitalize (trim (removeThemeWords k)))
             stripThemeSuffix).
    - unfold singleLineBucket, noThemeNamed in *.
      induction Hc as [| [k vars] cats [Hk Hv] _ IH]; [constructor |].
      inversion Hn as [| ? ? Hnv Hn']; subst.
      constructor; [| exact (IH Hn')].
      split; [apply singleLine_themeTitle, Hk |].
      simpl snd in *; clear - Hv Hnv.
      induction Hv as [| v vars [Hb Hl] _ IHv]; [constructor |].
      inversion Hnv as [| ? ? Hv0 Hnv']; subst.
      constructor; [| exact (IHv Hnv')].
      split; [apply stripThemeSuffix_declaration; assumption |].
      apply allChars_stripThemeSuffix, Hl.
    - apply swept_app; [apply swept_plain_line; reflexivity |].
      apply swept_kept_line; reflexivity. }
  destruct Ht as [-> | ->].
  - change (themeContent "light" cats)
      with ("// Design Tokens - Light Theme"
            ++ String lf
               ("// Automatically generated from Figma tokens"
                ++ String lf
                   (EmptyString
                    ++ String lf
                       ("@import 'variables';"
                        ++ String lf
                           (EmptyString
                            ++ String lf
                               (":root {"
                                ++ String lf
                                   (concatMap
                                      (fun kv =>
                                         variableBlock
                                           (capitalize
                                              (trim (removeThemeWords (fst kv))))
                                           stripThemeSuffix (snd kv))
                                      cats
                                    ++ "}" ++ String lf EmptyString))))))).
    do 3 (apply swept_app; [apply swept_kept_line; reflexivity |]).
    apply swept_app; [apply swept_plain_line; reflexivity |].
    apply swept_app; [apply swept_kept_line; reflexivity |].
    apply swept_app; [apply swept_plain_line; reflexivity | exact Hblocks].
  - change (themeContent "dark" cats)
      with ("// Design Tokens - Dark Theme"
            ++ String lf
               ("// Automatically generated from Figma tokens"
                ++ String lf
                   (EmptyString
                    ++ String lf
                       ("@import 'variables';"
                        ++ String lf
                           (EmptyString
                            ++ String lf
                               (".dark {"
                                ++ String lf
                                   (concatMap
                                      (fun kv =>
                                         variableBlock
                                           (capitalize
                                              (trim (removeThemeWords (fst kv))))
                                           stripThemeSuffix (snd kv))
                                      cats
                                    ++ "}" ++ String lf EmptyString))))))).
    do 3 (apply swept_app; [apply swept_kept_line; reflexivity |]).
    apply swept_app; [apply swept_plain_line; reflexivity |].
    apply swept_app; [apply swept_kept_line; reflexivity |].
    apply swept_app; [apply swept_plain_line; reflexivity | exact Hblocks].
Qed.

Lemma theme_document_sweep_idle_witness :
  generateThemeFile "dark" [("dark", ["--surface-dark: #101010;"])]
  = themeContent "dark" [("dark", ["--surface-dark: #101010;"])].
Proof.
  apply (theme_document_sweep_idle "dark" [("dark", ["--surface-dark: #101010;"])]).
  - right; reflexivity.
  - repeat constructor; exists "surface-dark: #101010;"; reflexivity.
  - repeat constructor; intros [[r H] | [r H]]; discriminate H.
Defined.

(** ** The names the utilities read back *)

Lemma nameChar_plain (c : ascii) :
  isNameChar c = true ->
  notColon c = true /\ notOpen c = true /\ isSpace c = false.
Proof.
  destruct c as [[] [] [] [] [] [] [] []]; intros H;
    try discriminate H; repeat split.
Qed.

Lemma takeWhile_app (p : ascii -> bool) (a : string) (c : ascii) (b : string) :
  allChars p a = true -> p c = false -> takeWhile p (a ++ String c b) = a.
Proof.
  intros Ha Hc; induction a as [| x a IH]; simpl; [rewrite Hc; reflexivity |].
  simpl in Ha; bool_to_prop; rewrite H, IH; auto.
Qed.

Lemma trim_name_space (name : string) :
  allChars isNameChar name = true -> trim (name ++ " ") = name.
Proof.
  intros H; unfold trim.
  assert (Ht : dropTrailing isSpace (name ++ " ") = name).
  { induction name as [| c name IH]; [reflexivity |].
    simpl in H; bool_to_prop; simpl; rewrite (IH H0).
    destruct (nameChar_plain c H) as [_ [_ ->]]; reflexivity. }
  destruct name as [| c name]; [reflexivity |].
  simpl in H; bool_to_prop.
  rewrite dropLeading_fixed; [exact Ht |].
  intros x r E; injection E as <- _.
  destruct (nameChar_plain c H) as [_ [_ Hs]]; exact Hs.
Qed.

Lemma declaredName_at_start (name rest : string) :
  name <> EmptyString -> allChars notColon name = true ->
  declaredName ("--" ++ name ++ String ":" rest) = Some name.
Proof.
  intros Hne Hc.
  change ("--" ++ name ++ String ":" rest)
    with (String "-" (String "-" (name ++ String ":" rest))).
  cbn [declaredName startsWith Ascii.eqb Bool.eqb andb drop].
  rewrite (untilColon_app _ _ Hc).
  destruct name; [congruence | reflexivity].
Qed.

(** X20. The utilities read back the names the flattener wrote: from the
    declaration of a token the name pattern gets the token name, from the
    declaration of a typography property the token name with the property
    behind it, its font- prefix removed, and from the mixin of a
    typography token the utility class of that name is written, whatever
    the texts of the values are. *)
Theorem recorded_names_read_back (tokenName text : string)
  (texts : list (string * string)) :
  tokenName <> EmptyString ->
  allChars isNameChar tokenName = true ->
  declaredName (declaration tokenName text) = Some tokenName
  /\ (forall pt,
         In (fst pt) typographyProperties ->
         declaredName (typographyVariable tokenName pt)
         = Some (tokenName ++ "-" ++ replaceFirst "font-" EmptyString (fst pt)))
  /\ mixinUtility
       ("@mixin " ++ tokenName ++ " {" ++ nl ++ concatMap mixinLine texts ++ "}")
     = "." ++ tokenName ++ " { @include " ++ tokenName ++ "; }" ++ nl.
Proof.
  intros Hne Hname.
  assert (Hcolon : allChars notColon tokenName = true).
  { apply (allChars_weaken isNameChar); [| exact Hname].
    intros c Hc; apply (nameChar_plain c Hc). }
  assert (Hopen : allChars notOpen tokenName = true).
  { apply (allChars_weaken isNameChar); [| exact Hname].
    intros c Hc; apply (nameChar_plain c Hc). }
  split; [| split].
  - unfold declaration.
    change (": " ++ ?x) with (String ":" (" " ++ x)).
    apply declaredName_at_start; assumption.
  - intros [p v] Hin; unfold typographyVariable; cbn [fst snd] in *.
    assert (Hp : allChars notColon (replaceFirst "font-" EmptyString p) = true)
      by (repeat (destruct Hin as [<- | Hin]; [reflexivity |]); destruct Hin).
    replace ("--" ++ tokenName ++ "-" ++ replaceFirst "font-" EmptyString p
             ++ ": " ++ v ++ ";")
      with ("--" ++ (tokenName ++ "-" ++ replaceFirst "font-" EmptyString p)
            ++ String ":" (" " ++ v ++ ";"))
      by (simpl; rewrite !append_assoc; reflexivity).
    apply declaredName_at_start.
    + destruct tokenName; [congruence | discriminate].
    + rewrite !allChars_app, Hcolon, Hp; reflexivity.
  - unfold mixinUtility.
    assert (Hh : mixinHeader
                   ("@mixin " ++ tokenName ++ " {" ++ nl
                    ++ concatMap mixinLine texts ++ "}")
                 = Some (tokenName ++ " ")).
    { change ("@mixin " ++ ?x)
        with (String "@" (String "m" (String "i" (String "x" (String "i"
                (String "n" (String " " x))))))).
      cbn [mixinHeader startsWith Ascii.eqb Bool.eqb andb drop].
      replace (tokenName ++ " {" ++ nl ++ concatMap mixinLine texts ++ "}")
        with ((tokenName ++ " ")
              ++ String "{" (nl ++ concatMap mixinLine texts ++ "}"))
        by (rewrite !append_assoc; reflexivity).
      rewrite takeWhile_app.
      - destruct tokenName; [congruence | reflexivity].
      - rewrite allChars_app; fold notOpen; rewrite Hopen; reflexivity.
      - reflexivity. }
    rewrite Hh, trim_name_space by exact Hname; reflexivity.
Qed.

Lemma recorded_names_read_back_witness :
  declaredName (declaration "brand-primary" "#336699") = Some "brand-primary".
Proof.
  refine (proj1 (recorded_names_read_back "brand-primary" "#336699" [] _
                   eq_refl)).
  discriminate.
Defined.

(** ** The gate of the spacing utilities *)

Lemma untilColon_some (s seg after : string) :
  untilColon s = Some (seg, after) -> s = seg ++ String ":" after.
Proof.
  revert seg; induction s as [| c s IH]; intros seg; simpl; [discriminate |].
  destruct (Ascii.eqb c colon) eqn:E.
  - intros H; injection H as <- <-.
    apply Ascii.eqb_eq in E; subst c; reflexivity.
  - destruct (untilColon s) as [[seg' after'] |]; [| discriminate].
    intros H; injection H as <- <-.
    rewrite (IH seg' eq_refl); reflexivity.
Qed.

Lemma contains_cons (p : string) (c : ascii) (s : string) :
  contains p s -> contains p (String c s).
Proof. intros [a [b ->]]; exists (String c a), b; reflexivity. Qed.

Lemma contains_trans (p n s : string) :
  contains p n -> contains n s -> contains p s.
Proof.
  intros [a [b ->]] [x [y ->]].
  exists (x ++ a), (b ++ y); rewrite !append_assoc; reflexivity.
Qed.

(** The name the pattern gets is a part of the line. *)
Lemma declaredName_contains (variable name : string) :
  declaredName variable = Some name -> contains name variable.
Proof.
  induction variable as [| c v IH].
  - simpl; discriminate.
  - intros H.
    assert (Hcases :
              (exists seg after,
                  startsWith "--" (String c v) = true
                  /\ untilColon (drop 2 (String c v)) = Some (seg, after)
                  /\ name = seg)
              \/ declaredName v = Some name).
    { cbn [declaredName] in H.
      destruct (startsWith "--" (String c v)) eqn:Es; [| right; exact H].
      destruct (untilColon (drop 2 (String c v))) as [[[| x seg] after] |] eqn:Eu;
        [right; exact H | | right; exact H].
      injection H as <-; left; exists (String x seg), after; auto. }
    destruct Hcases as [[seg [after [Hs [Hu ->]]]] | Hrec].
    + apply startsWith_spec in Hs; destruct Hs as [r Hr]; rewrite Hr in *.
      simpl drop in Hu; apply untilColon_some in Hu; subst r.
      exists "--", (String ":" after); reflexivity.
    + apply contains_cons, IH, Hrec.
Qed.

(** X21. The gate before the spacing utilities hides no rule: when no
    declaration line of a category has spacing, padding, margin or gap in
    it, the spacing utilities of its lines are empty anyway. *)
Theorem spacing_gate_hides_nothing (vars : list string) :
  hasSpacingTokens vars = false ->
  generateSpacingUtilities vars = EmptyString.
Proof.
  unfold hasSpacingTokens, generateSpacingUtilities.
  induction vars as [| v vars IH]; [reflexivity |].
  cbn [existsb concatMap]; intros H; bool_to_prop.
  rewrite (IH H0), append_empty_r.
  destruct (declaredName v) as [className |] eqn:E; [| reflexivity].
  apply declaredName_contains in E.
  assert (Hno : forall p, includes p v = false -> includes p className = false).
  { intros p Hp; destruct (includes p className) eqn:Ei; [| reflexivity].
    apply includes_spec in Ei.
    rewrite <- Hp; symmetry; apply includes_spec.
    exact (contains_trans _ _ _ Ei E). }
  rewrite !Hno by assumption; reflexivity.
Qed.

Lemma spacing_gate_hides_nothing_witness :
  generateSpacingUtilities ["--accent: #00ff00;"] = EmptyString.
Proof. exact (spacing_gate_hides_nothing ["--accent: #00ff00;"] eq_refl). Defined.
